(** * pi2: matching-logic proof generation

    A shallow embedding of the proof-generation pipeline of the repository
    (pattern algebra, proof objects, the Kore converter, the simplification
    visitor, the execution proof engine and the serializer driver), followed
    by the properties established about it.

    Python exceptions are modelled by the [result] type; objects that are
    mutated in place (the converter caches, the engine, the visitor) are
    records threaded explicitly through the operations that mutate them. *)

From Stdlib Require Import ZArith String Ascii List Bool Lia.
From stdpp Require Import base decidable option list gmap strings.

Open Scope string_scope.
Open Scope list_scope.

(* ===================================================================== *)
(** * Part I: the embedding                                               *)
(* ===================================================================== *)

(** ** Exceptions *)

Inductive Exn : Type :=
| AssertionError
| NotImplementedError
| ValueError
| IndexError
| AttributeError.

Inductive result (A : Type) : Type :=
| Ok (a : A)
| Raise (e : Exn).

Arguments Ok {A} a.
Arguments Raise {A} e.

Definition rbind {A B : Type} (r : result A) (k : A -> result B) : result B :=
  match r with
  | Ok a => k a
  | Raise e => Raise e
  end.

Definition is_ok {A : Type} (r : result A) : bool :=
  match r with Ok _ => true | Raise _ => false end.

Declare Scope result_scope.
Delimit Scope result_scope with result.
Notation "'do' x <- c ; k" := (rbind c (fun x => k))
  (at level 20, x name, c at level 100, k at level 200, only parsing)
  : result_scope.
Notation "'check' b ; k" := (if b then k else Raise AssertionError)
  (at level 20, b at level 100, k at level 200, only parsing)
  : result_scope.
Open Scope result_scope.

(** Stateful code that may raise: the object is threaded through, and the
    state reached when an exception is raised is kept (Python does not roll
    back the mutations made before a [raise]). *)
Definition M (S A : Type) : Type := S -> result A * S.

Definition ret {S A : Type} (a : A) : M S A := fun s => (Ok a, s).

Definition raise {S A : Type} (e : Exn) : M S A := fun s => (Raise e, s).

Definition bind {S A B : Type} (m : M S A) (k : A -> M S B) : M S B :=
  fun s =>
    match m s with
    | (Ok a, s') => k a s'
    | (Raise e, s') => (Raise e, s')
    end.

Definition get {S : Type} : M S S := fun s => (Ok s, s).

Definition modify {S : Type} (f : S -> S) : M S unit := fun s => (Ok tt, f s).

Definition lift {S A : Type} (r : result A) : M S A := fun s => (r, s).

Declare Scope exec_scope.
Delimit Scope exec_scope with exec.
Notation "'run' x <- c ; k" := (bind c (fun x => k))
  (at level 20, x name, c at level 100, k at level 200, only parsing)
  : exec_scope.
Notation "'step' c ; k" := (bind c (fun _ => k))
  (at level 20, c at level 100, k at level 200, only parsing)
  : exec_scope.
Notation "'ensure' b ; k" := (if b then k else raise AssertionError)
  (at level 20, b at level 100, k at level 200, only parsing)
  : exec_scope.
Open Scope exec_scope.

(** ** Pattern algebra *)

(** Modelled from the spec: the classes of [proof_generation.pattern]
    (imported by every source file, not part of the sources at hand).
    Section 3 of the specification lists the variants; [PNotation] is the
    variant [Notation(name, args)], a named macro kept distinct from its
    expansion.  Equality is structural. *)
#[warnings="-register-all"]
Inductive Pattern : Type :=
| Symbol (name : string)
| EVar (name : nat)
| SVar (name : nat)
| MetaVar (name : nat)
| App (left right : Pattern)
| Implication (left right : Pattern)
| Exists (var : nat) (subpattern : Pattern)
| Mu (var : nat) (subpattern : Pattern)
| PNotation (label : string) (args : list Pattern).

Definition Implies : Pattern -> Pattern -> Pattern := Implication.
Definition implies : Pattern -> Pattern -> Pattern := Implication.

Definition Pattern_eq_dec : forall p q : Pattern, {p = q} + {p <> q}.
Proof.
  fix IH 1.
  intros p q; decide equality;
    try apply string_dec; try apply Nat.eq_dec.
  apply (List.list_eq_dec IH).
Defined.

#[global] Instance Pattern_eqdec : EqDecision Pattern := Pattern_eq_dec.

(** Python's [p == q] on patterns. *)
Definition pattern_eqb (p q : Pattern) : bool := bool_decide (p = q).

(** Induction on patterns that reaches the arguments of a notation. *)
Section Pattern_nested_ind.

Variable P : Pattern -> Prop.
Hypothesis HSymbol : forall name, P (Symbol name).
Hypothesis HEVar : forall name, P (EVar name).
Hypothesis HSVar : forall name, P (SVar name).
Hypothesis HMetaVar : forall name, P (MetaVar name).
Hypothesis HApp : forall l r, P l -> P r -> P (App l r).
Hypothesis HImplication : forall l r, P l -> P r -> P (Implication l r).
Hypothesis HExists : forall var b, P b -> P (Exists var b).
Hypothesis HMu : forall var b, P b -> P (Mu var b).
Hypothesis HNotation :
  forall label args, Forall P args -> P (PNotation label args).

Fixpoint Pattern_nested_ind (p : Pattern) : P p :=
  match p with
  | Symbol name => HSymbol name
  | EVar name => HEVar name
  | SVar name => HSVar name
  | MetaVar name => HMetaVar name
  | App l r => HApp l r (Pattern_nested_ind l) (Pattern_nested_ind r)
  | Implication l r =>
      HImplication l r (Pattern_nested_ind l) (Pattern_nested_ind r)
  | Exists var b => HExists var b (Pattern_nested_ind b)
  | Mu var b => HMu var b (Pattern_nested_ind b)
  | PNotation label args =>
      HNotation label args
        ((fix all (l : list Pattern) : Forall P l :=
            match l with
            | [] => @List.Forall_nil _ P
            | x :: l' =>
                @List.Forall_cons _ P x l' (Pattern_nested_ind x) (all l')
            end) args)
  end.

End Pattern_nested_ind.

(** Modelled from the spec: [Pattern.instantiate], the substitution of
    metavariables by patterns, "throughout".  The substitution is a Python
    [dict[int, Pattern]]; its insertion order is observable through
    [.values()], so it is kept as an association list. *)
Definition Subst : Type := list (nat * Pattern).

Fixpoint subst_get (delta : Subst) (n : nat) : option Pattern :=
  match delta with
  | [] => None
  | (k, v) :: rest => if Nat.eqb k n then Some v else subst_get rest n
  end.

Definition subst_values (delta : Subst) : list Pattern := map snd delta.

Fixpoint instantiate (delta : Subst) (p : Pattern) : Pattern :=
  match p with
  | Symbol _ | EVar _ | SVar _ => p
  | MetaVar n => match subst_get delta n with Some q => q | None => p end
  | App l r => App (instantiate delta l) (instantiate delta r)
  | Implication l r => Implication (instantiate delta l) (instantiate delta r)
  | Exists x b => Exists x (instantiate delta b)
  | Mu x b => Mu x (instantiate delta b)
  | PNotation lbl args => PNotation lbl (map (instantiate delta) args)
  end.

(** [n] occurs as a metavariable of [p]. *)
Fixpoint occurs_metavar (n : nat) (p : Pattern) : bool :=
  match p with
  | Symbol _ | EVar _ | SVar _ => false
  | MetaVar m => Nat.eqb m n
  | App l r | Implication l r => occurs_metavar n l || occurs_metavar n r
  | Exists _ b | Mu _ b => occurs_metavar n b
  | PNotation _ args => existsb (occurs_metavar n) args
  end.

(** ** Proof objects *)

(** Modelled from the spec: the proof classes of [proof_generation.proof]
    (section 3, "Proof").  [Prop1] and [Prop2] are the two propositional
    axiom schemas over the metavariables 0, 1 and 2; [ModusPonens left right]
    is valid only if the conclusion of [right] is an implication whose
    premise is the conclusion of [left]; [Instantiate] is what
    [Proof.instantiate(var, plug)] builds.  [Assumption] is the proof class
    declared in tests/unit/test_propositional.py. *)
Inductive Proof : Type :=
| Prop1
| Prop2
| ModusPonens (left right : Proof)
| Instantiate (subproof : Proof) (var : nat) (plug : Pattern)
| Assumption (_conclusion : Pattern).

Definition phi0 : Pattern := MetaVar 0.
Definition phi1 : Pattern := MetaVar 1.
Definition phi2 : Pattern := MetaVar 2.

Fixpoint conclusion (pf : Proof) : result Pattern :=
  match pf with
  | Prop1 => Ok (implies phi0 (implies phi1 phi0))
  | Prop2 =>
      Ok (implies (implies phi0 (implies phi1 phi2))
                  (implies (implies phi0 phi1) (implies phi0 phi2)))
  | ModusPonens l r =>
      do left_conclusion <- conclusion l;
      do right_conclusion <- conclusion r;
      match right_conclusion with
      | Implication premise consequence =>
          check (pattern_eqb left_conclusion premise);
          Ok consequence
      | _ => Raise AssertionError
      end
  | Instantiate subproof var plug =>
      do c <- conclusion subproof;
      Ok (instantiate [(var, plug)] c)
  | Assumption c => Ok c
  end.

Definition proof_instantiate (pf : Proof) (var : nat) (plug : Pattern) : Proof :=
  Instantiate pf var plug.

(** ** proof_generation/proofs/propositional.py *)

Module Propositional.

(** [ProofExp]: the three primitive proof constructors. *)
Definition prop1 : Proof := Prop1.
Definition prop2 : Proof := Prop2.
Definition modus_ponens (left right : Proof) : Proof := ModusPonens left right.

(** *** Notation *)

Definition phi0 : Pattern := MetaVar 0.
Definition phi0_implies_phi0 : Pattern := implies phi0 phi0.
Definition bot : Pattern := Mu 0 (SVar 0).
Definition neg (p : Pattern) : Pattern := implies p bot.
Definition top : Pattern := neg bot.

(** *** Proofs *)

Definition imp_reflexivity : Proof :=
  modus_ponens
    (proof_instantiate prop1 1 phi0)
    (modus_ponens
       (proof_instantiate prop1 1 phi0_implies_phi0)
       (proof_instantiate (proof_instantiate prop2 1 phi0_implies_phi0) 2 phi0)).

Definition imp_transitivity (left right : Proof) : result Proof :=
  do left_conc <- conclusion left;
  match left_conc with
  | Implication phi0 phi1 =>
      do right_conc <- conclusion right;
      match right_conc with
      | Implication phi1_r phi2 =>
          check (pattern_eqb phi1_r phi1);
          let step1 :=
            modus_ponens right (proof_instantiate prop1 0 right_conc) in
          let step2 :=
            modus_ponens step1
              (proof_instantiate
                 (proof_instantiate (proof_instantiate prop2 1 phi1) 2 phi2)
                 0 (MetaVar 1)) in
          Ok (modus_ponens left (proof_instantiate step2 1 phi0))
      | _ => Raise AssertionError
      end
  | _ => Raise AssertionError
  end.

Definition top_intro : Proof := proof_instantiate imp_reflexivity 0 bot.

(** *** The class interface used by [serialize]

    [theory], [lemmas], [notation], [claims] and [proofs] are methods that
    a proof expression overrides; [serialize] only goes through them. *)
Record ProofExp : Type := mkProofExp {
  theory : list Pattern;
  lemmas : list Pattern;
  notation : list Pattern;
  claims : list Pattern;
  proofs : list Proof
}.

Definition propositional : ProofExp :=
  {| theory := [];
     lemmas := [phi0_implies_phi0; top];
     notation := [phi0; bot; top; phi0_implies_phi0];
     claims := [phi0_implies_phi0; top];
     proofs := [imp_reflexivity; top_intro] |}.

(** *** Serialization *)

Definition Memory : Type := list (bool * Pattern).
Definition Bytes : Type := list Byte.byte.

Section Serialize.

(** [Pattern.serialize(notation, lemmas, memory, claims, output)] and
    [Proof.serialize(notation, lemmas, memory, claims, output)] belong
    to [proof_generation.proof]; the opcodes they write are an external
    wire contract.  Both mutate [memory] and append to [output]; the
    proof serializer also mutates the list of pending [claims]. *)
Variable Pattern_serialize :
  list Pattern -> list Pattern -> Memory -> Pattern ->
  result (Memory * Bytes).
Variable Proof_serialize :
  list Pattern -> list Pattern -> Memory -> list Pattern -> Proof ->
  result (Memory * list Pattern * Bytes).

(** [for claim in reversed(self.claims()): claim.serialize(...)] *)
Fixpoint serialize_claims (self : ProofExp) (todo : list Pattern)
    (claims_memory : Memory) (claims_out : Bytes)
  : result (Memory * Bytes) :=
  match todo with
  | [] => Ok (claims_memory, claims_out)
  | claim :: todo' =>
      do r <- Pattern_serialize (notation self) [] claims_memory claim;
      serialize_claims self todo' (fst r) (claims_out ++ snd r)
  end.

(** [for proof in self.proofs(): proof.serialize(..., claims, ...)] *)
Fixpoint serialize_proofs (self : ProofExp) (todo : list Proof)
    (proofs_memory : Memory) (claims : list Pattern) (proofs_out : Bytes)
  : result (Memory * list Pattern * Bytes) :=
  match todo with
  | [] => Ok (proofs_memory, claims, proofs_out)
  | proof :: todo' =>
      do r <- Proof_serialize (notation self) (lemmas self)
                proofs_memory claims proof;
      serialize_proofs self todo' (fst (fst r)) (snd (fst r))
        (proofs_out ++ snd r)
  end.

(** [serialize(self, claims_out, proofs_out)]; the result is what has
    been written to the two streams. *)
Definition serialize (self : ProofExp) : result (Bytes * Bytes) :=
  do c <- serialize_claims self (rev (claims self)) [] [];
  do p <- serialize_proofs self (proofs self) [] (claims self) [];
  check (bool_decide (snd (fst p) = []));
  Ok (snd c, snd p).

(** What section 4.5 of the specification says is written: the items
    of a list one after the other, each with the back-reference table
    left by the one before; for proofs, each with the claims still
    pending. *)
Inductive PatternsWritten (self : ProofExp)
  : list Pattern -> Memory -> Bytes -> Prop :=
| patterns_written_nil memory :
    PatternsWritten self [] memory []
| patterns_written_cons claim rest memory memory' out outs :
    Pattern_serialize (notation self) [] memory claim = Ok (memory', out) ->
    PatternsWritten self rest memory' outs ->
    PatternsWritten self (claim :: rest) memory (out ++ outs).

Inductive ProofsWritten (self : ProofExp)
  : list Proof -> Memory -> list Pattern -> Bytes -> list Pattern -> Prop :=
| proofs_written_nil memory pending :
    ProofsWritten self [] memory pending [] pending
| proofs_written_cons proof rest memory memory' pending pending' left_over
    out outs :
    Proof_serialize (notation self) (lemmas self) memory pending proof
      = Ok (memory', pending', out) ->
    ProofsWritten self rest memory' pending' outs left_over ->
    ProofsWritten self (proof :: rest) memory pending (out ++ outs)
      left_over.

End Serialize.

(** Modelled from the spec: a serializer pair with the behaviour section
    4.5 asks of [proof_generation.proof]: a pattern or a proof that is
    already in the back-reference table is written as a reference to it,
    and a proof of the first pending claim publishes that claim.  The
    bytes stand for the opcodes of the external wire contract. *)
Definition reference_Pattern_serialize (notation lemmas : list Pattern)
    (memory : Memory) (p : Pattern) : result (Memory * Bytes) :=
  if bool_decide ((false, p) ∈ memory) then Ok (memory, [Byte.x01])
  else Ok (memory ++ [(false, p)], [Byte.x02]).

Definition reference_Proof_serialize (notation lemmas : list Pattern)
    (memory : Memory) (claims : list Pattern) (proof : Proof)
  : result (Memory * list Pattern * Bytes) :=
  do c <- conclusion proof;
  let known := bool_decide ((true, c) ∈ memory) in
  let written := if known then [Byte.x01] else [Byte.x03] in
  let memory' :=
    if negb known && bool_decide (c ∈ lemmas)
    then memory ++ [(true, c)] else memory in
  match claims with
  | next :: pending =>
      if pattern_eqb c next then Ok (memory', pending, written ++ [Byte.x04])
      else Ok (memory', claims, written)
  | [] => Ok (memory', [], written)
  end.

End Propositional.

(** ** pyk.kore.syntax

    The abstract syntax of Kore handed to the converter by the external
    parser: the constructs the converter handles, and some it does not. *)

Module kore.

#[warnings="-register-all"]
Inductive Sort : Type :=
| SortVar (name : string)
| SortApp (name : string) (sorts : list Sort).

Definition sort_name (s : Sort) : string :=
  match s with
  | SortVar name => name
  | SortApp name _ => name
  end.

#[warnings="-register-all"]
Inductive Pattern : Type :=
| Rewrites (sort : Sort) (l r : Pattern)
| And (sort : Sort) (l r : Pattern)
| Or (sort : Sort) (l r : Pattern)
| App (symbol : string) (sorts : list Sort) (args : list Pattern)
| EVar (name : string) (sort : Sort)
| Top (sort : Sort)
| DV (sort : Sort) (value : string)
| Not (sort : Sort) (pattern : Pattern)
| Implies (sort : Sort) (l r : Pattern)
| Equals (op_sort sort : Sort) (l r : Pattern)
| Bottom (sort : Sort)
| String (value : string).

(** [kore.Axiom(vars, pattern, attrs)] *)
Record KAxiom : Type := mkAxiom {
  vars : list string;
  pattern : Pattern;
  attrs : list Pattern
}.

Record SymbolDecl : Type := mkSymbolDecl {
  symbol_name : string;
  symbol_attrs : list Pattern
}.

Record KModule : Type := mkModule {
  symbol_decls : list SymbolDecl;
  axioms : list KAxiom
}.

Record KDefinition : Type := mkDefinition {
  modules : list KModule
}.

Definition Sort_eq_dec : forall s t : Sort, {s = t} + {s <> t}.
Proof.
  fix IH 1.
  intros s t; decide equality; try apply string_dec.
  apply (List.list_eq_dec IH).
Defined.

Definition Pattern_eq_dec : forall p q : Pattern, {p = q} + {p <> q}.
Proof.
  fix IH 1.
  intros p q; decide equality;
    try apply string_dec; try apply Sort_eq_dec;
    try apply (List.list_eq_dec IH);
    try apply (List.list_eq_dec Sort_eq_dec).
Defined.

Definition KAxiom_eq_dec : forall a b : KAxiom, {a = b} + {a <> b}.
Proof.
  intros a b; decide equality;
    try apply (List.list_eq_dec Pattern_eq_dec);
    try apply Pattern_eq_dec;
    try apply (List.list_eq_dec string_dec).
Defined.

#[global] Instance Sort_eqdec : EqDecision Sort := Sort_eq_dec.
#[global] Instance Pattern_eqdec : EqDecision Pattern := Pattern_eq_dec.
#[global] Instance KAxiom_eqdec : EqDecision KAxiom := KAxiom_eq_dec.

End kore.

(** Induction on Kore patterns that reaches the arguments of an
    application. *)
Section kore_Pattern_nested_ind.

Variable P : kore.Pattern -> Prop.
Hypothesis HRewrites : forall sort l r, P l -> P r -> P (kore.Rewrites sort l r).
Hypothesis HAnd : forall sort l r, P l -> P r -> P (kore.And sort l r).
Hypothesis HOr : forall sort l r, P l -> P r -> P (kore.Or sort l r).
Hypothesis HApp :
  forall symbol sorts args, Forall P args -> P (kore.App symbol sorts args).
Hypothesis HEVar : forall name sort, P (kore.EVar name sort).
Hypothesis HTop : forall sort, P (kore.Top sort).
Hypothesis HDV : forall sort value, P (kore.DV sort value).
Hypothesis HNot : forall sort p, P p -> P (kore.Not sort p).
Hypothesis HImplies : forall sort l r, P l -> P r -> P (kore.Implies sort l r).
Hypothesis HEquals :
  forall op_sort sort l r, P l -> P r -> P (kore.Equals op_sort sort l r).
Hypothesis HBottom : forall sort, P (kore.Bottom sort).
Hypothesis HString : forall value, P (kore.String value).

Fixpoint kore_Pattern_nested_ind (p : kore.Pattern) : P p :=
  match p with
  | kore.Rewrites sort l r =>
      HRewrites sort l r (kore_Pattern_nested_ind l) (kore_Pattern_nested_ind r)
  | kore.And sort l r =>
      HAnd sort l r (kore_Pattern_nested_ind l) (kore_Pattern_nested_ind r)
  | kore.Or sort l r =>
      HOr sort l r (kore_Pattern_nested_ind l) (kore_Pattern_nested_ind r)
  | kore.App symbol sorts args =>
      HApp symbol sorts args
        ((fix all (l : list kore.Pattern) : Forall P l :=
            match l with
            | [] => @List.Forall_nil _ P
            | x :: l' =>
                @List.Forall_cons _ P x l' (kore_Pattern_nested_ind x) (all l')
            end) args)
  | kore.EVar name sort => HEVar name sort
  | kore.Top sort => HTop sort
  | kore.DV sort value => HDV sort value
  | kore.Not sort q => HNot sort q (kore_Pattern_nested_ind q)
  | kore.Implies sort l r =>
      HImplies sort l r (kore_Pattern_nested_ind l) (kore_Pattern_nested_ind r)
  | kore.Equals op_sort sort l r =>
      HEquals op_sort sort l r
        (kore_Pattern_nested_ind l) (kore_Pattern_nested_ind r)
  | kore.Bottom sort => HBottom sort
  | kore.String value => HString value
  end.

End kore_Pattern_nested_ind.

(** ** Notations of the Kore lemma modules

    Modelled from the spec: the notation classes of
    [proof_generation.proofs.kore_lemmas] / [proof_generation.proofs.kore]
    are used by the sources but declared elsewhere.  Each is a named
    [Notation] node over its arguments; [Cell] and [KoreNestedCells] are two
    distinct classes (the "plain cell" and the "nested-cells" markers of
    section 4.2). *)

Module kl.

Definition KoreRewrites (sort l r : Pattern) : Pattern :=
  PNotation "kore-rewrites" [sort; l; r].
Definition KoreAnd (sort l r : Pattern) : Pattern :=
  PNotation "kore-and" [sort; l; r].
Definition KoreOr (sort l r : Pattern) : Pattern :=
  PNotation "kore-or" [sort; l; r].
Definition KoreTop (sort : Pattern) : Pattern :=
  PNotation "kore-top" [sort].
Definition KoreDv (sort value : Pattern) : Pattern :=
  PNotation "kore-dv" [sort; value].
(** [KoreApplies(sorts, phi)]: a tuple of sorts and the applied chain. *)
Definition KoreApplies (sorts : list Pattern) (phi : Pattern) : Pattern :=
  PNotation "kore-app" (sorts ++ [phi]).
Definition Cell (symbol value : Pattern) : Pattern :=
  PNotation "cell" [symbol; value].
Definition KoreNestedCells (symbol value : Pattern) : Pattern :=
  PNotation "nested-cells" [symbol; value].

(** [isinstance(x, kl.Cell)] *)
Definition is_Cell (x : Pattern) : bool :=
  match x with
  | PNotation label [_; _] => String.eqb label "cell"
  | _ => false
  end.

(** [kl.kore_rewrites.assert_matches(p)]: the arguments [(sort, lhs, rhs)]
    of a rewrite relation, an assertion failure on anything else. *)
Definition kore_rewrites_assert_matches (p : Pattern)
  : result (Pattern * Pattern * Pattern) :=
  match p with
  | PNotation label [sort; lhs; rhs] =>
      check (String.eqb label "kore-rewrites");
      Ok (sort, lhs, rhs)
  | _ => Raise AssertionError
  end.

(** Modelled from the spec: [deconstruct_nary_application] decomposes a
    pattern "into (head symbol, arguments)": the head of a left-nested
    chain of applications and the arguments applied to it, in order. *)
Fixpoint deconstruct_nary_application (p : Pattern) : Pattern * list Pattern :=
  match p with
  | App l r =>
      let '(symbol, args) := deconstruct_nary_application l in
      (symbol, args ++ [r])
  | _ => (p, [])
  end.

End kl.

(** [kore_converter.py] imports [proof_generation/proofs/propositional.py]
    as [prop] and uses [prop.And] and [prop.Top].  The module has the names
    it imports ([Implication], [MetaVar], [ModusPonens], [Mu], [Prop1],
    [Prop2], [SVar], [implies]) and the classes [ProofExp] and
    [Propositional]; it has no attribute [And] and no attribute [Top], so
    looking either up raises [AttributeError], before any argument is
    evaluated. *)
Module prop.

Definition And : result (Pattern -> Pattern -> Pattern) :=
  Raise AttributeError.
Definition Top : result Pattern := Raise AttributeError.

End prop.

(** Modelled from the spec: the conjunction of the formula
    [Exists(v, (v -> p) /\ (p -> v))] of section 4.2, a named [Notation]
    node over its two arguments. *)
Definition spec_And (l r : Pattern) : Pattern := PNotation "and" [l; r].

(** [isinstance(p, Symbol)] and [isinstance(p, App)] *)
Definition is_Symbol (p : Pattern) : bool :=
  match p with Symbol _ => true | _ => false end.

Definition is_App (p : Pattern) : bool :=
  match p with App _ _ => true | _ => false end.

Definition is_Implication (p : Pattern) : bool :=
  match p with Implication _ _ => true | _ => false end.

(** Modelled from the spec: [functional(p)] of
    [proof_generation.proofs.definedness], the existential
    unique-definedness statement [Exists(v, (v -> p) /\ (p -> v))]; the
    converter spells the same pattern out with [v = EVar(0)]. *)
Definition functional (p : Pattern) : Pattern :=
  Exists 0 (spec_And (Implies (EVar 0) p) (Implies p (EVar 0))).

(** ** kore_transfer/kore_converter.py: axiom kinds *)

Inductive AxiomType : Type :=
| Unclassified
| RewriteRule
| FunctionalSymbol
| FunctionEvent
| HookEvent.

(** The value of each member of the [Enum]. *)
Definition AxiomType_value (t : AxiomType) : nat :=
  match t with
  | Unclassified => 0
  | RewriteRule => 1
  | FunctionalSymbol => 2
  | FunctionEvent => 3
  | HookEvent => 4
  end.

Definition AxiomType_of_value (n : nat) : option AxiomType :=
  match n with
  | 0 => Some Unclassified
  | 1 => Some RewriteRule
  | 2 => Some FunctionalSymbol
  | 3 => Some FunctionEvent
  | 4 => Some HookEvent
  | _ => None
  end.

#[global] Instance AxiomType_eqdec : EqDecision AxiomType.
Proof. solve_decision. Defined.

#[global] Program Instance AxiomType_countable : Countable AxiomType :=
  inj_countable AxiomType_value AxiomType_of_value _.
Next Obligation. intros []; reflexivity. Qed.

Record ConvertedAxiom : Type := mkConvertedAxiom {
  kind : AxiomType;
  pattern : Pattern
}.

#[global] Instance ConvertedAxiom_eqdec : EqDecision ConvertedAxiom.
Proof. solve_decision. Defined.

(** [Axioms = dict[AxiomType, list[ConvertedAxiom]]] *)
Abbreviation Axioms := (gmap AxiomType (list ConvertedAxiom)).

(** Modelled from the spec: the trace events of
    [kore_transfer.generate_hints] ("function evaluation" and "hook" events
    attached to a step) and the hint that carries them. *)
Inductive Event : Type :=
| FunEvent (name : string) (relative_position : list nat)
| HookEvent_ (name : string) (args : list Pattern) (result_ : Pattern).

Record KoreHint : Type := mkKoreHint {
  substitutions : Subst;
  functional_events : list Event
}.

(** ** kore_transfer/kore_converter.py: [KoreConverter] *)

Module KoreConverter.

Definition GENERATED_TOP_SYMBOL : string := "Lbl'-LT-'generatedTop'-GT-'".

(** The attributes of a converter.  Sets of strings are [gset]s, the
    name-indexed caches are [gmap]s; the set of functional [Symbol]
    objects is a duplicate-free list of patterns, and the axiom cache, a
    dictionary keyed by [kore.Axiom] values, an association list in
    insertion order. *)
Record t : Type := mk {
  _definition : kore.KDefinition;
  _symbols : gmap string Pattern;
  _evars : gmap string Pattern;
  _svars : gmap string Pattern;
  _metavars : gmap string Pattern;
  _axioms_to_choose_from : list kore.KAxiom;
  _axioms_cache : list (kore.KAxiom * ConvertedAxiom);
  _raw_functional_symbols : gset string;
  _functional_symbols : list Pattern;
  _cell_symbols : gset string
}.

Definition set_symbols (f : gmap string Pattern -> gmap string Pattern)
    (self : t) : t :=
  mk (_definition self) (f (_symbols self)) (_evars self) (_svars self)
     (_metavars self) (_axioms_to_choose_from self) (_axioms_cache self)
     (_raw_functional_symbols self) (_functional_symbols self)
     (_cell_symbols self).

Definition set_evars (f : gmap string Pattern -> gmap string Pattern)
    (self : t) : t :=
  mk (_definition self) (_symbols self) (f (_evars self)) (_svars self)
     (_metavars self) (_axioms_to_choose_from self) (_axioms_cache self)
     (_raw_functional_symbols self) (_functional_symbols self)
     (_cell_symbols self).

Definition set_metavars (f : gmap string Pattern -> gmap string Pattern)
    (self : t) : t :=
  mk (_definition self) (_symbols self) (_evars self) (_svars self)
     (f (_metavars self)) (_axioms_to_choose_from self) (_axioms_cache self)
     (_raw_functional_symbols self) (_functional_symbols self)
     (_cell_symbols self).

Definition set_axioms_cache
    (f : list (kore.KAxiom * ConvertedAxiom) ->
         list (kore.KAxiom * ConvertedAxiom))
    (self : t) : t :=
  mk (_definition self) (_symbols self) (_evars self) (_svars self)
     (_metavars self) (_axioms_to_choose_from self) (f (_axioms_cache self))
     (_raw_functional_symbols self) (_functional_symbols self)
     (_cell_symbols self).

Definition set_functional_symbols (f : list Pattern -> list Pattern)
    (self : t) : t :=
  mk (_definition self) (_symbols self) (_evars self) (_svars self)
     (_metavars self) (_axioms_to_choose_from self) (_axioms_cache self)
     (_raw_functional_symbols self) (f (_functional_symbols self))
     (_cell_symbols self).

Definition set_cell_symbols (f : gset string -> gset string)
    (self : t) : t :=
  mk (_definition self) (_symbols self) (_evars self) (_svars self)
     (_metavars self) (_axioms_to_choose_from self) (_axioms_cache self)
     (_raw_functional_symbols self) (_functional_symbols self)
     (f (_cell_symbols self)).

(** [s.add(x)] on a set kept as a list. *)
Definition set_add (x : Pattern) (s : list Pattern) : list Pattern :=
  if bool_decide (x ∈ s) then s else s ++ [x].

(** Lookup and assignment in the axiom cache. *)
Fixpoint cache_get (cache : list (kore.KAxiom * ConvertedAxiom))
    (key : kore.KAxiom) : option ConvertedAxiom :=
  match cache with
  | [] => None
  | (k, v) :: rest =>
      if bool_decide (k = key) then Some v else cache_get rest key
  end.

Fixpoint cache_set (cache : list (kore.KAxiom * ConvertedAxiom))
    (key : kore.KAxiom) (value : ConvertedAxiom)
  : list (kore.KAxiom * ConvertedAxiom) :=
  match cache with
  | [] => [(key, value)]
  | (k, v) :: rest =>
      if bool_decide (k = key) then (k, value) :: rest
      else (k, v) :: cache_set rest key value
  end.

(** *** Construction *)

(** [any(attr.symbol == 'functional' for attr in attrs
         if isinstance(attr, kore.App))] *)
Definition is_functional_attr (attr : kore.Pattern) : bool :=
  match attr with
  | kore.App symbol _ _ => String.eqb symbol "functional"
  | _ => false
  end.

Definition _collect_functional_symbols (definition : kore.KDefinition)
  : gset string :=
  fold_left
    (fun functional_symbols kore_module =>
       fold_left
         (fun functional_symbols symbol_declaration =>
            if existsb is_functional_attr
                 (kore.symbol_attrs symbol_declaration)
            then {[ kore.symbol_name symbol_declaration ]}
                   ∪ functional_symbols
            else functional_symbols)
         (kore.symbol_decls kore_module) functional_symbols)
    (kore.modules definition) ∅.

Definition _retrieve_axioms (definition : kore.KDefinition)
  : list kore.KAxiom :=
  fold_left
    (fun axioms kore_module => axioms ++ kore.axioms kore_module)
    (kore.modules definition) [].

Definition __init__ (kore_definition : kore.KDefinition) : t :=
  {| _definition := kore_definition;
     _symbols := ∅;
     _evars := ∅;
     _svars := ∅;
     _metavars := ∅;
     _axioms_to_choose_from := _retrieve_axioms kore_definition;
     _axioms_cache := [];
     _raw_functional_symbols := _collect_functional_symbols kore_definition;
     _functional_symbols := [];
     _cell_symbols := {[ GENERATED_TOP_SYMBOL ]} |}.

(** *** Symbol and variable resolution *)

(** The argument of [_resolve_symbol] is a string, a sort or a pattern. *)
Inductive Resolvable : Type :=
| of_str (name : string)
| of_sort (sort : kore.Sort)
| of_pattern (pattern : kore.Pattern).

Definition _resolve_symbol (pattern : Resolvable) : M t Pattern :=
  match pattern with
  | of_str name =>
      fun self =>
        match _symbols self !! name with
        | Some symbol => (Ok symbol, self)
        | None =>
            let symbol := Symbol ("kore_" ++ name) in
            let self := set_symbols (insert name symbol) self in
            let self :=
              if bool_decide (name ∈ _raw_functional_symbols self)
              then set_functional_symbols (set_add symbol) self
              else self in
            (Ok symbol, self)
        end
  | of_sort sort =>
      fun self =>
        let name := kore.sort_name sort in
        match _symbols self !! name with
        | Some symbol => (Ok symbol, self)
        | None =>
            let symbol := Symbol ("kore_sort_" ++ name) in
            (Ok symbol, set_symbols (insert name symbol) self)
        end
  | of_pattern _ => raise NotImplementedError
  end.

Definition _resolve_evar (name : string) : M t Pattern :=
  fun self =>
    match _evars self !! name with
    | Some evar => (Ok evar, self)
    | None =>
        let evar := EVar (size (_evars self)) in
        (Ok evar, set_evars (insert name evar) self)
    end.

Definition _resolve_metavar (name : string) : M t Pattern :=
  fun self =>
    match _metavars self !! name with
    | Some metavar => (Ok metavar, self)
    | None =>
        let metavar := MetaVar (size (_metavars self)) in
        (Ok metavar, set_metavars (insert name metavar) self)
    end.

Definition _lookup_metavar (name : string) : M t Pattern :=
  fun self =>
    match _metavars self !! name with
    | Some metavar => (Ok metavar, self)
    | None => (Raise AssertionError, self)
    end.

(** *** Pattern conversion *)

(** [chain_patterns]: [*patterns_left, next_one = patterns] splits the last
    element off (a [ValueError] on the empty list); the recursion is on
    what is left of it, so it runs here over the reversed list. *)
Fixpoint chain_patterns_rev (rev_patterns : list Pattern) : result Pattern :=
  match rev_patterns with
  | [] => Raise ValueError
  | next_one :: patterns_left =>
      match patterns_left with
      | [] => Ok next_one
      | _ :: _ =>
          do chained <- chain_patterns_rev patterns_left;
          Ok (App chained next_one)
      end
  end.

Definition chain_patterns (patterns : list Pattern) : result Pattern :=
  chain_patterns_rev (rev patterns).

(** [re.match(r"Lbl'-LT-'(.+)'-GT-'", s)]: the match is anchored at the
    start only; [.] is any character but a newline and [.+] is greedy, so
    the group runs up to the last closing delimiter of the first line and
    is never empty. *)
Definition newline : ascii := ascii_of_nat 10.

Fixpoint first_line (s : string) : string :=
  match s with
  | EmptyString => EmptyString
  | String c s' =>
      if Ascii.eqb c newline then EmptyString else String c (first_line s')
  end.

Fixpoint strip_prefix (p s : string) : option string :=
  match p with
  | EmptyString => Some s
  | String a p' =>
      match s with
      | EmptyString => None
      | String b s' => if Ascii.eqb a b then strip_prefix p' s' else None
      end
  end.

(** The longest [u] with [s = u ++ closing ++ _]. *)
Fixpoint greedy_until (closing s : string) : option string :=
  match s with
  | EmptyString => None
  | String c s' =>
      match greedy_until closing s' with
      | Some u => Some (String c u)
      | None => if String.prefix closing s then Some EmptyString else None
      end
  end.

Definition match_cell_name (symbol : string) : option string :=
  match strip_prefix "Lbl'-LT-'" symbol with
  | None => None
  | Some rest =>
      match greedy_until "'-GT-'" (first_line rest) with
      | Some (String c u) => Some (String c u)
      | _ => None
      end
  end.

(** [is_cell]: the cell name if the given pattern is a cell. *)
Definition is_cell (kore_application : kore.Pattern) : option string :=
  match kore_application with
  | kore.App symbol _ _ => match_cell_name symbol
  | _ => None
  end.

(** [_convert_pattern] and the [convert_cell] it defines call each other:
    [_convert_pattern] hands an application whose symbol is a known cell
    symbol to [convert_cell], and [convert_cell] converts the children that
    are cells itself and the others through [_convert_pattern].  Both are
    one recursion on the pattern, [convert as_cell], where [as_cell] tells
    which of the two was entered. *)
Fixpoint convert (as_cell : bool) (pattern : kore.Pattern) {struct pattern}
  : M t Pattern :=
  match pattern with
  | kore.App symbol sorts args =>
      fun self =>
        if as_cell || bool_decide (symbol ∈ _cell_symbols self) then
          (* convert_cell(pattern) *)
          (match is_cell pattern with
           | None => raise AssertionError
           | Some cell_name =>
               run cell_symbol <- _resolve_symbol (of_str cell_name);
               step modify (set_cell_symbols (union {[ symbol ]}));
               step (fun self =>
                       if bool_decide (symbol ∈ _raw_functional_symbols self)
                       then modify (set_functional_symbols
                                      (set_add cell_symbol)) self
                       else ret tt self);
               match args with
               | [] => ret cell_symbol
               | _ :: _ =>
                   run chained_cell_patterns <-
                     (fix convert_children (children : list kore.Pattern)
                        : M t (list Pattern) :=
                        match children with
                        | [] => ret []
                        | kore_pattern :: rest =>
                            run converted <-
                              convert (bool_decide
                                         (is_Some (is_cell kore_pattern)))
                                      kore_pattern;
                            run others <- convert_children rest;
                            ret (converted :: others)
                        end) args;
                   run cells_chained <-
                     lift (chain_patterns chained_cell_patterns);
                   if existsb kl.is_Cell chained_cell_patterns then
                     ensure (is_App cells_chained);
                     ret (kl.KoreNestedCells cell_symbol cells_chained)
                   else ret (kl.Cell cell_symbol cells_chained)
               end
           end) self
        else
          (run app_symbol <- _resolve_symbol (of_str symbol);
           run args_patterns <-
             (fix convert_args (todo : list kore.Pattern)
                : M t (list Pattern) :=
                match todo with
                | [] => ret []
                | arg :: rest =>
                    run converted <- convert false arg;
                    run others <- convert_args rest;
                    ret (converted :: others)
                end) args;
           run sorts_patterns <-
             (fix resolve_sorts (todo : list kore.Sort)
                : M t (list Pattern) :=
                match todo with
                | [] => ret []
                | sort :: rest =>
                    run resolved <- _resolve_symbol (of_sort sort);
                    run others <- resolve_sorts rest;
                    ret (resolved :: others)
                end) sorts;
           run args_chain <-
             lift (chain_patterns ([app_symbol] ++ args_patterns));
           run application_sorts <-
             match sorts_patterns with
             | [] => run top <- lift prop.Top; ret [top]
             | _ :: _ => ret sorts_patterns
             end;
           ensure (is_App args_chain || is_Symbol args_chain);
           ret (kl.KoreApplies application_sorts args_chain)) self
  | _ =>
      if as_cell then raise AssertionError
      else
        match pattern with
        | kore.Rewrites sort l r =>
            run rewrite_sort_symbol <- _resolve_symbol (of_sort sort);
            run left_rw_pattern <- convert false l;
            run right_rw_pattern <- convert false r;
            ret (kl.KoreRewrites rewrite_sort_symbol
                   left_rw_pattern right_rw_pattern)
        | kore.And sort l r =>
            run and_sort_symbol <- _resolve_symbol (of_sort sort);
            run left_and_pattern <- convert false l;
            run right_and_pattern <- convert false r;
            ret (kl.KoreAnd and_sort_symbol
                   left_and_pattern right_and_pattern)
        | kore.Or sort l r =>
            run or_sort_symbol <- _resolve_symbol (of_sort sort);
            run left_or_pattern <- convert false l;
            run right_or_pattern <- convert false r;
            ret (kl.KoreOr or_sort_symbol left_or_pattern right_or_pattern)
        | kore.EVar name _ => _resolve_metavar name
        | kore.Top sort =>
            run top_sort_symbol <- _resolve_symbol (of_sort sort);
            ret (kl.KoreTop top_sort_symbol)
        | kore.DV sort value =>
            run dv_sort_symbol <- _resolve_symbol (of_sort sort);
            run value_symbol <- _resolve_symbol (of_str value);
            ret (kl.KoreDv dv_sort_symbol value_symbol)
        | _ => raise NotImplementedError
        end
  end.

Definition _convert_pattern : kore.Pattern -> M t Pattern := convert false.
Definition convert_cell : kore.Pattern -> M t Pattern := convert true.
Definition convert_pattern : kore.Pattern -> M t Pattern := _convert_pattern.

(** *** Axioms *)

Definition _convert_axiom (kore_axiom : kore.KAxiom) : M t ConvertedAxiom :=
  fun self =>
    match cache_get (_axioms_cache self) kore_axiom with
    | Some cached => (Ok cached, self)
    | None =>
        (run classified <-
           match kore.pattern kore_axiom with
           | kore.Rewrites sort l r =>
               match l, r with
               | kore.And _ left_left _, kore.And _ right_left _ =>
                   ret (RewriteRule, kore.Rewrites sort left_left right_left)
               | _, _ => raise AssertionError
               end
           | other => ret (Unclassified, other)
           end;
         let axiom_type := fst classified in
         let preprocessed_pattern := snd classified in
         run converted_pattern <- _convert_pattern preprocessed_pattern;
         let converted_axiom := mkConvertedAxiom axiom_type converted_pattern in
         step modify (set_axioms_cache
                        (fun cache => cache_set cache kore_axiom converted_axiom));
         ret converted_axiom) self
    end.

(** [retrieve_axiom_for_ordinal]: the ordinal is a Python [int]; a
    negative one passes the assertion and indexes from the end. *)
Definition retrieve_axiom_for_ordinal (ordinal : Z) : M t ConvertedAxiom :=
  fun self =>
    let axioms := _axioms_to_choose_from self in
    let len := Z.of_nat (length axioms) in
    if (ordinal <? len)%Z then
      let index := if (ordinal <? 0)%Z then (len + ordinal)%Z else ordinal in
      if (index <? 0)%Z then (Raise IndexError, self)
      else
        match axioms !! Z.to_nat index with
        | Some kore_axiom => _convert_axiom kore_axiom self
        | None => (Raise IndexError, self)
        end
    else (Raise AssertionError, self).

(** [_organize_axioms]: one pass over the axioms; [setdefault] creates the
    group of a kind on its first axiom, and an axiom is appended to the
    group of its kind unless the group already has an equal one. *)
Definition organize_step (organized_axioms : Axioms) (axiom : ConvertedAxiom)
  : Axioms :=
  let group := default [] (organized_axioms !! kind axiom) in
  if bool_decide (axiom ∈ group)
  then <[kind axiom := group]> organized_axioms
  else <[kind axiom := group ++ [axiom]]> organized_axioms.

Definition _organize_axioms (axioms : list ConvertedAxiom) : Axioms :=
  fold_left organize_step axioms ∅.

(** [_construct_subst_axioms]: the loop over [hint.substitutions.values()]
    stops at the first failing assertion; past the two assertions, the
    pattern of the axiom is built with [prop.And], which is looked up before
    its arguments are evaluated. *)
Fixpoint subst_axioms_of (self : t) (patterns : list Pattern)
  : result (list ConvertedAxiom) :=
  match patterns with
  | [] => Ok []
  | pattern :: rest =>
      let symbol := fst (kl.deconstruct_nary_application pattern) in
      check (is_Symbol symbol);
      check (bool_decide (symbol ∈ _functional_symbols self));
      do prop_And <- prop.And;
      let converted_pattern :=
        Exists 0 (prop_And (Implies (EVar 0) pattern)
                           (Implies pattern (EVar 0))) in
      do subst_axioms <- subst_axioms_of self rest;
      Ok (mkConvertedAxiom FunctionalSymbol converted_pattern :: subst_axioms)
  end.

Definition _construct_subst_axioms (self : t) (hint : KoreHint)
  : result (list ConvertedAxiom) :=
  subst_axioms_of self (subst_values (substitutions hint)).

Definition _construct_event_axioms (hint : KoreHint) : list ConvertedAxiom :=
  map (fun event =>
         match event with
         | FunEvent _ _ =>
             mkConvertedAxiom FunctionEvent (Implies (EVar 0) (EVar 0))
         | HookEvent_ _ _ _ =>
             mkConvertedAxiom HookEvent (Implies (EVar 0) (EVar 0))
         end)
      (functional_events hint).

Definition collect_functional_axioms (self : t) (hint : KoreHint)
  : result Axioms :=
  do added_axioms <- _construct_subst_axioms self hint;
  Ok (_organize_axioms (added_axioms ++ _construct_event_axioms hint)).

End KoreConverter.

(** ** The language semantics seen by the engine

    Modelled from the spec: [proof_generation.k.kore_convertion.
    language_semantics] is used by the engine but declared elsewhere.  A
    language semantics is taken through the operations the engine calls:
    the notations it provides, the resolution of a symbol to its
    declaration (which records whether the symbol is functional), the axiom
    of an ordinal, and the number of nested simplification redexes of a
    pattern. *)

Record KSymbol : Type := mkKSymbol {
  ksymbol_name : string;
  is_functional : bool
}.

Record KRewritingRule : Type := mkKRewritingRule {
  rewriting_ordinal : nat;
  rule_pattern : Pattern
}.

Record KEquationalRule : Type := mkKEquationalRule {
  equational_ordinal : nat;
  rule_left : Pattern;
  rule_right : Pattern;
  substitutions_from_requires : Subst
}.

Inductive KRule : Type :=
| Rewriting (rule : KRewritingRule)
| Equational (rule : KEquationalRule).

Record LanguageSemantics : Type := mkLanguageSemantics {
  notations : list Pattern;
  resolve_to_ksymbol : Pattern -> option KSymbol;
  get_axiom : nat -> result KRule;
  count_simplifications : Pattern -> Z
}.

(** One step of the execution trace ([RewriteStepExpression]). *)
Record RewriteStepExpression : Type := mkRewriteStepExpression {
  configuration_before : Pattern;
  hint_axiom : KRule;
  hint_substitutions : Subst
}.

(** ** proof_generation/k/execution_proof_generation.py: the visitor *)

Definition Location : Type := list nat.

Record SimplificationInfo : Type := mkSimplificationInfo {
  location : Location;
  initial_pattern : Pattern;
  simplification_result : Pattern;
  simplifications_left : Z
}.

Module SimplificationVisitor.

(** The attributes of a visitor.  The stack is kept with its top first:
    [stack[-1]] is the head, [append] conses and [pop] removes the head.
    [curr_config] is the attribute of that name (without the underscore)
    which [__exit__] assigns; it does not exist until then. *)
Record t : Type := mk {
  _language_semantics : LanguageSemantics;
  _curr_config : Pattern;
  _simplification_stack : list SimplificationInfo;
  _in_simplification : bool;
  curr_config : option Pattern
}.

Definition set_curr_config_ (c : Pattern) (self : t) : t :=
  mk (_language_semantics self) c (_simplification_stack self)
     (_in_simplification self) (curr_config self).

Definition set_stack (stack : list SimplificationInfo) (self : t) : t :=
  mk (_language_semantics self) (_curr_config self) stack
     (_in_simplification self) (curr_config self).

Definition set_in_simplification (b : bool) (self : t) : t :=
  mk (_language_semantics self) (_curr_config self)
     (_simplification_stack self) b (curr_config self).

Definition set_curr_config (c : Pattern) (self : t) : t :=
  mk (_language_semantics self) (_curr_config self)
     (_simplification_stack self) (_in_simplification self) (Some c).

Definition __init__ (language_semantics : LanguageSemantics)
    (init_config : Pattern) : t :=
  {| _language_semantics := language_semantics;
     _curr_config := init_config;
     _simplification_stack := [];
     _in_simplification := false;
     curr_config := None |}.

Definition simplified_configuration (self : t) : Pattern := _curr_config self.

Definition update_configuration (new_current_configuration : Pattern)
  : M t unit :=
  fun self =>
    match _simplification_stack self with
    | _ :: _ => (Raise AssertionError, self)
    | [] =>
        if _in_simplification self then (Raise AssertionError, self)
        else (Ok tt, set_curr_config_ new_current_configuration self)
    end.

(** The two static methods are reached through [self], so a subclass can
    provide them; the class of the sources leaves both unimplemented. *)
Record Methods : Type := mkMethods {
  get_subpattern : Location -> Pattern -> result Pattern;
  update_subterm : Location -> Pattern -> Pattern -> result Pattern
}.

Definition base_methods : Methods :=
  {| get_subpattern := fun _ _ => Raise NotImplementedError;
     update_subterm := fun _ _ _ => Raise NotImplementedError |}.

Section Visitor.

Variable cls : Methods.

(** Modelled from the spec: [Pattern.apply_esubst(evar_name, plug)] of
    [proof_generation.pattern], the substitution of an element variable
    by a pattern; taken as it is given. *)
Variable apply_esubst : Pattern -> nat -> Pattern -> Pattern.

Definition apply_substitutions (pattern : Pattern) (substitutions : Subst)
  : Pattern :=
  fold_left (fun pattern '(evar_name, plug) =>
               apply_esubst pattern evar_name plug)
            substitutions pattern.

Definition __call__ (ordinal : nat) (substitution : Subst)
    (location : Location) : M t SimplificationInfo :=
  fun self =>
    if _in_simplification self then
      (run sub_pattern <-
         lift (match _simplification_stack self with
               | [] => get_subpattern cls location (_curr_config self)
               | top :: _ =>
                   get_subpattern cls location (simplification_result top)
               end);
       run rule <- lift (get_axiom (_language_semantics self) ordinal);
       match rule with
       | Equational rule =>
           let base_substitutions := substitutions_from_requires rule in
           let simplified_rhs :=
             apply_substitutions (rule_right rule) base_substitutions in
           let simplified_rhs :=
             apply_substitutions simplified_rhs substitution in
           let simplifications_left :=
             count_simplifications (_language_semantics self)
               simplified_rhs in
           let new_info :=
             mkSimplificationInfo location sub_pattern simplified_rhs
               simplifications_left in
           step modify (fun self =>
                          set_stack (new_info :: _simplification_stack self)
                            self);
           ret new_info
       | Rewriting _ => raise AssertionError
       end) self
    else (Raise AssertionError, self).

Definition __enter__ : M t unit :=
  fun self =>
    if _in_simplification self then (Raise AssertionError, self)
    else (Ok tt, set_in_simplification true self).

(** The loop of [__exit__], entered with a non-empty stack: [top] is
    [stack[-1]] and [below] the rest of the stack.  Each round pops one
    frame, so the recursion is on [below]. *)
Fixpoint exit_loop (top : SimplificationInfo)
    (below : list SimplificationInfo) (self : t) {struct below}
  : result unit * t :=
  if (simplifications_left top =? 0)%Z then
    (* exhausted_info = self._simplification_stack.pop() *)
    let exhausted_info := top in
    match below with
    | last_info :: below' =>
        let decremented :=
          mkSimplificationInfo (location last_info)
            (initial_pattern last_info) (simplification_result last_info)
            (simplifications_left last_info - 1) in
        match update_subterm cls (location exhausted_info)
                (simplification_result last_info)
                (simplification_result exhausted_info) with
        | Ok updated =>
            exit_loop
              (mkSimplificationInfo (location last_info)
                 (initial_pattern last_info) updated
                 (simplifications_left last_info - 1))
              below' self
        | Raise e => (Raise e, set_stack (decremented :: below') self)
        end
    | [] =>
        match update_subterm cls (location exhausted_info)
                (_curr_config self)
                (simplification_result exhausted_info) with
        | Ok updated => (Ok tt, set_curr_config updated (set_stack [] self))
        | Raise e => (Raise e, set_stack [] self)
        end
    end
  else (Ok tt, set_stack (top :: below) self).

Definition __exit__ : M t unit :=
  fun self =>
    match _simplification_stack self with
    | [] => (Ok tt, self)
    | top :: below => exit_loop top below self
    end.

(** [with self as visitor: body]: [__exit__] runs whether or not the
    body raised; an exception of the body goes on unless [__exit__]
    raises itself. *)
Definition with_visitor {A : Type} (body : M t A) : M t A :=
  fun self =>
    match __enter__ self with
    | (Raise e, self) => (Raise e, self)
    | (Ok _, self) =>
        let '(outcome, self) := body self in
        match __exit__ self with
        | (Raise e, self) => (Raise e, self)
        | (Ok _, self) => (outcome, self)
        end
    end.

End Visitor.

End SimplificationVisitor.

(** ** proof_generation/k/execution_proof_generation.py: the engine *)

(** Modelled from the spec: the base class [proof.ProofExp] of the engine
    and its [ProofThunk]s belong to [proof_generation.proof].  A proof
    expression accumulates the asserted axioms (a set, kept in order of
    assertion), the claims and their proofs; a thunk is either the axiom it
    loads or an instantiation of another thunk, and [conc] is the pattern it
    proves. *)
Inductive ProofThunk : Type :=
| LoadAxiom (axiom_term : Pattern)
| DynamicInst (proved_expr : ProofThunk) (delta : Subst).

Fixpoint conc (thunk : ProofThunk) : Pattern :=
  match thunk with
  | LoadAxiom axiom_term => axiom_term
  | DynamicInst proved_expr delta => instantiate delta (conc proved_expr)
  end.

Module ProofExp.

Record t : Type := mk {
  _axioms : list Pattern;
  _notations : list Pattern;
  _claims : list Pattern;
  _proof_expressions : list ProofThunk
}.

Definition __init__ (notations : list Pattern) : t :=
  {| _axioms := []; _notations := notations;
     _claims := []; _proof_expressions := [] |}.

Definition add_axiom (axiom : Pattern) (self : t) : t :=
  mk (if bool_decide (axiom ∈ _axioms self) then _axioms self
      else _axioms self ++ [axiom])
     (_notations self) (_claims self) (_proof_expressions self).

Definition add_assumptions (assumptions : list Pattern) (self : t) : t :=
  fold_left (fun self axiom => add_axiom axiom self) assumptions self.

Definition add_claim (claim : Pattern) (self : t) : t :=
  mk (_axioms self) (_notations self) (_claims self ++ [claim])
     (_proof_expressions self).

Definition add_proof_expression (proof : ProofThunk) (self : t) : t :=
  mk (_axioms self) (_notations self) (_claims self)
     (_proof_expressions self ++ [proof]).

Definition load_axiom (axiom_term : Pattern) (self : t) : result ProofThunk :=
  check (bool_decide (axiom_term ∈ _axioms self));
  Ok (LoadAxiom axiom_term).

Definition dynamic_inst (proved_expr : ProofThunk) (delta : Subst)
  : ProofThunk :=
  DynamicInst proved_expr delta.

End ProofExp.

Module ExecutionProofExp.

(** The engine: its own attributes and, in [base], those of the proof
    expression it extends. *)
Record t : Type := mk {
  _init_config : Pattern;
  _curr_config : Pattern;
  language_semantics : LanguageSemantics;
  base : ProofExp.t;
  _simplification_visitor : SimplificationVisitor.t
}.

Definition set_curr_config (c : Pattern) (self : t) : t :=
  mk (_init_config self) c (language_semantics self) (base self)
     (_simplification_visitor self).

Definition set_base (f : ProofExp.t -> ProofExp.t) (self : t) : t :=
  mk (_init_config self) (_curr_config self) (language_semantics self)
     (f (base self)) (_simplification_visitor self).

Definition set_visitor (v : SimplificationVisitor.t) (self : t) : t :=
  mk (_init_config self) (_curr_config self) (language_semantics self)
     (base self) v.

Definition __init__ (language_semantics : LanguageSemantics)
    (init_config : Pattern) : t :=
  {| _init_config := init_config;
     _curr_config := init_config;
     language_semantics := language_semantics;
     base := ProofExp.__init__ (notations language_semantics);
     _simplification_visitor :=
       SimplificationVisitor.__init__ language_semantics init_config |}.

Definition initial_configuration (self : t) : Pattern := _init_config self.
Definition current_configuration (self : t) : Pattern := _curr_config self.

Fixpoint collect_functional_axioms (language_semantics : LanguageSemantics)
    (patterns : list Pattern) : result (list ConvertedAxiom) :=
  match patterns with
  | [] => Ok []
  | pattern :: rest =>
      let sym := fst (kl.deconstruct_nary_application pattern) in
      check (is_Symbol sym);
      match resolve_to_ksymbol language_semantics sym with
      | None => Raise AssertionError
      | Some k_sym =>
          check (is_functional k_sym);
          let converted_pattern := functional pattern in
          do subst_axioms <- collect_functional_axioms language_semantics rest;
          Ok (mkConvertedAxiom FunctionalSymbol converted_pattern
                :: subst_axioms)
      end
  end.

Definition add_assumptions_for_rewrite_step (rule : KRewritingRule)
    (substitutions : Subst) : M t unit :=
  fun self =>
    match collect_functional_axioms (language_semantics self)
            (subst_values substitutions) with
    | Raise e => (Raise e, self)
    | Ok func_axioms =>
        let self :=
          set_base (ProofExp.add_assumptions (map pattern func_axioms)) self in
        (Ok tt, set_base (ProofExp.add_axiom (rule_pattern rule)) self)
    end.

Definition rewrite_event (rule : KRewritingRule) (substitution : Subst)
  : M t ProofThunk :=
  let instantiated_axiom := instantiate substitution (rule_pattern rule) in
  run matched <- lift (kl.kore_rewrites_assert_matches instantiated_axiom);
  let lhs := snd (fst matched) in
  let rhs := snd matched in
  run self <- get;
  ensure (pattern_eqb lhs (current_configuration self));
  step add_assumptions_for_rewrite_step rule substitution;
  step modify (set_base (ProofExp.add_claim instantiated_axiom));
  run self <- get;
  run loaded <- lift (ProofExp.load_axiom (rule_pattern rule) (base self));
  let proof := ProofExp.dynamic_inst loaded substitution in
  step modify (set_base (ProofExp.add_proof_expression proof));
  step modify (set_curr_config rhs);
  step (fun self =>
          let '(outcome, visitor) :=
            SimplificationVisitor.update_configuration (_curr_config self)
              (_simplification_visitor self) in
          (outcome, set_visitor visitor self));
  ret proof.

Section Simplification.

Variable cls : SimplificationVisitor.Methods.
Variable apply_esubst : Pattern -> nat -> Pattern -> Pattern.

Definition simplification_event (ordinal : nat) (substitution : Subst)
    (location : Location) : M t unit :=
  fun self =>
    let '(outcome, visitor) :=
      SimplificationVisitor.with_visitor cls
        (SimplificationVisitor.__call__ cls apply_esubst
           ordinal substitution location)
        (_simplification_visitor self) in
    let self := set_visitor visitor self in
    match outcome with
    | Raise e => (Raise e, self)
    | Ok _ =>
        (Ok tt,
         set_curr_config
           (SimplificationVisitor.simplified_configuration
              (_simplification_visitor self)) self)
    end.

End Simplification.

Definition finalize : M t unit := ret tt.

(** What [from_proof_hints] returns: the engine, or a plain proof
    expression when no hint was provided. *)
Inductive Built : Type :=
| Plain (proof_expr : ProofExp.t)
| Engine (proof_expr : t).

Definition built_claims (b : Built) : list Pattern :=
  match b with
  | Plain pe => ProofExp._claims pe
  | Engine e => ProofExp._claims (base e)
  end.

Definition built_proofs (b : Built) : list ProofThunk :=
  match b with
  | Plain pe => ProofExp._proof_expressions pe
  | Engine e => ProofExp._proof_expressions (base e)
  end.

(** The loop of [from_proof_hints]; [proof_expr] is [None] until the first
    hint. *)
Fixpoint replay (language_semantics : LanguageSemantics)
    (hints : list RewriteStepExpression) (proof_expr : option t)
  : result (option t) :=
  match hints with
  | [] => Ok proof_expr
  | hint :: rest =>
      let proof_expr :=
        match proof_expr with
        | None => __init__ language_semantics (configuration_before hint)
        | Some proof_expr => proof_expr
        end in
      match hint_axiom hint with
      | Rewriting rule =>
          match rewrite_event rule (hint_substitutions hint) proof_expr with
          | (Ok _, proof_expr) =>
              replay language_semantics rest (Some proof_expr)
          | (Raise e, _) => Raise e
          end
      | Equational _ => Raise NotImplementedError
      end
  end.

Definition from_proof_hints (hints : list RewriteStepExpression)
    (language_semantics : LanguageSemantics) : result Built :=
  do proof_expr <- replay language_semantics hints None;
  match proof_expr with
  | None => Ok (Plain (ProofExp.__init__ (notations language_semantics)))
  | Some proof_expr => Ok (Engine proof_expr)
  end.

End ExecutionProofExp.

(** ** Notions of the specification *)

(** The elements of [l] in the order of their first occurrence, leaving out
    those already [seen]. *)
Fixpoint first_occurrences {A : Type} `{EqDecision A} (seen l : list A)
  : list A :=
  match l with
  | [] => []
  | x :: l' =>
      if bool_decide (x ∈ seen) then first_occurrences seen l'
      else x :: first_occurrences (seen ++ [x]) l'
  end.

(** The group of a kind: the axioms of that kind, duplicates dropped, in
    first-seen order. *)
Definition group_of (k : AxiomType) (axioms : list ConvertedAxiom)
  : list ConvertedAxiom :=
  first_occurrences [] (filter (fun axiom => kind axiom = k) axioms).

(** The head of a substituted pattern. *)
Definition head_symbol (p : Pattern) : Pattern :=
  fst (kl.deconstruct_nary_application p).

(** [chain(seq)] of section 4.1: a left fold of binary applications. *)
Definition chain (first : Pattern) (others : list Pattern) : Pattern :=
  fold_left App others first.

(** A head symbol is registered as functional: with the converter, it is
    a [Symbol] of its set of functional symbols; with a language semantics,
    it is a [Symbol] that resolves to a declaration marked functional. *)
Definition converter_registered (self : KoreConverter.t) (sym : Pattern)
  : Prop :=
  is_Symbol sym = true /\ sym ∈ KoreConverter._functional_symbols self.

Definition semantics_registered (language_semantics : LanguageSemantics)
    (sym : Pattern) : Prop :=
  is_Symbol sym = true /\
  exists k_sym,
    resolve_to_ksymbol language_semantics sym = Some k_sym /\
    is_functional k_sym = true.

(** The axiom of unique definedness of section 4.2. *)
Definition functional_axiom (p : Pattern) : ConvertedAxiom :=
  mkConvertedAxiom FunctionalSymbol
    (Exists 0 (spec_And (Implication (EVar 0) p) (Implication p (EVar 0)))).

(** The classification of section 4.2: the kind of an axiom and the pattern
    that is converted for it.  A rewrite whose two sides are conjunctions is
    a [RewriteRule], converted without the second conjunct of either side; a
    rewrite of another form is refused; everything else is [Unclassified]
    and converted as it is. *)
Definition classify (p : kore.Pattern) : result (AxiomType * kore.Pattern) :=
  match p with
  | kore.Rewrites sort (kore.And _ lhs _) (kore.And _ rhs _) =>
      Ok (RewriteRule, kore.Rewrites sort lhs rhs)
  | kore.Rewrites _ _ _ => Raise AssertionError
  | other => Ok (Unclassified, other)
  end.

Definition is_Rewrites (p : kore.Pattern) : bool :=
  match p with kore.Rewrites _ _ _ => true | _ => false end.

Definition is_And (p : kore.Pattern) : bool :=
  match p with kore.And _ _ _ => true | _ => false end.

(** The two parts of [convert_cell] as functions of their own: what it does
    with the head of a cell (resolve its symbol, record the cell symbol and,
    for a functional one, the head), and the loop over the children. *)
Definition cell_head (symbol cell_name : string) : M KoreConverter.t Pattern :=
  run cell_symbol <-
    KoreConverter._resolve_symbol (KoreConverter.of_str cell_name);
  step modify (KoreConverter.set_cell_symbols (union {[ symbol ]}));
  step (fun self =>
          if bool_decide (symbol ∈ KoreConverter._raw_functional_symbols self)
          then modify (KoreConverter.set_functional_symbols
                         (KoreConverter.set_add cell_symbol)) self
          else ret tt self);
  ret cell_symbol.

Fixpoint convert_children (children : list kore.Pattern)
  : M KoreConverter.t (list Pattern) :=
  match children with
  | [] => ret []
  | kore_pattern :: rest =>
      run converted <-
        KoreConverter.convert
          (bool_decide (is_Some (KoreConverter.is_cell kore_pattern)))
          kore_pattern;
      run others <- convert_children rest;
      ret (converted :: others)
  end.

(** The two loops of the generic application case of [_convert_pattern]. *)
Fixpoint convert_args (todo : list kore.Pattern)
  : M KoreConverter.t (list Pattern) :=
  match todo with
  | [] => ret []
  | arg :: rest =>
      run converted <- KoreConverter.convert false arg;
      run others <- convert_args rest;
      ret (converted :: others)
  end.

Fixpoint resolve_sorts (todo : list kore.Sort)
  : M KoreConverter.t (list Pattern) :=
  match todo with
  | [] => ret []
  | sort :: rest =>
      run resolved <- KoreConverter._resolve_symbol (KoreConverter.of_sort sort);
      run others <- resolve_sorts rest;
      ret (resolved :: others)
  end.

(** [sorts_patterns if sorts_patterns else [prop.Top()]] *)
Definition application_sorts (sorts_patterns : list Pattern)
  : M KoreConverter.t (list Pattern) :=
  match sorts_patterns with
  | [] => run top <- lift prop.Top; ret [top]
  | _ :: _ => ret sorts_patterns
  end.


(** An operation of the converter keeps a property of its state,
    whether it returns or raises. *)
Definition preserves {A : Type} (I : KoreConverter.t -> Prop)
    (m : M KoreConverter.t A) : Prop :=
  forall self, I self -> I (snd (m self)).

(** Every known cell symbol follows the naming convention of cells. *)
Definition cell_symbols_named (self : KoreConverter.t) : Prop :=
  forall symbol,
    symbol ∈ KoreConverter._cell_symbols self ->
    is_Some (KoreConverter.match_cell_name symbol).

(** ** kore_transfer/kore_converter.py: [convert_substitutions] *)

(** [substitutions[name] = pattern] on a dictionary kept in insertion
    order: the value of a key that is there is replaced in place, a new key
    goes to the end. *)
Fixpoint subst_set (delta : Subst) (n : nat) (p : Pattern) : Subst :=
  match delta with
  | [] => [(n, p)]
  | (k, v) :: rest =>
      if Nat.eqb k n then (k, p) :: rest else (k, v) :: subst_set rest n p
  end.

(** [KoreConverter.convert_substitutions]: the loop over [subst.items()],
    a dictionary given by its items in order.  For each item the
    metavariable of the identifier is looked up, which asserts that it is
    known, before the pattern is converted; the entry is keyed by the
    [name] of the metavariable, its number.  [_metavars] only ever holds
    the [MetaVar]s made by [_resolve_metavar]; the attribute [name] of
    another pattern is not modelled, and the loop is stopped there by an
    assertion. *)
Fixpoint convert_substitutions_loop (items : list (string * kore.Pattern))
    (substitutions : Subst) : M KoreConverter.t Subst :=
  match items with
  | [] => ret substitutions
  | (id, kore_pattern) :: rest =>
      run metavar <- KoreConverter._lookup_metavar id;
      match metavar with
      | MetaVar name =>
          run converted <- KoreConverter._convert_pattern kore_pattern;
          convert_substitutions_loop rest
            (subst_set substitutions name converted)
      | _ => raise AssertionError
      end
  end.

Definition convert_substitutions (subst : list (string * kore.Pattern))
  : M KoreConverter.t Subst :=
  convert_substitutions_loop subst [].

(** ** Notions of the properties of the code *)

(** The name [_resolve_symbol] looks its argument up by: the string itself,
    or the name of the sort; a pattern has none. *)
Definition resolvable_name (r : KoreConverter.Resolvable) : option string :=
  match r with
  | KoreConverter.of_str name => Some name
  | KoreConverter.of_sort sort => Some (kore.sort_name sort)
  | KoreConverter.of_pattern _ => None
  end.

(** Every cached symbol is the [Symbol] that [_resolve_symbol] makes for its
    name, as a string or as a sort. *)
Definition symbols_prefixed (self : KoreConverter.t) : Prop :=
  forall name symbol,
    KoreConverter._symbols self !! name = Some symbol ->
    symbol = Symbol ("kore_" ++ name) \/ symbol = Symbol ("kore_sort_" ++ name).

(** The cached metavariables are [MetaVar]s numbered below their count, one
    number per name. *)
Definition metavars_numbered (self : KoreConverter.t) : Prop :=
  (forall name metavar,
      KoreConverter._metavars self !! name = Some metavar ->
      exists n, metavar = MetaVar n /\ n < size (KoreConverter._metavars self))
  /\ (forall name1 name2 metavar,
        KoreConverter._metavars self !! name1 = Some metavar ->
        KoreConverter._metavars self !! name2 = Some metavar ->
        name1 = name2).

(** The converter [after] has all that [before] had: the same definition,
    axioms to choose from, declared functional symbols and variables, and at
    least the symbols, metavariables, cell symbols, functional symbols and
    converted axioms of [before], with the same values. *)
Definition extends (before after : KoreConverter.t) : Prop :=
  KoreConverter._definition after = KoreConverter._definition before /\
  KoreConverter._axioms_to_choose_from after
    = KoreConverter._axioms_to_choose_from before /\
  KoreConverter._raw_functional_symbols after
    = KoreConverter._raw_functional_symbols before /\
  KoreConverter._evars after = KoreConverter._evars before /\
  KoreConverter._svars after = KoreConverter._svars before /\
  KoreConverter._symbols before ⊆ KoreConverter._symbols after /\
  KoreConverter._metavars before ⊆ KoreConverter._metavars after /\
  KoreConverter._cell_symbols before ⊆ KoreConverter._cell_symbols after /\
  KoreConverter._functional_symbols before
    ⊆ KoreConverter._functional_symbols after /\
  (forall kore_axiom converted,
      KoreConverter.cache_get (KoreConverter._axioms_cache before) kore_axiom
        = Some converted ->
      KoreConverter.cache_get (KoreConverter._axioms_cache after) kore_axiom
        = Some converted).

(** The patterns made of the constructs [_convert_pattern] has a case for. *)
Fixpoint supported (p : kore.Pattern) : bool :=
  match p with
  | kore.Rewrites _ l r | kore.And _ l r | kore.Or _ l r =>
      supported l && supported r
  | kore.App _ _ args => forallb supported args
  | kore.EVar _ _ | kore.Top _ | kore.DV _ _ => true
  | _ => false
  end.

(** The supported patterns without an application named as a cell. *)
Fixpoint plain (p : kore.Pattern) : bool :=
  match p with
  | kore.Rewrites _ l r | kore.And _ l r | kore.Or _ l r => plain l && plain r
  | kore.App symbol _ args =>
      negb (bool_decide (is_Some (KoreConverter.match_cell_name symbol)))
      && forallb plain args
  | kore.EVar _ _ | kore.Top _ | kore.DV _ _ => true
  | _ => false
  end.

(** An operation that raises in every state, and one that returns in every
    state with a property [J], keeping [J], a value with the property [Q]. *)
Definition raises {S A : Type} (m : M S A) : Prop :=
  forall s, exists e, fst (m s) = Raise e.

Definition returns {S A : Type} (J : S -> Prop) (Q : A -> Prop) (m : M S A)
  : Prop :=
  forall s, J s -> exists a s', m s = (Ok a, s') /\ J s' /\ Q a.

(** The patterns all of whose applications carry a sort. *)
Fixpoint with_sorts (p : kore.Pattern) : bool :=
  match p with
  | kore.Rewrites _ l r | kore.And _ l r | kore.Or _ l r =>
      with_sorts l && with_sorts r
  | kore.App _ sorts args =>
      negb (bool_decide (sorts = [])) && forallb with_sorts args
  | _ => true
  end.

(** An operation that, in every state with the property [J], keeps [J]
    and, when [ok] holds, returns a value with the property [Q], and when
    it does not, raises [AttributeError]. *)
Definition settles {S A : Type} (J : S -> Prop) (Q : A -> Prop) (ok : bool)
    (m : M S A) : Prop :=
  forall s,
    J s ->
    exists s',
      J s' /\
      (if ok then exists a, m s = (Ok a, s') /\ Q a
       else m s = (Raise AttributeError, s')).

(** The state of a converter all conversions keep: its cell symbols are
    named as cells and its symbols carry their prefix. *)
Definition well_formed (self : KoreConverter.t) : Prop :=
  cell_symbols_named self /\ symbols_prefixed self.

(** An operation of the converter that only adds to the converter and, once
    it has returned, returns the same value in every later state whose cell
    symbols are named as cells, and leaves that state as it is. *)
Definition stable {A : Type} (m : M KoreConverter.t A) : Prop :=
  (forall self, extends self (snd (m self)))
  /\ (forall self a self',
         m self = (Ok a, self') ->
         forall later,
           extends self' later -> cell_symbols_named later ->
           m later = (Ok a, later)).

(** The names of the element variables of a Kore pattern. *)
Fixpoint evar_names (p : kore.Pattern) : list string :=
  match p with
  | kore.EVar name _ => [name]
  | kore.Rewrites _ l r | kore.And _ l r | kore.Or _ l r
  | kore.Implies _ l r | kore.Equals _ _ l r => evar_names l ++ evar_names r
  | kore.App _ _ args => concat (map evar_names args)
  | kore.Not _ q => evar_names q
  | kore.Top _ | kore.DV _ _ | kore.Bottom _ | kore.String _ => []
  end.

(** An operation of the converter that only adds to the converter and,
    when it returns, has made metavariables of the given names. *)
Definition registers {A : Type} (names : list string)
    (m : M KoreConverter.t A) : Prop :=
  (forall self, extends self (snd (m self)))
  /\ (forall self a self',
         m self = (Ok a, self') ->
         forall name,
           name ∈ names -> is_Some (KoreConverter._metavars self' !! name)).

(** A symbol declaration with an attribute [functional{...}(...)]. *)
Definition declared_functional (decl : kore.SymbolDecl) : Prop :=
  exists sorts args,
    kore.App "functional" sorts args ∈ kore.symbol_attrs decl.

(** [isinstance(event, FunEvent)] and [isinstance(event, HookEvent)] *)
Definition is_FunEvent (event : Event) : bool :=
  match event with FunEvent _ _ => true | HookEvent_ _ _ _ => false end.

Definition is_HookEvent (event : Event) : bool :=
  match event with FunEvent _ _ => false | HookEvent_ _ _ _ => true end.

(** The placeholder axiom of an event. *)
Definition event_placeholder (k : AxiomType) : ConvertedAxiom :=
  mkConvertedAxiom k (Implies (EVar 0) (EVar 0)).

(** The claim a hint asks for: the pattern of its rule under its
    substitution, for a rewriting rule. *)
Definition hint_claim (hint : RewriteStepExpression) : option Pattern :=
  match hint_axiom hint with
  | Rewriting rule =>
      Some (instantiate (hint_substitutions hint) (rule_pattern rule))
  | Equational _ => None
  end.

(** The configuration reached from [start] along claims that are rewrite
    steps, each starting where the one before ended. *)
Fixpoint trace_from (start : Pattern) (claims : list Pattern)
  : option Pattern :=
  match claims with
  | [] => Some start
  | claim :: rest =>
      match kl.kore_rewrites_assert_matches claim with
      | Ok (_, lhs, rhs) =>
          if pattern_eqb lhs start then trace_from rhs rest else None
      | Raise _ => None
      end
  end.




(** The engine and its visitor agree on the current configuration. *)
Definition in_sync (self : ExecutionProofExp.t) : Prop :=
  SimplificationVisitor.simplified_configuration
    (ExecutionProofExp._simplification_visitor self)
  = ExecutionProofExp.current_configuration self.

(** ** Examples *)

Module Example.

(** A definition with a functional symbol [f], a symbol [g] that is not,
    and three axioms: a rewrite rule with side conditions, a rewrite whose
    sides are not conjunctions, and an axiom that is not a rewrite. *)
Definition SortK : kore.Sort := kore.SortApp "SortK" [].

Definition rule_axiom : kore.KAxiom :=
  kore.mkAxiom []
    (kore.Rewrites SortK
       (kore.And SortK (kore.EVar "X" SortK) (kore.Top SortK))
       (kore.And SortK (kore.DV SortK "1") (kore.Top SortK)))
    [].

Definition bare_rewrite_axiom : kore.KAxiom :=
  kore.mkAxiom [] (kore.Rewrites SortK (kore.Top SortK) (kore.Top SortK)) [].

Definition plain_axiom : kore.KAxiom :=
  kore.mkAxiom [] (kore.Top SortK) [].

Definition definition : kore.KDefinition :=
  kore.mkDefinition
    [kore.mkModule
       [kore.mkSymbolDecl "f" [kore.App "functional" [] []];
        kore.mkSymbolDecl "g" []]
       [rule_axiom; bare_rewrite_axiom; plain_axiom]].

Definition converter : KoreConverter.t := KoreConverter.__init__ definition.

(** Cells: the top cell, and a cell [k]. *)
Definition k_cell : string := "Lbl'-LT-'k'-GT-'".
Definition X : kore.Pattern := kore.EVar "X" SortK.
Definition Y : kore.Pattern := kore.EVar "Y" SortK.

Definition top_of (children : list kore.Pattern) : kore.Pattern :=
  kore.App KoreConverter.GENERATED_TOP_SYMBOL [] children.

(** The converter once it has met the symbols [f] and [g]. *)
Definition converter_fg : KoreConverter.t :=
  snd (KoreConverter._resolve_symbol (KoreConverter.of_str "g")
         (snd (KoreConverter._resolve_symbol (KoreConverter.of_str "f")
                 converter))).

Definition f_of_a : Pattern := App (Symbol "kore_f") (Symbol "kore_a").
Definition g_of_a : Pattern := App (Symbol "kore_g") (Symbol "kore_a").

Definition semantics : LanguageSemantics :=
  {| notations := [];
     resolve_to_ksymbol := fun sym =>
       match sym with
       | Symbol name =>
           if String.eqb name "kore_f" then Some (mkKSymbol name true)
           else if String.eqb name "kore_g" then Some (mkKSymbol name false)
           else None
       | _ => None
       end;
     get_axiom := fun _ => Raise AssertionError;
     count_simplifications := fun _ => 0%Z |}.

(** A rewrite rule [X => b] of the engine, and the engines that start in
    the configurations [f(a)] and [g(a)]. *)
Definition rule : KRewritingRule :=
  mkKRewritingRule 0
    (kl.KoreRewrites (Symbol "kore_sort_SortK") (MetaVar 0) (Symbol "kore_b")).

Definition engine_f : ExecutionProofExp.t :=
  ExecutionProofExp.__init__ semantics f_of_a.

Definition engine_g : ExecutionProofExp.t :=
  ExecutionProofExp.__init__ semantics g_of_a.

(** The engine in the configuration [f(a)] while a simplification is in
    progress. *)
Definition engine_f_busy : ExecutionProofExp.t :=
  ExecutionProofExp.set_visitor
    (SimplificationVisitor.set_in_simplification true
       (ExecutionProofExp._simplification_visitor engine_f))
    engine_f.

(** A visitor at the end of a batch of one exhausted frame. *)
Definition frame (result_ : Pattern) : SimplificationInfo :=
  mkSimplificationInfo [0] (Symbol "kore_a") result_ 0.

Definition visitor (config result_ : Pattern) : SimplificationVisitor.t :=
  SimplificationVisitor.mk semantics config [frame result_] true None.

End Example.

(* ===================================================================== *)
(** * Part II: properties                                                 *)
(* ===================================================================== *)

(** ** Results and patterns *)

Lemma pattern_eqb_refl (p : Pattern) : pattern_eqb p p = true.
Proof. unfold pattern_eqb. apply bool_decide_eq_true. reflexivity. Qed.

Lemma pattern_eqb_eq (p q : Pattern) : pattern_eqb p q = true <-> p = q.
Proof. unfold pattern_eqb. apply bool_decide_eq_true. Qed.

Lemma pattern_eqb_neq (p q : Pattern) : pattern_eqb p q = false <-> p <> q.
Proof. unfold pattern_eqb. apply bool_decide_eq_false. Qed.

(** Instantiating a metavariable that does not occur changes nothing. *)
Lemma instantiate_fresh (n : nat) (q p : Pattern) :
  occurs_metavar n p = false -> instantiate [(n, q)] p = p.
Proof.
  induction p as [ | | | m | l r IHl IHr | l r IHl IHr | x b IHb | x b IHb
                 | label args IHargs ] using Pattern_nested_ind;
    simpl; intros Hfresh; try reflexivity.
  - rewrite Nat.eqb_sym, Hfresh. reflexivity.
  - apply orb_false_iff in Hfresh as [Hl Hr]. rewrite IHl, IHr; auto.
  - apply orb_false_iff in Hfresh as [Hl Hr]. rewrite IHl, IHr; auto.
  - rewrite IHb; auto.
  - rewrite IHb; auto.
  - f_equal. induction IHargs as [ | a args Ha _ IH ]; simpl in *.
    + reflexivity.
    + apply orb_false_iff in Hfresh as [Hhd Htl].
      rewrite Ha, IH; auto.
Qed.

(** ** Propositional: transitivity of implication *)

(** C10 (amended).  Let the conclusions of [left] and [right] be [lc] and
    [rc].  If [lc] is [A -> B] and [rc] is [B -> C], where none of the
    metavariables 0, 1, 2 occurs in [B] and neither 0 nor 1 occurs in [C],
    then [imp_transitivity left right] returns a proof whose conclusion is
    [A -> C].  If [lc] or [rc] is not an implication, or the middle patterns
    differ, it raises an assertion error. *)
Theorem imp_transitivity_correct (left right : Proof) (lc rc : Pattern) :
  conclusion left = Ok lc ->
  conclusion right = Ok rc ->
  (forall A B C,
      lc = Implication A B -> rc = Implication B C ->
      occurs_metavar 0 B = false -> occurs_metavar 1 B = false ->
      occurs_metavar 2 B = false ->
      occurs_metavar 0 C = false -> occurs_metavar 1 C = false ->
      exists pf,
        Propositional.imp_transitivity left right = Ok pf /\
        conclusion pf = Ok (Implication A C))
  /\ (is_Implication lc = false ->
      Propositional.imp_transitivity left right = Raise AssertionError)
  /\ (is_Implication rc = false ->
      Propositional.imp_transitivity left right = Raise AssertionError)
  /\ (forall A B B' C,
      lc = Implication A B -> rc = Implication B' C -> B' <> B ->
      Propositional.imp_transitivity left right = Raise AssertionError).
Proof.
  intros Hl Hr. repeat split.
  - intros A B C -> -> HB0 HB1 HB2 HC0 HC1.
    unfold Propositional.imp_transitivity.
    rewrite Hl; cbn [rbind]. rewrite Hr; cbn [rbind].
    rewrite pattern_eqb_refl.
    eexists; split; [reflexivity | ].
    unfold Propositional.modus_ponens, proof_instantiate,
      Propositional.prop1, Propositional.prop2.
    cbn [conclusion rbind]. rewrite Hl, Hr. cbn [rbind].
    unfold implies, phi0, phi1, phi2.
    cbn [instantiate subst_get Nat.eqb].
    rewrite !(instantiate_fresh 2 C B) by assumption.
    rewrite !(instantiate_fresh 0 (MetaVar 1) B) by assumption.
    rewrite !(instantiate_fresh 0 (MetaVar 1) C) by assumption.
    rewrite pattern_eqb_refl. cbn [rbind].
    rewrite pattern_eqb_refl. cbn [rbind instantiate subst_get Nat.eqb].
    rewrite !(instantiate_fresh 1 A B) by assumption.
    rewrite !(instantiate_fresh 1 A C) by assumption.
    rewrite pattern_eqb_refl. reflexivity.
  - intros Hnot. unfold Propositional.imp_transitivity.
    rewrite Hl; cbn [rbind]. destruct lc; try reflexivity; discriminate.
  - intros Hnot. unfold Propositional.imp_transitivity.
    rewrite Hl; cbn [rbind].
    destruct lc; try reflexivity.
    rewrite Hr; cbn [rbind]. destruct rc; try reflexivity; discriminate.
  - intros A B B' C -> -> Hne. unfold Propositional.imp_transitivity.
    rewrite Hl; cbn [rbind]. rewrite Hr; cbn [rbind].
    apply pattern_eqb_neq in Hne. rewrite Hne. reflexivity.
Qed.

Lemma imp_transitivity_correct_witness :
  exists pf,
    Propositional.imp_transitivity
      (Assumption (implies (Symbol "0") (Symbol "1")))
      (Assumption (implies (Symbol "1") (Symbol "2"))) = Ok pf /\
    conclusion pf = Ok (Implication (Symbol "0") (Symbol "2")).
Proof.
  exact (proj1 (imp_transitivity_correct
                  (Assumption (implies (Symbol "0") (Symbol "1")))
                  (Assumption (implies (Symbol "1") (Symbol "2")))
                  _ _ eq_refl eq_refl)
               (Symbol "0") (Symbol "1") (Symbol "2")
               eq_refl eq_refl eq_refl eq_refl eq_refl eq_refl eq_refl).
Defined.

(** The specification does not hold as stated when the metavariable 1
    occurs in [C]: from proofs of [s0 -> s1] and [s1 -> phi1] the
    construction returns a proof of [s0 -> s0], not of [s0 -> phi1]. *)
Lemma imp_transitivity_captures_metavar :
  let left := Assumption (implies (Symbol "0") (Symbol "1")) in
  let right := Assumption (implies (Symbol "1") (MetaVar 1)) in
  conclusion left = Ok (Implication (Symbol "0") (Symbol "1")) /\
  conclusion right = Ok (Implication (Symbol "1") (MetaVar 1)) /\
  exists pf,
    Propositional.imp_transitivity left right = Ok pf /\
    conclusion pf = Ok (Implication (Symbol "0") (Symbol "0")) /\
    conclusion pf <> Ok (Implication (Symbol "0") (MetaVar 1)).
Proof.
  cbv zeta. split; [reflexivity | split; [reflexivity | ]].
  eexists. split; [vm_compute; reflexivity | ].
  split; [vm_compute; reflexivity | vm_compute; discriminate].
Qed.

(** ** Propositional: serialization *)

Section SerializerCompleteness.

Import Propositional.

Variable Pattern_serialize :
  list Pattern -> list Pattern -> Memory -> Pattern -> result (Memory * Bytes).
Variable Proof_serialize :
  list Pattern -> list Pattern -> Memory -> list Pattern -> Proof ->
  result (Memory * list Pattern * Bytes).

(** The contract of the two serializers (section 4.5): a pattern can
    always be written; a proof of the first pending claim is written and
    publishes it; no proof publishes more than one claim. *)
Hypothesis pattern_written :
  forall notation lemmas memory p,
    exists r, Pattern_serialize notation lemmas memory p = Ok r.
Hypothesis proof_publishes :
  forall notation lemmas memory c pending pf,
    conclusion pf = Ok c ->
    exists memory' out,
      Proof_serialize notation lemmas memory (c :: pending) pf
        = Ok (memory', pending, out).
Hypothesis proof_publishes_at_most_one :
  forall notation lemmas memory pending pf memory' pending' out,
    Proof_serialize notation lemmas memory pending pf
      = Ok (memory', pending', out) ->
    length pending <= S (length pending').

Lemma serialize_claims_written (self : ProofExp) (todo : list Pattern) :
  forall memory out,
    exists memory' outs,
      serialize_claims Pattern_serialize self todo memory out
        = Ok (memory', out ++ outs) /\
      PatternsWritten Pattern_serialize self todo memory outs.
Proof.
  induction todo as [ | claim todo IH ]; intros memory out; simpl.
  - exists memory, []. rewrite app_nil_r. split; [reflexivity | constructor].
  - destruct (pattern_written (notation self) [] memory claim)
      as [[memory1 out1] Hw].
    rewrite Hw; simpl.
    destruct (IH memory1 (out ++ out1)) as (memory' & outs & Hrun & Hrel).
    exists memory', (out1 ++ outs). rewrite Hrun, <- app_assoc.
    split; [reflexivity | econstructor; eassumption].
Qed.

Lemma serialize_proofs_matching (self : ProofExp) (todo : list Proof)
    (pending : list Pattern) :
  Forall2 (fun pf c => conclusion pf = Ok c) todo pending ->
  forall memory out,
    exists memory' outs,
      serialize_proofs Proof_serialize self todo memory pending out
        = Ok (memory', [], out ++ outs) /\
      ProofsWritten Proof_serialize self todo memory pending outs [].
Proof.
  induction 1 as [ | pf c todo pending Hc _ IH ]; intros memory out; simpl.
  - exists memory, []. rewrite app_nil_r. split; [reflexivity | constructor].
  - destruct (proof_publishes (notation self) (lemmas self) memory c
                pending pf Hc) as (memory1 & out1 & Hw).
    rewrite Hw; simpl.
    destruct (IH memory1 (out ++ out1)) as (memory' & outs & Hrun & Hrel).
    exists memory', (out1 ++ outs). rewrite Hrun, <- app_assoc.
    split; [reflexivity | econstructor; eassumption].
Qed.

Lemma serialize_proofs_pending (self : ProofExp) (todo : list Proof) :
  forall memory pending out memory' pending' out',
    serialize_proofs Proof_serialize self todo memory pending out
      = Ok (memory', pending', out') ->
    length pending <= length todo + length pending'.
Proof.
  induction todo as [ | pf todo IH ];
    intros memory pending out memory' pending' out'; simpl.
  - intros [= _ <- _]. lia.
  - destruct (Proof_serialize (notation self) (lemmas self) memory pending pf)
      as [[[memory1 pending1] out1] | e] eqn:Hw; simpl; [ | discriminate].
    intros Hrun. apply IH in Hrun.
    apply proof_publishes_at_most_one in Hw. lia.
Qed.

(** C4.  [serialize] writes the claims in the reverse of their
    declaration order, then the proofs in declaration order.  With as
    many proofs as claims, the i-th proof proving the i-th claim, it
    succeeds and no claim is left pending; with fewer proofs than claims it
    raises. *)
Theorem serialize_complete (self : ProofExp) :
  (Forall2 (fun pf c => conclusion pf = Ok c) (proofs self) (claims self) ->
   exists claims_out proofs_out,
     serialize Pattern_serialize Proof_serialize self
       = Ok (claims_out, proofs_out) /\
     PatternsWritten Pattern_serialize self (rev (claims self)) []
       claims_out /\
     ProofsWritten Proof_serialize self (proofs self) [] (claims self)
       proofs_out [])
  /\ (length (proofs self) < length (claims self) ->
      exists e,
        serialize Pattern_serialize Proof_serialize self = Raise e).
Proof.
  split.
  - intros Hmatch. unfold serialize.
    destruct (serialize_claims_written self (rev (claims self)) [] [])
      as (cm & couts & Hc & Hcw).
    destruct (serialize_proofs_matching self _ _ Hmatch [] [])
      as (pm & pouts & Hp & Hpw).
    rewrite Hc, Hp; simpl.
    exists couts, pouts. repeat split; assumption.
  - intros Hfewer. unfold serialize.
    destruct (serialize_claims Pattern_serialize self (rev (claims self)) [] [])
      as [c | e]; simpl; [ | eauto].
    destruct (serialize_proofs Proof_serialize self (proofs self) []
                (claims self) [])
      as [[[pm pending'] pout] | e] eqn:Hp; cbn [rbind fst snd]; [ | eauto].
    apply serialize_proofs_pending in Hp.
    destruct pending' as [ | c' pending']; [simpl in Hp; lia | ].
    rewrite bool_decide_eq_false_2 by discriminate. eauto.
Qed.

End SerializerCompleteness.

Lemma reference_pattern_written (notation lemmas : list Pattern)
    (memory : Propositional.Memory) (p : Pattern) :
  exists r,
    Propositional.reference_Pattern_serialize notation lemmas memory p = Ok r.
Proof.
  unfold Propositional.reference_Pattern_serialize.
  case_bool_decide; eauto.
Qed.

Lemma reference_proof_publishes (notation lemmas : list Pattern)
    (memory : Propositional.Memory) (c : Pattern) (pending : list Pattern)
    (pf : Proof) :
  conclusion pf = Ok c ->
  exists memory' out,
    Propositional.reference_Proof_serialize notation lemmas memory
      (c :: pending) pf = Ok (memory', pending, out).
Proof.
  intros Hc. unfold Propositional.reference_Proof_serialize.
  rewrite Hc; cbn [rbind]. rewrite pattern_eqb_refl. eauto.
Qed.

Lemma reference_proof_publishes_at_most_one (notation lemmas : list Pattern)
    (memory : Propositional.Memory) (pending : list Pattern) (pf : Proof)
    (memory' : Propositional.Memory) (pending' : list Pattern)
    (out : Propositional.Bytes) :
  Propositional.reference_Proof_serialize notation lemmas memory pending pf
    = Ok (memory', pending', out) ->
  length pending <= S (length pending').
Proof.
  unfold Propositional.reference_Proof_serialize.
  destruct (conclusion pf) as [c | e]; cbn [rbind]; [ | discriminate].
  destruct pending as [ | next pending]; [intros _; simpl; lia | ].
  destruct (pattern_eqb c next); intros [= _ <- _]; simpl; lia.
Qed.

Lemma serialize_complete_witness :
  (exists claims_out proofs_out,
      Propositional.serialize Propositional.reference_Pattern_serialize
        Propositional.reference_Proof_serialize Propositional.propositional
      = Ok (claims_out, proofs_out)) /\
  (exists e,
      Propositional.serialize Propositional.reference_Pattern_serialize
        Propositional.reference_Proof_serialize
        (Propositional.mkProofExp [] [] []
           [Propositional.phi0_implies_phi0; Propositional.top]
           [Propositional.imp_reflexivity])
      = Raise e).
Proof.
  split.
  - destruct (proj1 (serialize_complete
                       Propositional.reference_Pattern_serialize
                       Propositional.reference_Proof_serialize
                       reference_pattern_written
                       reference_proof_publishes
                       reference_proof_publishes_at_most_one
                       Propositional.propositional))
      as (claims_out & proofs_out & Hrun & _).
    + repeat constructor.
    + exists claims_out, proofs_out. exact Hrun.
  - apply (proj2 (serialize_complete
                    Propositional.reference_Pattern_serialize
                    Propositional.reference_Proof_serialize
                    reference_pattern_written
                    reference_proof_publishes
                    reference_proof_publishes_at_most_one
                    (Propositional.mkProofExp [] [] []
                       [Propositional.phi0_implies_phi0; Propositional.top]
                       [Propositional.imp_reflexivity]))).
    simpl. lia.
Defined.

(** ** Converter: grouping of axioms *)

Lemma first_occurrences_subseteq {A : Type} `{EqDecision A} (l seen : list A) :
  forall x, x ∈ first_occurrences seen l -> x ∈ l /\ x ∉ seen.
Proof.
  revert seen. induction l as [ | y l IH ]; intros seen x; simpl.
  - intros Hin. inversion Hin.
  - case_bool_decide as Hseen.
    + intros Hin. apply IH in Hin as [Hl Hs]. split; [right | ]; assumption.
    + intros Hin. apply elem_of_cons in Hin as [-> | Hin].
      * split; [left | assumption].
      * apply IH in Hin as [Hl Hs]. split; [right; assumption | ].
        intros Hx. apply Hs. apply elem_of_app. left. assumption.
Qed.

Lemma first_occurrences_complete {A : Type} `{EqDecision A} (l seen : list A) :
  forall x, x ∈ l -> x ∉ seen -> x ∈ first_occurrences seen l.
Proof.
  revert seen. induction l as [ | y l IH ]; intros seen x Hin Hseen; simpl.
  - inversion Hin.
  - apply elem_of_cons in Hin as [-> | Hin].
    + rewrite bool_decide_eq_false_2 by assumption. left.
    + case_bool_decide as Hy.
      * apply IH; assumption.
      * destruct (decide (x = y)) as [-> | Hne]; [left | right].
        apply IH; [assumption | ].
        intros Hx. apply elem_of_app in Hx as [Hx | Hx]; [auto | ].
        apply list_elem_of_singleton in Hx. auto.
Qed.

Lemma first_occurrences_NoDup {A : Type} `{EqDecision A} (l seen : list A) :
  NoDup (first_occurrences seen l).
Proof.
  revert seen. induction l as [ | y l IH ]; intros seen; simpl.
  - constructor.
  - case_bool_decide as Hy; [apply IH | ].
    constructor; [ | apply IH].
    intros Hin. apply first_occurrences_subseteq in Hin as [_ Hn].
    apply Hn. apply elem_of_app. right. left.
Qed.

(** The group of a kind after [_organize_axioms] has gone over more axioms,
    starting from groups already formed. *)
Lemma organize_fold_lookup (axioms : list ConvertedAxiom) :
  forall (organized : Axioms) (k : AxiomType),
    fold_left KoreConverter.organize_step axioms organized !! k =
    let group := default [] (organized !! k) in
    let added :=
      first_occurrences group (filter (fun axiom => kind axiom = k) axioms) in
    match organized !! k, added with
    | None, [] => None
    | _, _ => Some (group ++ added)
    end.
Proof.
  induction axioms as [ | a axioms IH ]; intros organized k; simpl.
  - destruct (organized !! k) as [g | ]; simpl; [ | reflexivity].
    rewrite app_nil_r. reflexivity.
  - rewrite IH. unfold KoreConverter.organize_step.
    destruct (decide (kind a = k)) as [<- | Hne].
    + rewrite filter_cons_True by reflexivity. simpl.
      case_bool_decide as Hin.
      * rewrite lookup_insert_eq. simpl.
        destruct (organized !! kind a) as [g | ] eqn:Hg; simpl in *.
        -- destruct (first_occurrences g _); reflexivity.
        -- inversion Hin.
      * rewrite lookup_insert_eq. simpl.
        rewrite <- app_assoc. simpl.
        destruct (organized !! kind a) as [g | ] eqn:Hg; simpl in *.
        -- destruct (first_occurrences (g ++ [a]) _); reflexivity.
        -- destruct (first_occurrences [a] _); reflexivity.
    + rewrite filter_cons_False by assumption.
      case_bool_decide; rewrite lookup_insert_ne by assumption; reflexivity.
Qed.

(** C7.  [_organize_axioms] has one group per kind that occurs: the group
    of [k] holds the axioms of kind [k] in first-seen order, without
    duplicates; there is no group for a kind without axioms.  For distinct
    [A] and [B], the input [A, B, A] gives the order [A, B] in the group they
    share, and the groups [A] and [B] when their kinds differ. *)
Theorem organize_axioms_groups (axioms : list ConvertedAxiom) (k : AxiomType) :
  KoreConverter._organize_axioms axioms !! k =
    match group_of k axioms with
    | [] => None
    | group => Some group
    end
  /\ NoDup (group_of k axioms)
  /\ (forall axiom,
        axiom ∈ group_of k axioms <-> axiom ∈ axioms /\ kind axiom = k)
  /\ (forall A B,
        A <> B ->
        (kind A = kind B ->
         KoreConverter._organize_axioms [A; B; A] !! kind A = Some [A; B])
        /\ (kind A <> kind B ->
            KoreConverter._organize_axioms [A; B; A] !! kind A = Some [A] /\
            KoreConverter._organize_axioms [A; B; A] !! kind B = Some [B])).
Proof.
  assert (Hlookup : forall l k',
             KoreConverter._organize_axioms l !! k' =
             match group_of k' l with [] => None | g => Some g end).
  { intros l k'. unfold KoreConverter._organize_axioms.
    rewrite organize_fold_lookup, lookup_empty. simpl. unfold group_of.
    destruct (first_occurrences [] _); reflexivity. }
  split; [apply Hlookup | ].
  split; [apply first_occurrences_NoDup | ].
  split.
  - intros axiom. unfold group_of. split.
    + intros Hin. apply first_occurrences_subseteq in Hin as [Hin _].
      apply list_elem_of_filter in Hin as [Hk Hin]. split; assumption.
    + intros [Hin Hk]. apply first_occurrences_complete.
      * apply list_elem_of_filter. split; assumption.
      * intros Hnil. inversion Hnil.
  - intros A B Hne.
    assert (HBA : B ∉ [A]).
    { intros Hin. apply list_elem_of_singleton in Hin. auto. }
    split.
    + intros Hkind. rewrite Hlookup. unfold group_of.
      rewrite !filter_cons_True by (symmetry; assumption || reflexivity).
      rewrite filter_nil. simpl.
      rewrite (bool_decide_eq_false_2 (B ∈ [A])) by assumption.
      rewrite (bool_decide_eq_true_2 (A ∈ [A; B])) by left.
      reflexivity.
    + intros Hkind. rewrite !Hlookup. unfold group_of. split.
      * rewrite filter_cons_True by reflexivity.
        rewrite filter_cons_False by (intros Heq; auto).
        rewrite filter_cons_True by reflexivity.
        rewrite filter_nil. simpl.
        rewrite (bool_decide_eq_true_2 (A ∈ [A])) by left.
        reflexivity.
      * rewrite filter_cons_False by assumption.
        rewrite filter_cons_True by reflexivity.
        rewrite filter_cons_False by assumption.
        rewrite filter_nil. simpl.
        reflexivity.
Qed.

Lemma organize_axioms_groups_witness :
  KoreConverter._organize_axioms
    [mkConvertedAxiom FunctionalSymbol (Symbol "a");
     mkConvertedAxiom FunctionalSymbol (Symbol "b");
     mkConvertedAxiom FunctionalSymbol (Symbol "a")] !! FunctionalSymbol
  = Some [mkConvertedAxiom FunctionalSymbol (Symbol "a");
          mkConvertedAxiom FunctionalSymbol (Symbol "b")].
Proof.
  exact (proj1 (proj2 (proj2 (proj2
            (organize_axioms_groups [] Unclassified)))
          (mkConvertedAxiom FunctionalSymbol (Symbol "a"))
          (mkConvertedAxiom FunctionalSymbol (Symbol "b"))
          ltac:(discriminate)) eq_refl).
Defined.

(** ** Functional-symbol axioms of a step *)

(** What [_construct_subst_axioms] does with its patterns: only the first one
    matters. *)
Lemma subst_axioms_of_outcome (self : KoreConverter.t)
    (patterns : list Pattern) :
  KoreConverter.subst_axioms_of self patterns =
  match patterns with
  | [] => Ok []
  | p :: _ =>
      if is_Symbol (head_symbol p)
         && bool_decide (head_symbol p ∈ KoreConverter._functional_symbols self)
      then Raise AttributeError
      else Raise AssertionError
  end.
Proof.
  destruct patterns as [ | p patterns ]; [reflexivity | ].
  cbn [KoreConverter.subst_axioms_of]. fold (head_symbol p).
  destruct (is_Symbol (head_symbol p)); [ | reflexivity].
  case_bool_decide; reflexivity.
Qed.

Lemma collect_functional_axioms_unregistered
    (language_semantics : LanguageSemantics) (patterns : list Pattern) :
  (exists p,
      p ∈ patterns /\
      ~ semantics_registered language_semantics (head_symbol p)) ->
  ExecutionProofExp.collect_functional_axioms language_semantics patterns
    = Raise AssertionError.
Proof.
  induction patterns as [ | q patterns IH ]; intros (p & Hin & Hnot); simpl.
  - inversion Hin.
  - fold (head_symbol q).
    destruct (is_Symbol (head_symbol q)) eqn:Hsym; [ | reflexivity].
    destruct (resolve_to_ksymbol language_semantics (head_symbol q))
      as [k_sym | ] eqn:Hres; [ | reflexivity].
    destruct (is_functional k_sym) eqn:Hfun; [ | reflexivity].
    apply elem_of_cons in Hin as [-> | Hin].
    + exfalso. apply Hnot. split; [assumption | eauto].
    + rewrite IH by eauto. reflexivity.
Qed.

Lemma collect_functional_axioms_registered
    (language_semantics : LanguageSemantics) (patterns : list Pattern) :
  (forall p,
      p ∈ patterns -> semantics_registered language_semantics (head_symbol p)) ->
  ExecutionProofExp.collect_functional_axioms language_semantics patterns
    = Ok (map functional_axiom patterns).
Proof.
  induction patterns as [ | q patterns IH ]; intros Hall; simpl.
  - reflexivity.
  - fold (head_symbol q).
    destruct (Hall q) as (Hsym & k_sym & Hres & Hfun); [left | ].
    rewrite Hsym, Hres, Hfun.
    rewrite IH by (intros p Hp; apply Hall; right; assumption).
    reflexivity.
Qed.

(** C3, on the code.  For the substituted patterns of a step, the engine
    ([collect_functional_axioms]) does what the claim says: if the head of
    one of them is not registered as functional it raises an assertion
    error, and if the heads of all of them are it returns one
    [FunctionalSymbol] axiom per pattern [p], in order, whose pattern is
    [Exists(v, (v -> p) /\ (p -> v))].  The converter
    ([_construct_subst_axioms]) does not: past its two assertions it builds
    the pattern of the axiom with [prop.And], a name the module [prop] does
    not have.  It returns, no axiom, only when there is no pattern;
    otherwise it raises, [AssertionError] when the head of the first pattern
    is not registered as functional and [AttributeError] when it is,
    whatever the other patterns are.  So it raises for the pattern [f(a)]
    whose head [f] is registered as functional, where the claim says that it
    succeeds. *)
Theorem functional_substitution_guard (self : KoreConverter.t)
    (language_semantics : LanguageSemantics) (hint : KoreHint) :
  let patterns := subst_values (substitutions hint) in
  ((exists p,
       p ∈ patterns /\
       ~ semantics_registered language_semantics (head_symbol p)) ->
   ExecutionProofExp.collect_functional_axioms language_semantics patterns
     = Raise AssertionError)
  /\ ((forall p,
         p ∈ patterns ->
         semantics_registered language_semantics (head_symbol p)) ->
      ExecutionProofExp.collect_functional_axioms language_semantics patterns
        = Ok (map functional_axiom patterns))
  /\ (patterns = [] ->
      KoreConverter._construct_subst_axioms self hint = Ok [])
  /\ (forall p rest,
        patterns = p :: rest ->
        ~ converter_registered self (head_symbol p) ->
        KoreConverter._construct_subst_axioms self hint
          = Raise AssertionError)
  /\ (forall p rest,
        patterns = p :: rest ->
        converter_registered self (head_symbol p) ->
        KoreConverter._construct_subst_axioms self hint
          = Raise AttributeError)
  /\ (converter_registered Example.converter_fg (head_symbol Example.f_of_a)
      /\ KoreConverter._construct_subst_axioms Example.converter_fg
           (mkKoreHint [(0, Example.f_of_a)] []) = Raise AttributeError
      /\ ExecutionProofExp.collect_functional_axioms Example.semantics
           [Example.f_of_a] = Ok [functional_axiom Example.f_of_a]).
Proof.
  cbv zeta. unfold KoreConverter._construct_subst_axioms.
  split; [apply collect_functional_axioms_unregistered | ].
  split; [apply collect_functional_axioms_registered | ].
  rewrite subst_axioms_of_outcome.
  split; [intros ->; reflexivity | ].
  split; [ | split].
  - intros p rest -> Hnot.
    destruct (is_Symbol (head_symbol p)) eqn:Hsym; [ | reflexivity].
    case_bool_decide as Hfun; [ | reflexivity].
    exfalso. apply Hnot. split; assumption.
  - intros p rest -> [Hsym Hfun].
    rewrite Hsym, bool_decide_eq_true_2 by exact Hfun. reflexivity.
  - split; [ | split; reflexivity].
    split; [reflexivity | ].
    apply (bool_decide_eq_true_1 _). vm_compute. reflexivity.
Qed.

(** ** Converter: the conversion of patterns *)

Lemma chain_patterns_chain (first : Pattern) (others : list Pattern) :
  KoreConverter.chain_patterns (first :: others) = Ok (chain first others).
Proof.
  unfold KoreConverter.chain_patterns, chain.
  induction others as [ | x others IH ] using rev_ind.
  - reflexivity.
  - rewrite app_comm_cons, rev_unit, fold_left_app.
    cbn [KoreConverter.chain_patterns_rev fold_left].
    destruct (rev (first :: others)) as [ | y l ] eqn:Hrev.
    + apply (f_equal (@length Pattern)) in Hrev.
      rewrite length_rev in Hrev. discriminate Hrev.
    + rewrite IH. reflexivity.
Qed.

Lemma is_App_chain (first : Pattern) (others : list Pattern) :
  others <> [] -> is_App (chain first others) = true.
Proof.
  unfold chain.
  destruct others as [ | x others ] using rev_ind; [congruence | ].
  intros _. rewrite fold_left_app. reflexivity.
Qed.

Lemma convert_children_length (args : list kore.Pattern) :
  forall self children self',
    convert_children args self = (Ok children, self') ->
    length children = length args.
Proof.
  induction args as [ | arg args IH ]; intros self children self'; simpl.
  - unfold ret. intros [= <- _]. reflexivity.
  - unfold bind, ret.
    destruct (KoreConverter.convert _ arg self) as [[c | e] s1];
      [ | discriminate].
    destruct (convert_children args s1) as [[cs | e] s2] eqn:Hrest;
      [ | discriminate].
    intros [= <- _]. simpl. f_equal. eapply IH. eassumption.
Qed.

(** [_convert_pattern] hands a known cell to [convert_cell]. *)
Lemma convert_pattern_known_cell (symbol : string) (sorts : list kore.Sort)
    (args : list kore.Pattern) (self : KoreConverter.t) :
  symbol ∈ KoreConverter._cell_symbols self ->
  KoreConverter._convert_pattern (kore.App symbol sorts args) self
    = KoreConverter.convert_cell (kore.App symbol sorts args) self.
Proof.
  intros Hcell.
  unfold KoreConverter._convert_pattern, KoreConverter.convert_cell.
  simpl. rewrite bool_decide_eq_true_2 by assumption. reflexivity.
Qed.

(** [convert_cell] in terms of its two parts. *)
Lemma convert_cell_unfold (symbol : string) (sorts : list kore.Sort)
    (args : list kore.Pattern) (self : KoreConverter.t) :
  KoreConverter.convert_cell (kore.App symbol sorts args) self =
  match KoreConverter.match_cell_name symbol with
  | None => (Raise AssertionError, self)
  | Some cell_name =>
      (run cell_symbol <- cell_head symbol cell_name;
       match args with
       | [] => ret cell_symbol
       | _ :: _ =>
           run chained_cell_patterns <- convert_children args;
           run cells_chained <-
             lift (KoreConverter.chain_patterns chained_cell_patterns);
           if existsb kl.is_Cell chained_cell_patterns then
             ensure (is_App cells_chained);
             ret (kl.KoreNestedCells cell_symbol cells_chained)
           else ret (kl.Cell cell_symbol cells_chained)
       end) self
  end.
Proof.
  unfold KoreConverter.convert_cell. simpl.
  destruct (KoreConverter.match_cell_name symbol) as [cell_name | ];
    [ | reflexivity].
  unfold cell_head, bind, ret, modify, KoreConverter._resolve_symbol.
  destruct (KoreConverter._symbols self !! cell_name); simpl;
    repeat case_bool_decide; reflexivity.
Qed.

(** ** Converter: what a conversion keeps *)

(** The application case of [convert], in terms of the named loops. *)
Lemma convert_as_cell (as_cell : bool) (symbol : string)
    (sorts : list kore.Sort) (args : list kore.Pattern)
    (self : KoreConverter.t) :
  as_cell || bool_decide (symbol ∈ KoreConverter._cell_symbols self) = true ->
  KoreConverter.convert as_cell (kore.App symbol sorts args) self
    = KoreConverter.convert_cell (kore.App symbol sorts args) self.
Proof.
  intros Hcell. unfold KoreConverter.convert_cell. simpl.
  rewrite Hcell. reflexivity.
Qed.

Lemma convert_generic (as_cell : bool) (symbol : string)
    (sorts : list kore.Sort) (args : list kore.Pattern)
    (self : KoreConverter.t) :
  as_cell || bool_decide (symbol ∈ KoreConverter._cell_symbols self) = false ->
  KoreConverter.convert as_cell (kore.App symbol sorts args) self =
  (run app_symbol <- KoreConverter._resolve_symbol (KoreConverter.of_str symbol);
   run args_patterns <- convert_args args;
   run sorts_patterns <- resolve_sorts sorts;
   run args_chain <-
     lift (KoreConverter.chain_patterns ([app_symbol] ++ args_patterns));
   run sorts_of_application <- application_sorts sorts_patterns;
   ensure (is_App args_chain || is_Symbol args_chain);
   ret (kl.KoreApplies sorts_of_application args_chain)) self.
Proof.
  intros Hgeneric. simpl. rewrite Hgeneric. reflexivity.
Qed.

#[local] Arguments KoreConverter._resolve_symbol : simpl never.
#[local] Arguments KoreConverter._resolve_metavar : simpl never.

Section Preservation.

Variable I : KoreConverter.t -> Prop.

Hypothesis I_symbols :
  forall f self, I self -> I (KoreConverter.set_symbols f self).
Hypothesis I_metavars :
  forall f self, I self -> I (KoreConverter.set_metavars f self).
Hypothesis I_functional :
  forall f self, I self -> I (KoreConverter.set_functional_symbols f self).
Hypothesis I_cells :
  forall symbol self,
    is_Some (KoreConverter.match_cell_name symbol) ->
    I self ->
    I (KoreConverter.set_cell_symbols (union {[ symbol ]}) self).

Lemma preserves_ret {A : Type} (a : A) : preserves I (ret a).
Proof. intros self HI. exact HI. Qed.

Lemma preserves_raise {A : Type} (e : Exn) :
  preserves I (raise e : M KoreConverter.t A).
Proof. intros self HI. exact HI. Qed.

Lemma preserves_lift {A : Type} (r : result A) : preserves I (lift r).
Proof. intros self HI. exact HI. Qed.

Lemma preserves_bind {A B : Type} (m : M KoreConverter.t A)
    (k : A -> M KoreConverter.t B) :
  preserves I m -> (forall a, preserves I (k a)) -> preserves I (bind m k).
Proof.
  intros Hm Hk self HI. unfold bind.
  specialize (Hm self HI). destruct (m self) as [[a | e] self1]; simpl in Hm.
  - apply Hk. exact Hm.
  - exact Hm.
Qed.

Lemma preserves_resolve_symbol (r : KoreConverter.Resolvable) :
  preserves I (KoreConverter._resolve_symbol r).
Proof.
  intros self HI. unfold KoreConverter._resolve_symbol.
  destruct r as [name | sort | pattern].
  - destruct (KoreConverter._symbols self !! name); simpl; [exact HI | ].
    case_bool_decide; auto.
  - destruct (KoreConverter._symbols self !! kore.sort_name sort); simpl; auto.
  - exact HI.
Qed.

Lemma preserves_resolve_metavar (name : string) :
  preserves I (KoreConverter._resolve_metavar name).
Proof.
  intros self HI. unfold KoreConverter._resolve_metavar.
  destruct (KoreConverter._metavars self !! name); simpl; auto.
Qed.

Lemma preserves_resolve_sorts (sorts : list kore.Sort) :
  preserves I (resolve_sorts sorts).
Proof.
  induction sorts as [ | sort sorts IH ]; simpl.
  - apply preserves_ret.
  - apply preserves_bind; [apply preserves_resolve_symbol | intros resolved].
    apply preserves_bind; [exact IH | intros others]. apply preserves_ret.
Qed.

Lemma preserves_cell_head (symbol cell_name : string) :
  is_Some (KoreConverter.match_cell_name symbol) ->
  preserves I (cell_head symbol cell_name).
Proof.
  intros Hnamed. unfold cell_head.
  apply preserves_bind; [apply preserves_resolve_symbol | intros cell_symbol].
  apply preserves_bind.
  { intros self HI. simpl. apply I_cells; assumption. }
  intros _. apply preserves_bind; [ | intros _; apply preserves_ret].
  intros self HI. case_bool_decide; simpl; auto.
Qed.

Lemma preserves_convert_children (args : list kore.Pattern) :
  Forall (fun p => forall as_cell, preserves I (KoreConverter.convert as_cell p))
    args ->
  preserves I (convert_children args).
Proof.
  induction 1 as [ | arg args Harg _ IH ]; simpl.
  - apply preserves_ret.
  - apply preserves_bind; [apply Harg | intros converted].
    apply preserves_bind; [exact IH | intros others]. apply preserves_ret.
Qed.

Lemma preserves_convert_args (args : list kore.Pattern) :
  Forall (fun p => forall as_cell, preserves I (KoreConverter.convert as_cell p))
    args ->
  preserves I (convert_args args).
Proof.
  induction 1 as [ | arg args Harg _ IH ]; simpl.
  - apply preserves_ret.
  - apply preserves_bind; [apply Harg | intros converted].
    apply preserves_bind; [exact IH | intros others]. apply preserves_ret.
Qed.

Lemma preserves_application_sorts (sorts_patterns : list Pattern) :
  preserves I (application_sorts sorts_patterns).
Proof.
  destruct sorts_patterns; simpl; [ | apply preserves_ret].
  apply preserves_bind; [apply preserves_lift | intros top].
  apply preserves_ret.
Qed.

Ltac preserves_steps :=
  repeat first
    [ apply preserves_ret
    | apply preserves_raise
    | apply preserves_lift
    | apply preserves_resolve_symbol
    | apply preserves_resolve_metavar
    | apply preserves_resolve_sorts
    | assumption
    | match goal with
      | IH : forall as_cell, preserves _ (KoreConverter.convert as_cell ?p)
        |- preserves _ (KoreConverter.convert _ ?p) => apply IH
      end
    | apply preserves_bind; [ | intros ? ] ].

(** Converting a pattern, as a cell or not, keeps the property. *)
Lemma preserves_convert (p : kore.Pattern) :
  forall as_cell, preserves I (KoreConverter.convert as_cell p).
Proof.
  induction p as [ sort l r IHl IHr | sort l r IHl IHr | sort l r IHl IHr
                 | symbol sorts args IHargs | name sort | sort | sort value
                 | sort q IHq | sort l r IHl IHr | op_sort sort l r IHl IHr
                 | sort | value ] using kore_Pattern_nested_ind;
    intros as_cell;
    try (destruct as_cell; simpl; preserves_steps; fail).
  intros self HI.
  destruct (as_cell
            || bool_decide (symbol ∈ KoreConverter._cell_symbols self))
    eqn:Hcell.
  - rewrite (convert_as_cell _ _ _ _ _ Hcell), convert_cell_unfold.
    destruct (KoreConverter.match_cell_name symbol) as [cell_name | ]
      eqn:Hname; [ | exact HI].
    clear Hcell. revert self HI. apply preserves_bind.
    + apply preserves_cell_head. rewrite Hname. eauto.
    + intros cell_symbol. destruct args as [ | arg args].
      * apply preserves_ret.
      * apply preserves_bind;
          [apply preserves_convert_children; assumption | intros children].
        apply preserves_bind; [apply preserves_lift | intros cells_chained].
        destruct (existsb kl.is_Cell children);
          [destruct (is_App cells_chained) | ]; preserves_steps.
  - rewrite (convert_generic _ _ _ _ _ Hcell).
    clear Hcell. revert self HI.
    apply preserves_bind; [apply preserves_resolve_symbol | intros app_symbol].
    apply preserves_bind;
      [apply preserves_convert_args; assumption | intros args_patterns].
    apply preserves_bind; [apply preserves_resolve_sorts | intros sorts_patterns].
    apply preserves_bind; [apply preserves_lift | intros args_chain].
    apply preserves_bind;
      [apply preserves_application_sorts | intros sorts_of_application].
    destruct (is_App args_chain || is_Symbol args_chain); preserves_steps.
Qed.

End Preservation.

(** Conversions add only cell symbols that follow the naming convention,
    and leave the axiom cache alone. *)
Lemma init_cell_symbols_named (kore_definition : kore.KDefinition) :
  cell_symbols_named (KoreConverter.__init__ kore_definition).
Proof.
  intros symbol Hin. simpl in Hin. apply elem_of_singleton in Hin. subst symbol.
  vm_compute. eauto.
Qed.

Lemma convert_cell_symbols_named (p : kore.Pattern) (as_cell : bool) :
  preserves cell_symbols_named (KoreConverter.convert as_cell p).
Proof.
  apply preserves_convert.
  - intros f self HI. exact HI.
  - intros f self HI. exact HI.
  - intros f self HI. exact HI.
  - intros symbol self Hnamed HI other Hin. simpl in Hin.
    apply elem_of_union in Hin as [Hin | Hin]; [ | apply HI; exact Hin].
    apply elem_of_singleton in Hin. subst other. exact Hnamed.
Qed.

Lemma convert_axioms_cache (p : kore.Pattern) (as_cell : bool)
    (self : KoreConverter.t) :
  KoreConverter._axioms_cache (snd (KoreConverter.convert as_cell p self))
    = KoreConverter._axioms_cache self.
Proof.
  apply (preserves_convert
           (fun s => KoreConverter._axioms_cache s
                     = KoreConverter._axioms_cache self));
    try (intros; simpl; assumption).
  reflexivity.
Qed.

(** ** Converter: axioms *)

Lemma cache_get_set (cache : list (kore.KAxiom * ConvertedAxiom))
    (key : kore.KAxiom) (value : ConvertedAxiom) :
  KoreConverter.cache_get (KoreConverter.cache_set cache key value) key
    = Some value.
Proof.
  induction cache as [ | [k v] cache IH ]; simpl.
  - rewrite bool_decide_eq_true_2 by reflexivity. reflexivity.
  - case_bool_decide as Hk; simpl.
    + rewrite bool_decide_eq_true_2 by assumption. reflexivity.
    + rewrite bool_decide_eq_false_2 by assumption. apply IH.
Qed.

Lemma convert_axiom_hit (kore_axiom : kore.KAxiom) (self : KoreConverter.t)
    (cached : ConvertedAxiom) :
  KoreConverter.cache_get (KoreConverter._axioms_cache self) kore_axiom
    = Some cached ->
  KoreConverter._convert_axiom kore_axiom self = (Ok cached, self).
Proof.
  intros Hhit. unfold KoreConverter._convert_axiom. rewrite Hhit. reflexivity.
Qed.

(** What [_convert_axiom] does for an axiom that is not in the cache. *)
Lemma convert_axiom_miss (kore_axiom : kore.KAxiom) (self : KoreConverter.t) :
  KoreConverter.cache_get (KoreConverter._axioms_cache self) kore_axiom = None ->
  KoreConverter._convert_axiom kore_axiom self =
  match classify (kore.pattern kore_axiom) with
  | Raise e => (Raise e, self)
  | Ok (axiom_type, preprocessed_pattern) =>
      match KoreConverter._convert_pattern preprocessed_pattern self with
      | (Ok converted_pattern, self') =>
          let converted_axiom :=
            mkConvertedAxiom axiom_type converted_pattern in
          (Ok converted_axiom,
           KoreConverter.set_axioms_cache
             (fun cache =>
                KoreConverter.cache_set cache kore_axiom converted_axiom)
             self')
      | (Raise e, self') => (Raise e, self')
      end
  end.
Proof.
  intros Hmiss. unfold KoreConverter._convert_axiom. rewrite Hmiss.
  unfold classify, bind, ret, raise, modify.
  destruct (kore.pattern kore_axiom) as
    [ sort l r | | | | | | | | | | | ];
    try (cbn [fst snd];
         match goal with
         | |- context [KoreConverter._convert_pattern ?p ?s] =>
             destruct (KoreConverter._convert_pattern p s) as [[c | e] s']
         end; reflexivity).
  destruct l; try reflexivity; destruct r; reflexivity.
Qed.

Lemma cache_get_None (cache : list (kore.KAxiom * ConvertedAxiom))
    (key : kore.KAxiom) :
  KoreConverter.cache_get cache key = None <-> key ∉ map fst cache.
Proof.
  induction cache as [ | [k v] cache IH ]; simpl.
  - split; [intros _ Hin; inversion Hin | reflexivity].
  - case_bool_decide as Hk.
    + split; [discriminate | ]. intros Hnot. exfalso. apply Hnot. subst. left.
    + rewrite IH. split.
      * intros Hnot Hin. apply elem_of_cons in Hin as [-> | Hin]; auto.
      * intros Hnot Hin. apply Hnot. right. exact Hin.
Qed.

Lemma cache_set_fresh (cache : list (kore.KAxiom * ConvertedAxiom))
    (key : kore.KAxiom) (value : ConvertedAxiom) :
  KoreConverter.cache_get cache key = None ->
  KoreConverter.cache_set cache key value = cache ++ [(key, value)].
Proof.
  induction cache as [ | [k v] cache IH ]; simpl; [reflexivity | ].
  case_bool_decide; [discriminate | ]. intros Hmiss. rewrite IH; auto.
Qed.

(** Converting an axiom keeps the naming of the known cell symbols, so
    every converter reached from [__init__] has it. *)
Lemma convert_axiom_cell_symbols_named (kore_axiom : kore.KAxiom) :
  preserves cell_symbols_named (KoreConverter._convert_axiom kore_axiom).
Proof.
  intros self Hnamed.
  destruct (KoreConverter.cache_get (KoreConverter._axioms_cache self)
              kore_axiom) as [cached | ] eqn:Hget.
  - rewrite (convert_axiom_hit _ _ _ Hget). exact Hnamed.
  - rewrite (convert_axiom_miss _ _ Hget).
    destruct (classify (kore.pattern kore_axiom)) as [[ty prep] | e];
      [ | exact Hnamed].
    pose proof (convert_cell_symbols_named prep false self Hnamed) as Hkept.
    fold (KoreConverter._convert_pattern prep self) in Hkept.
    destruct (KoreConverter._convert_pattern prep self) as [[c | e] s'];
      exact Hkept.
Qed.

(** C8.  If converting an axiom succeeds, the [ConvertedAxiom] it returns
    is the entry of the axiom in [_axioms_cache] from then on, and converting
    the axiom again returns that cached value and changes nothing: the
    converter, and so the size of its axiom cache, is as the first conversion
    left it.  An axiom is never cached twice: a cache without duplicate
    entries is without duplicate entries after the first conversion. *)
Theorem convert_axiom_idempotent (kore_axiom : kore.KAxiom)
    (self self' : KoreConverter.t) (converted : ConvertedAxiom) :
  KoreConverter._convert_axiom kore_axiom self = (Ok converted, self') ->
  KoreConverter.cache_get (KoreConverter._axioms_cache self') kore_axiom
    = Some converted /\
  KoreConverter._convert_axiom kore_axiom self' = (Ok converted, self') /\
  length (KoreConverter._axioms_cache
            (snd (KoreConverter._convert_axiom kore_axiom self')))
    = length (KoreConverter._axioms_cache self') /\
  (NoDup (map fst (KoreConverter._axioms_cache self)) ->
   NoDup (map fst (KoreConverter._axioms_cache self'))).
Proof.
  intros Hfirst.
  assert (Hcached :
            KoreConverter.cache_get (KoreConverter._axioms_cache self')
              kore_axiom = Some converted /\
            (NoDup (map fst (KoreConverter._axioms_cache self)) ->
             NoDup (map fst (KoreConverter._axioms_cache self')))).
  { destruct (KoreConverter.cache_get (KoreConverter._axioms_cache self)
                kore_axiom) as [cached | ] eqn:Hget.
    - rewrite (convert_axiom_hit _ _ _ Hget) in Hfirst.
      injection Hfirst as -> ->. split; [assumption | auto].
    - rewrite (convert_axiom_miss _ _ Hget) in Hfirst.
      destruct (classify (kore.pattern kore_axiom)) as [[ty prep] | e];
        [ | discriminate].
      pose proof (convert_axioms_cache prep false self) as Hkept.
      fold (KoreConverter._convert_pattern prep self) in Hkept.
      destruct (KoreConverter._convert_pattern prep self) as [[c | e] s'];
        [ | discriminate].
      cbv zeta in Hfirst. injection Hfirst as <- <-.
      simpl in *. split; [apply cache_get_set | ].
      rewrite Hkept, (cache_set_fresh _ _ _ Hget), map_app. simpl.
      intros Hnodup. apply NoDup_app. split; [exact Hnodup | ].
      split; [ | apply NoDup_singleton].
      intros k Hk Hin. apply list_elem_of_singleton in Hin. subst k.
      apply cache_get_None in Hget. auto. }
  destruct Hcached as [Hcached Hnodup].
  split; [exact Hcached | ].
  rewrite (convert_axiom_hit _ _ _ Hcached). repeat split. exact Hnodup.
Qed.

(** C5 (amended).  For an axiom that is not in the cache: if it is
    [Rewrites(sort, And(lhs, cond_l), And(rhs, cond_r))], it is converted
    as the [RewriteRule] of [Rewrites(sort, lhs, rhs)], whatever [cond_l]
    and [cond_r] are; if it is a rewrite one side of which is not a
    conjunction, the conversion raises an assertion error and changes
    nothing; if it is not a rewrite, it is converted as it is, as an
    [Unclassified] axiom. *)
Theorem convert_axiom_classification (kore_axiom : kore.KAxiom)
    (self : KoreConverter.t) :
  KoreConverter.cache_get (KoreConverter._axioms_cache self) kore_axiom = None ->
  (forall sort s1 lhs cond_l s2 rhs cond_r,
      kore.pattern kore_axiom
        = kore.Rewrites sort (kore.And s1 lhs cond_l) (kore.And s2 rhs cond_r) ->
      KoreConverter._convert_axiom kore_axiom self =
      match KoreConverter._convert_pattern (kore.Rewrites sort lhs rhs) self with
      | (Ok converted, self') =>
          (Ok (mkConvertedAxiom RewriteRule converted),
           KoreConverter.set_axioms_cache
             (fun cache =>
                KoreConverter.cache_set cache kore_axiom
                  (mkConvertedAxiom RewriteRule converted))
             self')
      | (Raise e, self') => (Raise e, self')
      end)
  /\ (forall sort l r,
        kore.pattern kore_axiom = kore.Rewrites sort l r ->
        is_And l && is_And r = false ->
        KoreConverter._convert_axiom kore_axiom self
          = (Raise AssertionError, self))
  /\ (is_Rewrites (kore.pattern kore_axiom) = false ->
      KoreConverter._convert_axiom kore_axiom self =
      match KoreConverter._convert_pattern (kore.pattern kore_axiom) self with
      | (Ok converted, self') =>
          (Ok (mkConvertedAxiom Unclassified converted),
           KoreConverter.set_axioms_cache
             (fun cache =>
                KoreConverter.cache_set cache kore_axiom
                  (mkConvertedAxiom Unclassified converted))
             self')
      | (Raise e, self') => (Raise e, self')
      end).
Proof.
  intros Hmiss. rewrite (convert_axiom_miss _ _ Hmiss).
  split; [ | split].
  - intros sort s1 lhs cond_l s2 rhs cond_r ->. reflexivity.
  - intros sort l r -> Hside. simpl.
    destruct l; try reflexivity; destruct r; try reflexivity.
    discriminate Hside.
  - intros Hother.
    destruct (kore.pattern kore_axiom); try reflexivity; discriminate Hother.
Qed.

Lemma convert_axiom_classification_witness :
  fst (KoreConverter._convert_axiom Example.rule_axiom Example.converter)
    = Ok (mkConvertedAxiom RewriteRule
            (kl.KoreRewrites (Symbol "kore_sort_SortK") (MetaVar 0)
               (kl.KoreDv (Symbol "kore_sort_SortK") (Symbol "kore_1")))) /\
  fst (KoreConverter._convert_axiom Example.plain_axiom Example.converter)
    = Ok (mkConvertedAxiom Unclassified
            (kl.KoreTop (Symbol "kore_sort_SortK"))).
Proof.
  split.
  - rewrite (proj1 (convert_axiom_classification Example.rule_axiom
                      Example.converter eq_refl)
               Example.SortK Example.SortK (kore.EVar "X" Example.SortK)
               (kore.Top Example.SortK) Example.SortK
               (kore.DV Example.SortK "1") (kore.Top Example.SortK) eq_refl).
    vm_compute. reflexivity.
  - rewrite (proj2 (proj2 (convert_axiom_classification Example.plain_axiom
                             Example.converter eq_refl)) eq_refl).
    vm_compute. reflexivity.
Defined.

(** The specification does not hold as stated of a rewrite whose sides are
    not conjunctions: it is of "any other shape", and yet not converted as
    an [Unclassified] axiom. *)
Lemma convert_axiom_bare_rewrite_refused :
  kore.pattern Example.bare_rewrite_axiom
    = kore.Rewrites Example.SortK (kore.Top Example.SortK)
        (kore.Top Example.SortK) /\
  is_And (kore.Top Example.SortK) = false /\
  KoreConverter._convert_axiom Example.bare_rewrite_axiom Example.converter
    = (Raise AssertionError, Example.converter) /\
  forall converted,
    fst (KoreConverter._convert_axiom Example.bare_rewrite_axiom
           Example.converter)
      <> Ok (mkConvertedAxiom Unclassified converted).
Proof.
  assert (Hrun :
            KoreConverter._convert_axiom Example.bare_rewrite_axiom
              Example.converter = (Raise AssertionError, Example.converter))
    by reflexivity.
  repeat split; try reflexivity.
  intros converted. rewrite Hrun. discriminate.
Qed.

Lemma convert_axiom_idempotent_witness :
  exists converted,
    fst (KoreConverter._convert_axiom Example.rule_axiom Example.converter)
      = Ok converted /\
    KoreConverter.cache_get (KoreConverter._axioms_cache Example.converter)
      Example.rule_axiom = None /\
    KoreConverter.cache_get
      (KoreConverter._axioms_cache
         (snd (KoreConverter._convert_axiom Example.rule_axiom
                 Example.converter)))
      Example.rule_axiom = Some converted /\
    KoreConverter._convert_axiom Example.rule_axiom
      (snd (KoreConverter._convert_axiom Example.rule_axiom Example.converter))
    = (Ok converted,
       snd (KoreConverter._convert_axiom Example.rule_axiom Example.converter)).
Proof.
  eexists. split; [vm_compute; reflexivity | ]. split; [reflexivity | ].
  pose proof (convert_axiom_idempotent Example.rule_axiom Example.converter
                _ _ (surjective_pairing _)) as (Hcached & Hagain & _).
  split; [exact Hcached | exact Hagain].
Defined.

(** ** Converter: cells *)





Lemma cell_head_ok (symbol cell_name : string) (self : KoreConverter.t) :
  fst (cell_head symbol cell_name self) =
  Ok (match KoreConverter._symbols self !! cell_name with
      | Some cell_symbol => cell_symbol
      | None => Symbol ("kore_" ++ cell_name)
      end).
Proof.
  unfold cell_head, bind, ret, modify, KoreConverter._resolve_symbol.
  destruct (KoreConverter._symbols self !! cell_name); simpl;
    repeat case_bool_decide; reflexivity.
Qed.

(** C6 (amended).  Let the head symbol of an application be a known cell
    symbol, in a converter whose known cell symbols follow the naming
    convention of cells, and [head] the symbol node of its cell name.
    Without children the application converts to [head].  With children,
    these are converted in order (a child that is a cell as a cell); the
    result is a marker applied to [head] and to the chain of the converted
    children, in which [head] does not take part.  The marker is the
    nested-cells marker when some converted child carries the plain cell
    marker, which needs at least two children (the conversion raises
    otherwise), and the plain cell marker when none does. *)
Theorem convert_cell_shape (symbol : string) (sorts : list kore.Sort)
    (args : list kore.Pattern) (self : KoreConverter.t) :
  cell_symbols_named self ->
  symbol ∈ KoreConverter._cell_symbols self ->
  exists cell_name,
    KoreConverter.match_cell_name symbol = Some cell_name /\
    let pattern := kore.App symbol sorts args in
    let head :=
      match KoreConverter._symbols self !! cell_name with
      | Some cell_symbol => cell_symbol
      | None => Symbol ("kore_" ++ cell_name)
      end in
    let self1 := snd (cell_head symbol cell_name self) in
    match args with
    | [] => KoreConverter._convert_pattern pattern self = (Ok head, self1)
    | _ :: _ =>
        match convert_children args self1 with
        | (Ok children, self2) =>
            exists first others,
              children = first :: others /\
              KoreConverter._convert_pattern pattern self =
              if existsb kl.is_Cell children then
                match others with
                | [] => (Raise AssertionError, self2)
                | _ :: _ =>
                    (Ok (kl.KoreNestedCells head (chain first others)), self2)
                end
              else (Ok (kl.Cell head (chain first others)), self2)
        | (Raise e, self2) =>
            KoreConverter._convert_pattern pattern self = (Raise e, self2)
        end
    end.
Proof.
  intros Hnamed Hcell.
  destruct (Hnamed symbol Hcell) as [cell_name Hname].
  exists cell_name. split; [exact Hname | ]. cbv zeta.
  rewrite (convert_pattern_known_cell _ _ _ _ Hcell).
  rewrite convert_cell_unfold, Hname.
  pose proof (cell_head_ok symbol cell_name self) as Hhead.
  destruct args as [ | arg args]; unfold bind;
    destruct (cell_head symbol cell_name self) as [outcome self1];
    cbn [fst snd] in *; subst outcome; [reflexivity | ].
  destruct (convert_children (arg :: args) self1)
    as [[children | e] self2] eqn:Hchildren; [ | reflexivity].
  apply convert_children_length in Hchildren.
  destruct children as [ | first others]; [discriminate Hchildren | ].
  exists first, others. split; [reflexivity | ].
  unfold lift. rewrite chain_patterns_chain.
  destruct (existsb kl.is_Cell (first :: others)) eqn:Hany; [ | reflexivity].
  destruct others as [ | second others].
  - simpl in Hany. rewrite orb_false_r in Hany.
    destruct first as [ | | | | | | | | label cell_args]; try discriminate Hany.
    reflexivity.
  - rewrite is_App_chain by discriminate. reflexivity.
Qed.

Lemma convert_cell_shape_witness :
  fst (KoreConverter._convert_pattern
         (Example.top_of [Example.X; Example.Y]) Example.converter)
  = Ok (kl.Cell (Symbol "kore_generatedTop") (App (MetaVar 0) (MetaVar 1))).
Proof.
  destruct (convert_cell_shape KoreConverter.GENERATED_TOP_SYMBOL []
              [Example.X; Example.Y] Example.converter
              (init_cell_symbols_named Example.definition))
    as (cell_name & Hname & Hshape).
  - vm_compute. reflexivity.
  - vm_compute in Hname. injection Hname as <-.
    cbv zeta in Hshape.
    destruct (convert_children [Example.X; Example.Y]
                (snd (cell_head KoreConverter.GENERATED_TOP_SYMBOL
                        "generatedTop" Example.converter)))
      as [[children | e] self2] eqn:Hchildren;
      vm_compute in Hchildren; [ | discriminate Hchildren].
    injection Hchildren as <- <-.
    destruct Hshape as (first & others & [= <- <-] & Hrun).
    unfold Example.top_of. rewrite Hrun. reflexivity.
Defined.

(** The specification does not hold as stated, in three ways.  With two
    children the result is the marker over the head and the chain of the
    children: the chain that starts with the head is not an argument of it.
    A child that is a cell without children does not bring the nested-cells
    marker.  An only child that is a cell with a child makes the conversion
    raise. *)
Lemma convert_cell_differs :
  (fst (KoreConverter._convert_pattern
          (Example.top_of [Example.X; Example.Y]) Example.converter)
   = Ok (PNotation "cell"
           [Symbol "kore_generatedTop"; App (MetaVar 0) (MetaVar 1)]) /\
   chain (Symbol "kore_generatedTop") [MetaVar 0; MetaVar 1]
     ∉ [Symbol "kore_generatedTop"; App (MetaVar 0) (MetaVar 1)])
  /\ (KoreConverter.is_cell (kore.App Example.k_cell [] []) = Some "k" /\
      fst (KoreConverter._convert_pattern
             (Example.top_of [kore.App Example.k_cell [] []])
             Example.converter)
      = Ok (kl.Cell (Symbol "kore_generatedTop") (Symbol "kore_k")))
  /\ (KoreConverter.is_cell (kore.App Example.k_cell [] [Example.X])
        = Some "k" /\
      fst (KoreConverter._convert_pattern
             (Example.top_of [kore.App Example.k_cell [] [Example.X]])
             Example.converter)
      = Raise AssertionError).
Proof.
  split; [split | split; split]; try (vm_compute; reflexivity).
  intros Hin. apply (bool_decide_eq_true_2 _) in Hin.
  vm_compute in Hin. discriminate Hin.
Qed.

(** ** Engine: the empty trace *)

(** C9.  Without hints, [from_proof_hints] does not raise: it returns a
    proof expression without claims and without proofs, whose serialization
    succeeds and writes nothing. *)
Theorem from_proof_hints_empty (language_semantics : LanguageSemantics) :
  exists built,
    ExecutionProofExp.from_proof_hints [] language_semantics = Ok built /\
    ExecutionProofExp.built_claims built = [] /\
    ExecutionProofExp.built_proofs built = [] /\
    forall Pattern_serialize Proof_serialize,
      Propositional.serialize Pattern_serialize Proof_serialize
        (Propositional.mkProofExp [] [] (notations language_semantics)
           (ExecutionProofExp.built_claims built) [])
      = Ok ([], []).
Proof.
  eexists. split; [reflexivity | ].
  repeat split.
Qed.

(** ** Engine: rewrite steps *)

Lemma add_axiom_elem (axiom : Pattern) (self : ProofExp.t) :
  axiom ∈ ProofExp._axioms (ProofExp.add_axiom axiom self).
Proof.
  unfold ProofExp.add_axiom. simpl. case_bool_decide; [assumption | ].
  apply elem_of_app. right. left.
Qed.

Lemma add_axiom_claims (axiom : Pattern) (self : ProofExp.t) :
  ProofExp._claims (ProofExp.add_axiom axiom self) = ProofExp._claims self /\
  ProofExp._proof_expressions (ProofExp.add_axiom axiom self)
    = ProofExp._proof_expressions self.
Proof. split; reflexivity. Qed.

Lemma add_assumptions_claims (assumptions : list Pattern) :
  forall self,
    ProofExp._claims (ProofExp.add_assumptions assumptions self)
      = ProofExp._claims self /\
    ProofExp._proof_expressions (ProofExp.add_assumptions assumptions self)
      = ProofExp._proof_expressions self.
Proof.
  unfold ProofExp.add_assumptions.
  induction assumptions as [ | a assumptions IH ]; intros self; simpl.
  - split; reflexivity.
  - destruct (IH (ProofExp.add_axiom a self)) as [Hc Hp].
    rewrite Hc, Hp. split; reflexivity.
Qed.

(** C1 (amended).  Let [R[s]] be the pattern of the rule instantiated with
    the substitution.  If [R[s]] is a rewrite relation whose left side is
    the current configuration, the head of every substituted pattern is
    registered as functional and no simplification is pending or in
    progress, then [rewrite_event] succeeds, the current configuration
    becomes the right side of [R[s]], and exactly one claim, [R[s]], and one
    proof, the returned one, which proves [R[s]], are appended.  If [R[s]]
    is a rewrite relation whose left side is not the current configuration,
    or is not a rewrite relation, [rewrite_event] raises and the engine is
    unchanged. *)
Theorem rewrite_event_guard (rule : KRewritingRule) (substitution : Subst)
    (self : ExecutionProofExp.t) :
  let instantiated_axiom := instantiate substitution (rule_pattern rule) in
  (forall sort lhs rhs,
      kl.kore_rewrites_assert_matches instantiated_axiom
        = Ok (sort, lhs, rhs) ->
      lhs = ExecutionProofExp.current_configuration self ->
      (forall p,
          p ∈ subst_values substitution ->
          semantics_registered (ExecutionProofExp.language_semantics self)
            (head_symbol p)) ->
      SimplificationVisitor._simplification_stack
        (ExecutionProofExp._simplification_visitor self) = [] ->
      SimplificationVisitor._in_simplification
        (ExecutionProofExp._simplification_visitor self) = false ->
      exists proof self',
        ExecutionProofExp.rewrite_event rule substitution self
          = (Ok proof, self') /\
        ExecutionProofExp.current_configuration self' = rhs /\
        SimplificationVisitor.simplified_configuration
          (ExecutionProofExp._simplification_visitor self') = rhs /\
        ProofExp._claims (ExecutionProofExp.base self')
          = ProofExp._claims (ExecutionProofExp.base self)
              ++ [instantiated_axiom] /\
        ProofExp._proof_expressions (ExecutionProofExp.base self')
          = ProofExp._proof_expressions (ExecutionProofExp.base self)
              ++ [proof] /\
        conc proof = instantiated_axiom)
  /\ (forall sort lhs rhs,
        kl.kore_rewrites_assert_matches instantiated_axiom
          = Ok (sort, lhs, rhs) ->
        lhs <> ExecutionProofExp.current_configuration self ->
        ExecutionProofExp.rewrite_event rule substitution self
          = (Raise AssertionError, self))
  /\ (forall e,
        kl.kore_rewrites_assert_matches instantiated_axiom = Raise e ->
        ExecutionProofExp.rewrite_event rule substitution self
          = (Raise e, self)).
Proof.
  cbv zeta. split; [ | split].
  - intros sort lhs rhs Hmatch Hlhs Hregistered Hstack Hidle.
    unfold ExecutionProofExp.rewrite_event, bind, lift, get, modify, ret.
    rewrite Hmatch. cbn [fst snd].
    rewrite Hlhs, pattern_eqb_refl.
    unfold ExecutionProofExp.add_assumptions_for_rewrite_step.
    rewrite (collect_functional_axioms_registered _ _ Hregistered).
    cbn [ExecutionProofExp.base ExecutionProofExp.set_base].
    unfold ProofExp.load_axiom.
    rewrite bool_decide_eq_true_2.
    2:{ unfold ProofExp.add_claim. simpl. apply add_axiom_elem. }
    unfold SimplificationVisitor.update_configuration.
    cbn [ExecutionProofExp._simplification_visitor
         ExecutionProofExp.set_base ExecutionProofExp.set_curr_config].
    rewrite Hstack, Hidle.
    eexists. eexists. split; [reflexivity | ].
    cbn.
    destruct (add_axiom_claims (rule_pattern rule)
                (ProofExp.add_assumptions
                   (map pattern
                      (map functional_axiom (subst_values substitution)))
                   (ExecutionProofExp.base self))) as [Hc Hp].
    destruct (add_assumptions_claims
                (map pattern
                   (map functional_axiom (subst_values substitution)))
                (ExecutionProofExp.base self)) as [Hc' Hp'].
    repeat split; try reflexivity.
    + rewrite <- Hc'. reflexivity.
    + rewrite <- Hp'. reflexivity.
  - intros sort lhs rhs Hmatch Hlhs.
    unfold ExecutionProofExp.rewrite_event, bind, lift, get, raise.
    rewrite Hmatch. cbn [fst snd].
    apply pattern_eqb_neq in Hlhs. rewrite Hlhs. reflexivity.
  - intros e Hmatch.
    unfold ExecutionProofExp.rewrite_event, bind, lift.
    rewrite Hmatch. reflexivity.
Qed.

Lemma rewrite_event_guard_witness :
  exists proof self',
    ExecutionProofExp.rewrite_event Example.rule [(0, Example.f_of_a)]
      Example.engine_f = (Ok proof, self') /\
    ExecutionProofExp.current_configuration self' = Symbol "kore_b" /\
    ProofExp._claims (ExecutionProofExp.base self')
      = [kl.KoreRewrites (Symbol "kore_sort_SortK") Example.f_of_a
           (Symbol "kore_b")] /\
    ProofExp._proof_expressions (ExecutionProofExp.base self') = [proof].
Proof.
  destruct (proj1 (rewrite_event_guard Example.rule [(0, Example.f_of_a)]
                     Example.engine_f)
              (Symbol "kore_sort_SortK") Example.f_of_a (Symbol "kore_b")
              eq_refl eq_refl)
    as (proof & self' & Hrun & Hcurrent & _ & Hclaims & Hproofs & _).
  - intros p Hp. apply list_elem_of_singleton in Hp. subst p.
    split; [reflexivity | ].
    exists (mkKSymbol "kore_f" true). split; reflexivity.
  - reflexivity.
  - reflexivity.
  - exists proof, self'. repeat split; assumption.
Defined.

(** The specification does not hold as stated when the head of a
    substituted pattern is not a functional symbol: the left side of the
    instantiated rule is the current configuration, and [rewrite_event]
    raises.  Nor does it while a simplification is in progress: the step is
    recorded, and the update of the visitor raises. *)
Lemma rewrite_event_refuses_unregistered_head :
  (kl.kore_rewrites_assert_matches
     (instantiate [(0, Example.g_of_a)] (rule_pattern Example.rule))
     = Ok (Symbol "kore_sort_SortK", Example.g_of_a, Symbol "kore_b") /\
   Example.g_of_a = ExecutionProofExp.current_configuration Example.engine_g /\
   ExecutionProofExp.rewrite_event Example.rule [(0, Example.g_of_a)]
     Example.engine_g = (Raise AssertionError, Example.engine_g))
  /\ (kl.kore_rewrites_assert_matches
        (instantiate [(0, Example.f_of_a)] (rule_pattern Example.rule))
        = Ok (Symbol "kore_sort_SortK", Example.f_of_a, Symbol "kore_b") /\
      Example.f_of_a
        = ExecutionProofExp.current_configuration Example.engine_f_busy /\
      fst (ExecutionProofExp.rewrite_event Example.rule [(0, Example.f_of_a)]
             Example.engine_f_busy) = Raise AssertionError).
Proof. repeat split. Qed.

(** ** Visitor: the end of a batch *)

Lemma exit_loop_curr_config (cls : SimplificationVisitor.Methods)
    (below : list SimplificationInfo) :
  forall top self,
    SimplificationVisitor._curr_config
      (snd (SimplificationVisitor.exit_loop cls top below self))
    = SimplificationVisitor._curr_config self.
Proof.
  induction below as [ | last_info below IH ]; intros top self; simpl.
  - destruct (simplifications_left top =? 0)%Z; [ | reflexivity].
    destruct (SimplificationVisitor.update_subterm cls _ _ _); reflexivity.
  - destruct (simplifications_left top =? 0)%Z; [ | reflexivity].
    destruct (SimplificationVisitor.update_subterm cls _ _ _);
      [apply IH | reflexivity].
Qed.

Lemma exit_curr_config (cls : SimplificationVisitor.Methods)
    (self : SimplificationVisitor.t) :
  SimplificationVisitor._curr_config
    (snd (SimplificationVisitor.__exit__ cls self))
  = SimplificationVisitor._curr_config self.
Proof.
  unfold SimplificationVisitor.__exit__.
  destruct (SimplificationVisitor._simplification_stack self)
    as [ | top below]; [reflexivity | ].
  apply exit_loop_curr_config.
Qed.

(** C2, on the code.  Whatever [update_subterm] does, [__exit__] leaves the
    configuration of the visitor as it was.  At the end of a batch of one
    frame without simplifications left, the stack is drained and the spliced
    configuration, when [update_subterm] computes one, is stored in the
    attribute [curr_config], which [simplified_configuration] does not read;
    with the [update_subterm] of the sources, [__exit__] raises
    [NotImplementedError]. *)
Theorem exit_leaves_configuration (cls : SimplificationVisitor.Methods)
    (self : SimplificationVisitor.t) :
  SimplificationVisitor.simplified_configuration
    (snd (SimplificationVisitor.__exit__ cls self))
  = SimplificationVisitor.simplified_configuration self
  /\ (forall language_semantics config location initial result_,
        let frame := mkSimplificationInfo location initial result_ 0 in
        let batch :=
          SimplificationVisitor.mk language_semantics config [frame] true
            None in
        SimplificationVisitor._simplification_stack
          (snd (SimplificationVisitor.__exit__ cls batch)) = [] /\
        SimplificationVisitor.curr_config
          (snd (SimplificationVisitor.__exit__ cls batch))
        = match SimplificationVisitor.update_subterm cls location config
                  result_ with
          | Ok spliced => Some spliced
          | Raise _ => None
          end /\
        SimplificationVisitor.__exit__ SimplificationVisitor.base_methods batch
        = (Raise NotImplementedError,
           SimplificationVisitor.set_stack [] batch)).
Proof.
  split.
  - apply exit_curr_config.
  - intros language_semantics config location initial result_. cbv zeta.
    unfold SimplificationVisitor.__exit__. simpl.
    destruct (SimplificationVisitor.update_subterm cls location config result_);
      repeat split.
Qed.

(** A batch of one exhausted frame, with an [update_subterm] that replaces
    the whole configuration: the visitor still reports the configuration it
    started from. *)
Lemma exit_single_frame_not_spliced :
  let cls :=
    SimplificationVisitor.mkMethods (fun _ pattern => Ok pattern)
      (fun _ _ plug => Ok plug) in
  let batch := Example.visitor (Symbol "kore_a") (Symbol "kore_b") in
  fst (SimplificationVisitor.__exit__ cls batch) = Ok tt /\
  SimplificationVisitor._simplification_stack
    (snd (SimplificationVisitor.__exit__ cls batch)) = [] /\
  SimplificationVisitor.simplified_configuration
    (snd (SimplificationVisitor.__exit__ cls batch)) = Symbol "kore_a" /\
  SimplificationVisitor.curr_config
    (snd (SimplificationVisitor.__exit__ cls batch)) = Some (Symbol "kore_b").
Proof. repeat split. Qed.

(** What the code does as the specification says: a frame with
    simplifications left stays on the stack, and an exhausted frame above
    another one is spliced into the result of that one, at its own location,
    the count of which goes down by one. *)
Lemma exit_keeps_unexhausted_frame (cls : SimplificationVisitor.Methods)
    (self : SimplificationVisitor.t) (top : SimplificationInfo)
    (below : list SimplificationInfo) :
  SimplificationVisitor._simplification_stack self = top :: below ->
  simplifications_left top <> 0%Z ->
  SimplificationVisitor.__exit__ cls self = (Ok tt, self).
Proof.
  intros Hstack Hleft. unfold SimplificationVisitor.__exit__.
  rewrite Hstack. apply Z.eqb_neq in Hleft.
  destruct below; simpl; rewrite Hleft; rewrite <- Hstack;
    destruct self; reflexivity.
Qed.

Lemma exit_splices_nested_frame (cls : SimplificationVisitor.Methods)
    (self : SimplificationVisitor.t) (top last_info : SimplificationInfo)
    (below : list SimplificationInfo) (updated : Pattern) :
  SimplificationVisitor._simplification_stack self
    = top :: last_info :: below ->
  simplifications_left top = 0%Z ->
  SimplificationVisitor.update_subterm cls (location top)
    (simplification_result last_info) (simplification_result top)
    = Ok updated ->
  simplifications_left last_info <> 1%Z ->
  SimplificationVisitor.__exit__ cls self =
  (Ok tt,
   SimplificationVisitor.set_stack
     (mkSimplificationInfo (location last_info) (initial_pattern last_info)
        updated (simplifications_left last_info - 1) :: below)
     self).
Proof.
  intros Hstack Hzero Hupdate Hleft. unfold SimplificationVisitor.__exit__.
  rewrite Hstack. simpl. rewrite Hzero, Hupdate. simpl.
  assert (Hne : (simplifications_left last_info - 1 =? 0)%Z = false)
    by (apply Z.eqb_neq; lia).
  destruct below; simpl; rewrite Hne; reflexivity.
Qed.

Lemma call_curr_config (cls : SimplificationVisitor.Methods)
    (apply_esubst : Pattern -> nat -> Pattern -> Pattern) (ordinal : nat)
    (substitution : Subst) (location : Location)
    (self : SimplificationVisitor.t) :
  SimplificationVisitor._curr_config
    (snd (SimplificationVisitor.__call__ cls apply_esubst ordinal substitution
            location self))
  = SimplificationVisitor._curr_config self.
Proof.
  unfold SimplificationVisitor.__call__, bind, lift, modify, ret, raise.
  destruct (SimplificationVisitor._in_simplification self); [ | reflexivity].
  destruct (match SimplificationVisitor._simplification_stack self with
            | [] => _
            | top :: _ => _
            end) as [sub_pattern | e]; [ | reflexivity].
  destruct (get_axiom (SimplificationVisitor._language_semantics self) ordinal)
    as [[rule | rule] | e]; reflexivity.
Qed.

(** A simplification event never changes the configuration the visitor
    reports, whatever the two static methods do, so the engine is left in
    the configuration it had. *)
Lemma simplification_event_keeps_configuration
    (cls : SimplificationVisitor.Methods)
    (apply_esubst : Pattern -> nat -> Pattern -> Pattern) (ordinal : nat)
    (substitution : Subst) (location : Location)
    (self : ExecutionProofExp.t) :
  SimplificationVisitor.simplified_configuration
    (ExecutionProofExp._simplification_visitor
       (snd (ExecutionProofExp.simplification_event cls apply_esubst ordinal
               substitution location self)))
  = SimplificationVisitor.simplified_configuration
      (ExecutionProofExp._simplification_visitor self).
Proof.
  unfold ExecutionProofExp.simplification_event,
    SimplificationVisitor.with_visitor, SimplificationVisitor.__enter__.
  set (visitor := ExecutionProofExp._simplification_visitor self).
  destruct (SimplificationVisitor._in_simplification visitor);
    [reflexivity | ].
  pose proof (call_curr_config cls apply_esubst ordinal substitution location
                (SimplificationVisitor.set_in_simplification true visitor))
    as Hcall.
  destruct (SimplificationVisitor.__call__ cls apply_esubst ordinal
              substitution location
              (SimplificationVisitor.set_in_simplification true visitor))
    as [outcome called].
  pose proof (exit_curr_config cls called) as Hexit.
  unfold SimplificationVisitor.simplified_configuration in *.
  destruct (SimplificationVisitor.__exit__ cls called) as [[u | e] exited];
    simpl in *; [destruct outcome | ]; simpl; congruence.
Qed.

(** With the class of the sources, a simplification event raises
    [NotImplementedError] as soon as it looks for the sub-pattern, and leaves
    the visitor marked as in simplification. *)
Lemma simplification_event_not_implemented
    (apply_esubst : Pattern -> nat -> Pattern -> Pattern) (ordinal : nat)
    (substitution : Subst) (location : Location)
    (self : ExecutionProofExp.t) :
  SimplificationVisitor._in_simplification
    (ExecutionProofExp._simplification_visitor self) = false ->
  SimplificationVisitor._simplification_stack
    (ExecutionProofExp._simplification_visitor self) = [] ->
  ExecutionProofExp.simplification_event SimplificationVisitor.base_methods
    apply_esubst ordinal substitution location self
  = (Raise NotImplementedError,
     ExecutionProofExp.set_visitor
       (SimplificationVisitor.set_in_simplification true
          (ExecutionProofExp._simplification_visitor self))
       self).
Proof.
  intros Hidle Hstack.
  unfold ExecutionProofExp.simplification_event,
    SimplificationVisitor.with_visitor, SimplificationVisitor.__enter__,
    SimplificationVisitor.__call__, SimplificationVisitor.__exit__,
    bind, lift.
  rewrite Hidle. simpl. rewrite Hstack. simpl. rewrite Hstack. reflexivity.
Qed.

(* ===================================================================== *)
(** * Part III: further properties of the code                            *)
(* ===================================================================== *)

(** ** Converter: chains and the names of cells *)

(** X1.  [chain_patterns] is a left fold of applications: it raises
    [ValueError] on the empty list, returns the only pattern of a list of one,
    and for a longer list applies the chain of all the patterns but the last
    to the last one. *)
Theorem chain_patterns_left_fold (patterns : list Pattern) :
  match patterns with
  | [] => KoreConverter.chain_patterns patterns = Raise ValueError
  | first :: others =>
      KoreConverter.chain_patterns patterns = Ok (fold_left App others first)
  end
  /\ (forall prefix last_one,
        prefix <> [] ->
        KoreConverter.chain_patterns (prefix ++ [last_one]) =
        rbind (KoreConverter.chain_patterns prefix)
          (fun chained => Ok (App chained last_one))).
Proof.
  split.
  - destruct patterns as [ | first others]; [reflexivity | ].
    apply chain_patterns_chain.
  - intros prefix last_one Hne.
    destruct prefix as [ | first others]; [congruence | ].
    rewrite <- app_comm_cons, !chain_patterns_chain. unfold chain.
    rewrite fold_left_app. reflexivity.
Qed.













(** ** Converter: invariants of a conversion *)

Section Kept.

Variable I : KoreConverter.t -> Prop.

Hypothesis kept_resolve_symbol :
  forall r, preserves I (KoreConverter._resolve_symbol r).
Hypothesis kept_resolve_metavar :
  forall name, preserves I (KoreConverter._resolve_metavar name).
Hypothesis kept_cell_head :
  forall symbol cell_name,
    KoreConverter.match_cell_name symbol = Some cell_name ->
    preserves I (cell_head symbol cell_name).

Lemma kept_bind {A B : Type} (m : M KoreConverter.t A)
    (k : A -> M KoreConverter.t B) :
  preserves I m -> (forall a, preserves I (k a)) -> preserves I (bind m k).
Proof.
  intros Hm Hk self HI. unfold bind.
  specialize (Hm self HI). destruct (m self) as [[a | e] self1]; simpl in Hm.
  - apply Hk. exact Hm.
  - exact Hm.
Qed.

Lemma kept_pure {A : Type} (m : M KoreConverter.t A) :
  (forall self, snd (m self) = self) -> preserves I m.
Proof. intros Hm self HI. rewrite Hm. exact HI. Qed.

Lemma kept_resolve_sorts (sorts : list kore.Sort) :
  preserves I (resolve_sorts sorts).
Proof.
  induction sorts as [ | sort sorts IH ]; cbn [resolve_sorts].
  - apply kept_pure. reflexivity.
  - apply kept_bind; [apply kept_resolve_symbol | intros resolved].
    apply kept_bind; [exact IH | intros others]. apply kept_pure. reflexivity.
Qed.

Lemma kept_application_sorts (sorts_patterns : list Pattern) :
  preserves I (application_sorts sorts_patterns).
Proof.
  destruct sorts_patterns; simpl; apply kept_pure; reflexivity.
Qed.

Lemma kept_convert_children (args : list kore.Pattern) :
  Forall (fun p => forall as_cell, preserves I (KoreConverter.convert as_cell p))
    args ->
  preserves I (convert_children args).
Proof.
  induction 1 as [ | arg args Harg _ IH ]; cbn [convert_children].
  - apply kept_pure. reflexivity.
  - apply kept_bind; [apply Harg | intros converted].
    apply kept_bind; [exact IH | intros others]. apply kept_pure. reflexivity.
Qed.

Lemma kept_convert_args (args : list kore.Pattern) :
  Forall (fun p => forall as_cell, preserves I (KoreConverter.convert as_cell p))
    args ->
  preserves I (convert_args args).
Proof.
  induction 1 as [ | arg args Harg _ IH ]; cbn [convert_args].
  - apply kept_pure. reflexivity.
  - apply kept_bind; [apply Harg | intros converted].
    apply kept_bind; [exact IH | intros others]. apply kept_pure. reflexivity.
Qed.

Ltac kept_steps :=
  repeat first
    [ apply kept_resolve_symbol
    | apply kept_resolve_metavar
    | apply kept_resolve_sorts
    | match goal with
      | IH : forall as_cell, preserves _ (KoreConverter.convert as_cell ?p)
        |- preserves _ (KoreConverter.convert _ ?p) => apply IH
      end
    | apply kept_bind; [ | intros ? ]
    | (apply kept_pure; reflexivity) ].

Lemma kept_convert (p : kore.Pattern) :
  forall as_cell, preserves I (KoreConverter.convert as_cell p).
Proof.
  induction p as [ sort l r IHl IHr | sort l r IHl IHr | sort l r IHl IHr
                 | symbol sorts args IHargs | name sort | sort | sort value
                 | sort q IHq | sort l r IHl IHr | op_sort sort l r IHl IHr
                 | sort | value ] using kore_Pattern_nested_ind;
    intros as_cell;
    try (destruct as_cell; simpl; kept_steps; fail).
  intros self HI.
  destruct (as_cell
            || bool_decide (symbol ∈ KoreConverter._cell_symbols self))
    eqn:Hcell.
  - rewrite (convert_as_cell _ _ _ _ _ Hcell), convert_cell_unfold.
    destruct (KoreConverter.match_cell_name symbol) as [cell_name | ]
      eqn:Hname; [ | exact HI].
    clear Hcell. revert self HI. apply kept_bind.
    + apply kept_cell_head. exact Hname.
    + intros cell_symbol. destruct args as [ | arg args].
      * apply kept_pure. reflexivity.
      * apply kept_bind;
          [apply kept_convert_children; assumption | intros children].
        apply kept_bind; [apply kept_pure; reflexivity | intros cells_chained].
        destruct (existsb kl.is_Cell children);
          [destruct (is_App cells_chained) | ]; apply kept_pure; reflexivity.
  - rewrite (convert_generic _ _ _ _ _ Hcell).
    clear Hcell. revert self HI.
    apply kept_bind; [apply kept_resolve_symbol | intros app_symbol].
    apply kept_bind;
      [apply kept_convert_args; assumption | intros args_patterns].
    apply kept_bind; [apply kept_resolve_sorts | intros sorts_patterns].
    apply kept_bind; [apply kept_pure; reflexivity | intros args_chain].
    apply kept_bind;
      [apply kept_application_sorts | intros sorts_of_application].
    destruct (is_App args_chain || is_Symbol args_chain);
      apply kept_pure; reflexivity.
Qed.

Hypothesis kept_cache :
  forall kore_axiom converted self,
    I self ->
    KoreConverter.cache_get (KoreConverter._axioms_cache self) kore_axiom
      = None ->
    I (KoreConverter.set_axioms_cache
         (fun cache => KoreConverter.cache_set cache kore_axiom converted)
         self).

Lemma kept_convert_axiom (kore_axiom : kore.KAxiom) :
  preserves I (KoreConverter._convert_axiom kore_axiom).
Proof.
  intros self HI.
  destruct (KoreConverter.cache_get (KoreConverter._axioms_cache self)
              kore_axiom) as [cached | ] eqn:Hget.
  - rewrite (convert_axiom_hit _ _ _ Hget). exact HI.
  - rewrite (convert_axiom_miss _ _ Hget).
    destruct (classify (kore.pattern kore_axiom)) as [[ty prep] | e];
      [ | exact HI].
    pose proof (kept_convert prep false self HI) as Hkept.
    pose proof (convert_axioms_cache prep false self) as Hcache.
    fold (KoreConverter._convert_pattern prep self) in Hkept, Hcache.
    destruct (KoreConverter._convert_pattern prep self) as [[c | e] s'];
      [ | exact Hkept].
    cbv zeta. simpl in *. apply kept_cache; [exact Hkept | ].
    rewrite Hcache. exact Hget.
Qed.

End Kept.

(** The state after [cell_head]. *)
Lemma cell_head_state (symbol cell_name : string) (self : KoreConverter.t) :
  snd (cell_head symbol cell_name self) =
  let resolved :=
    KoreConverter._resolve_symbol (KoreConverter.of_str cell_name) self in
  let self1 :=
    KoreConverter.set_cell_symbols (union {[ symbol ]}) (snd resolved) in
  if bool_decide (symbol ∈ KoreConverter._raw_functional_symbols self1)
  then KoreConverter.set_functional_symbols
         (KoreConverter.set_add
            (match KoreConverter._symbols self !! cell_name with
             | Some cell_symbol => cell_symbol
             | None => Symbol ("kore_" ++ cell_name)
             end))
         self1
  else self1.
Proof.
  unfold cell_head, bind, ret, modify, KoreConverter._resolve_symbol.
  destruct (KoreConverter._symbols self !! cell_name); simpl;
    repeat case_bool_decide; reflexivity.
Qed.

(** *** Cached symbols carry the prefix of their kind *)

Lemma symbols_prefixed_same (self self' : KoreConverter.t) :
  KoreConverter._symbols self' = KoreConverter._symbols self ->
  symbols_prefixed self -> symbols_prefixed self'.
Proof. intros Heq H name symbol. rewrite Heq. apply H. Qed.

Lemma resolve_symbol_prefixed (r : KoreConverter.Resolvable) :
  preserves symbols_prefixed (KoreConverter._resolve_symbol r).
Proof.
  intros self H. unfold KoreConverter._resolve_symbol.
  destruct r as [name | sort | pattern]; [ | | exact H].
  - destruct (KoreConverter._symbols self !! name) eqn:Hget; [exact H | ].
    cbn [snd].
    apply (symbols_prefixed_same
             (KoreConverter.set_symbols
                (insert name (Symbol ("kore_" ++ name))) self)).
    { case_bool_decide; reflexivity. }
    intros other symbol. simpl. rewrite lookup_insert.
    case_decide as Hother.
    + subst other. intros [= <-]. left. reflexivity.
    + apply H.
  - destruct (KoreConverter._symbols self !! kore.sort_name sort) eqn:Hget;
      [exact H | ].
    intros other symbol. simpl. rewrite lookup_insert.
    case_decide as Hother.
    + subst other. intros [= <-]. right. reflexivity.
    + apply H.
Qed.

Lemma resolve_metavar_symbols (name : string) (self : KoreConverter.t) :
  KoreConverter._symbols (snd (KoreConverter._resolve_metavar name self))
    = KoreConverter._symbols self.
Proof.
  unfold KoreConverter._resolve_metavar.
  destruct (KoreConverter._metavars self !! name); reflexivity.
Qed.

Lemma cell_head_prefixed (symbol cell_name : string) :
  preserves symbols_prefixed (cell_head symbol cell_name).
Proof.
  intros self H. rewrite cell_head_state. cbv zeta.
  apply (symbols_prefixed_same
           (snd (KoreConverter._resolve_symbol
                   (KoreConverter.of_str cell_name) self))).
  - case_bool_decide; reflexivity.
  - apply resolve_symbol_prefixed. exact H.
Qed.

Lemma init_symbols_prefixed (kore_definition : kore.KDefinition) :
  symbols_prefixed (KoreConverter.__init__ kore_definition).
Proof. intros name symbol. simpl. rewrite lookup_empty. discriminate. Qed.

(** *** Metavariables are numbered without gaps or repetition *)

Lemma metavars_numbered_same (self self' : KoreConverter.t) :
  KoreConverter._metavars self' = KoreConverter._metavars self ->
  metavars_numbered self -> metavars_numbered self'.
Proof. unfold metavars_numbered. intros ->. auto. Qed.

Lemma resolve_metavar_numbered (name : string) :
  preserves metavars_numbered (KoreConverter._resolve_metavar name).
Proof.
  intros self [Hrange Hinj]. unfold KoreConverter._resolve_metavar.
  destruct (KoreConverter._metavars self !! name) eqn:Hget;
    [split; assumption | ].
  cbn [snd]. split; simpl.
  - intros other metavar. rewrite lookup_insert.
    rewrite (map_size_insert_None _ _ _ Hget).
    case_decide as Hother.
    + intros [= <-]. eexists. split; [reflexivity | lia].
    + intros Hold. destruct (Hrange _ _ Hold) as (n & -> & Hn).
      exists n. split; [reflexivity | lia].
  - intros name1 name2 metavar. rewrite !lookup_insert.
    repeat case_decide; subst; try congruence.
    + intros [= <-] Hold. destruct (Hrange _ _ Hold) as (n & [= ->] & Hn). lia.
    + intros Hold [= <-]. destruct (Hrange _ _ Hold) as (n & [= ->] & Hn). lia.
    + apply Hinj.
Qed.

Lemma resolve_symbol_metavars (r : KoreConverter.Resolvable)
    (self : KoreConverter.t) :
  KoreConverter._metavars (snd (KoreConverter._resolve_symbol r self))
    = KoreConverter._metavars self.
Proof.
  unfold KoreConverter._resolve_symbol.
  destruct r as [name | sort | pattern]; [ | | reflexivity].
  - destruct (KoreConverter._symbols self !! name); [reflexivity | ].
    cbn [snd]. case_bool_decide; reflexivity.
  - destruct (KoreConverter._symbols self !! kore.sort_name sort); reflexivity.
Qed.

Lemma cell_head_metavars (symbol cell_name : string) (self : KoreConverter.t) :
  KoreConverter._metavars (snd (cell_head symbol cell_name self))
    = KoreConverter._metavars self.
Proof.
  rewrite cell_head_state. cbv zeta.
  rewrite <- (resolve_symbol_metavars (KoreConverter.of_str cell_name) self).
  case_bool_decide; reflexivity.
Qed.

Lemma init_metavars_numbered (kore_definition : kore.KDefinition) :
  metavars_numbered (KoreConverter.__init__ kore_definition).
Proof.
  split; simpl.
  - intros name metavar. rewrite lookup_empty. discriminate.
  - intros name1 name2 metavar. rewrite lookup_empty. discriminate.
Qed.

(** *** Nothing is forgotten *)

Lemma extends_refl (self : KoreConverter.t) : extends self self.
Proof. unfold extends. repeat split; auto. Qed.

Lemma extends_trans (a b c : KoreConverter.t) :
  extends a b -> extends b c -> extends a c.
Proof.
  unfold extends.
  intros (H1 & H2 & H3 & H4 & H5 & H6 & H7 & H8 & H9 & H10)
         (K1 & K2 & K3 & K4 & K5 & K6 & K7 & K8 & K9 & K10).
  repeat split; try congruence; try (etrans; eassumption).
  intros kore_axiom converted Hget. apply K10, H10, Hget.
Qed.

Lemma set_add_subseteq (x : Pattern) (s : list Pattern) :
  s ⊆ KoreConverter.set_add x s.
Proof.
  unfold KoreConverter.set_add. intros y Hy.
  case_bool_decide; [exact Hy | ]. apply elem_of_app. left. exact Hy.
Qed.

Ltac solve_extends :=
  unfold extends; simpl; repeat split;
  first [ reflexivity
        | apply insert_subseteq; assumption
        | apply set_add_subseteq
        | apply union_subseteq_r
        | (intros ? ? ?; assumption) ].

Lemma resolve_symbol_extends (r : KoreConverter.Resolvable)
    (self : KoreConverter.t) :
  extends self (snd (KoreConverter._resolve_symbol r self)).
Proof.
  unfold KoreConverter._resolve_symbol.
  destruct r as [name | sort | pattern]; [ | | apply extends_refl].
  - destruct (KoreConverter._symbols self !! name) eqn:Hget;
      [apply extends_refl | ].
    cbn [snd]. case_bool_decide; solve_extends.
  - destruct (KoreConverter._symbols self !! kore.sort_name sort) eqn:Hget;
      [apply extends_refl | ].
    solve_extends.
Qed.

Lemma resolve_metavar_extends (name : string) (self : KoreConverter.t) :
  extends self (snd (KoreConverter._resolve_metavar name self)).
Proof.
  unfold KoreConverter._resolve_metavar.
  destruct (KoreConverter._metavars self !! name) eqn:Hget;
    [apply extends_refl | ].
  solve_extends.
Qed.

Lemma cell_head_extends (symbol cell_name : string) (self : KoreConverter.t) :
  extends self (snd (cell_head symbol cell_name self)).
Proof.
  rewrite cell_head_state. cbv zeta.
  apply (extends_trans _
           (snd (KoreConverter._resolve_symbol
                   (KoreConverter.of_str cell_name) self)));
    [apply resolve_symbol_extends | ].
  case_bool_decide; solve_extends.
Qed.

Lemma cache_get_set_other (cache : list (kore.KAxiom * ConvertedAxiom))
    (key other : kore.KAxiom) (value : ConvertedAxiom) :
  other <> key ->
  KoreConverter.cache_get (KoreConverter.cache_set cache key value) other
    = KoreConverter.cache_get cache other.
Proof.
  intros Hne. induction cache as [ | [k v] cache IH ]; simpl.
  - rewrite bool_decide_eq_false_2 by congruence. reflexivity.
  - case_bool_decide as Hk; simpl.
    + subst k. rewrite !bool_decide_eq_false_2 by congruence. reflexivity.
    + case_bool_decide; [reflexivity | exact IH].
Qed.

Lemma convert_extends (p : kore.Pattern) (as_cell : bool)
    (self : KoreConverter.t) :
  extends self (snd (KoreConverter.convert as_cell p self)).
Proof.
  apply (kept_convert (extends self)).
  - intros r s Hs. eapply extends_trans; [exact Hs | ].
    apply resolve_symbol_extends.
  - intros name s Hs. eapply extends_trans; [exact Hs | ].
    apply resolve_metavar_extends.
  - intros symbol cell_name _ s Hs. eapply extends_trans; [exact Hs | ].
    apply cell_head_extends.
  - apply extends_refl.
Qed.

Lemma convert_axiom_extends (kore_axiom : kore.KAxiom)
    (self : KoreConverter.t) :
  extends self (snd (KoreConverter._convert_axiom kore_axiom self)).
Proof.
  apply (kept_convert_axiom (extends self)).
  - intros r s Hs. eapply extends_trans; [exact Hs | ].
    apply resolve_symbol_extends.
  - intros name s Hs. eapply extends_trans; [exact Hs | ].
    apply resolve_metavar_extends.
  - intros symbol cell_name _ s Hs. eapply extends_trans; [exact Hs | ].
    apply cell_head_extends.
  - intros key converted s Hs Hmiss. eapply extends_trans; [exact Hs | ].
    unfold extends; simpl; repeat split; try reflexivity.
    intros other cached Hget.
    rewrite cache_get_set_other; [exact Hget | ].
    intros ->. congruence.
  - apply extends_refl.
Qed.

Lemma retrieve_axiom_extends (ordinal : Z) (self : KoreConverter.t) :
  extends self (snd (KoreConverter.retrieve_axiom_for_ordinal ordinal self)).
Proof.
  unfold KoreConverter.retrieve_axiom_for_ordinal.
  destruct (ordinal <? _)%Z; [ | apply extends_refl].
  destruct (_ <? 0)%Z; [apply extends_refl | ].
  destruct (_ !! _); [apply convert_axiom_extends | apply extends_refl].
Qed.

(** X3.  Whatever the converter is asked to convert, it forgets nothing: the
    definition, the ordinal index of its axioms and the declared functional
    symbols stay as they are, and every cached symbol, metavariable, cell
    symbol, functional symbol and converted axiom is still there, with the
    same value. *)
Theorem conversion_forgets_nothing (self : KoreConverter.t) :
  (forall as_cell pattern,
      extends self (snd (KoreConverter.convert as_cell pattern self)))
  /\ (forall kore_axiom,
        extends self (snd (KoreConverter._convert_axiom kore_axiom self)))
  /\ (forall ordinal,
        extends self
          (snd (KoreConverter.retrieve_axiom_for_ordinal ordinal self))).
Proof.
  split; [ | split].
  - intros as_cell pattern. apply convert_extends.
  - intros kore_axiom. apply convert_axiom_extends.
  - intros ordinal. apply retrieve_axiom_extends.
Qed.

(** *** Symbols *)

Lemma convert_symbols_prefixed (p : kore.Pattern) (as_cell : bool) :
  preserves symbols_prefixed (KoreConverter.convert as_cell p).
Proof.
  apply kept_convert.
  - apply resolve_symbol_prefixed.
  - intros name self H.
    apply (symbols_prefixed_same self); [apply resolve_metavar_symbols | exact H].
  - intros symbol cell_name _. apply cell_head_prefixed.
Qed.

Lemma convert_axiom_symbols_prefixed (kore_axiom : kore.KAxiom) :
  preserves symbols_prefixed (KoreConverter._convert_axiom kore_axiom).
Proof.
  apply kept_convert_axiom.
  - apply resolve_symbol_prefixed.
  - intros name self H.
    apply (symbols_prefixed_same self); [apply resolve_metavar_symbols | exact H].
  - intros symbol cell_name _. apply cell_head_prefixed.
  - intros key converted self H _. exact H.
Qed.

(** What [_resolve_symbol] returns and caches. *)
Lemma resolve_symbol_result (r : KoreConverter.Resolvable)
    (self self' : KoreConverter.t) (symbol : Pattern) :
  KoreConverter._resolve_symbol r self = (Ok symbol, self') ->
  exists name,
    resolvable_name r = Some name /\
    KoreConverter._symbols self' !! name = Some symbol.
Proof.
  unfold KoreConverter._resolve_symbol.
  destruct r as [name | sort | pattern]; [ | | intros H; discriminate H].
  - destruct (KoreConverter._symbols self !! name) eqn:Hget.
    + intros [= <- <-]. exists name. split; [reflexivity | exact Hget].
    + intros [= <- <-]. exists name. split; [reflexivity | ].
      case_bool_decide; simpl; apply lookup_insert_eq.
  - destruct (KoreConverter._symbols self !! kore.sort_name sort) eqn:Hget.
    + intros [= <- <-]. eexists. split; [reflexivity | exact Hget].
    + intros [= <- <-]. eexists. split; [reflexivity | ].
      simpl. apply lookup_insert_eq.
Qed.

Lemma resolve_symbol_hit (r : KoreConverter.Resolvable)
    (self : KoreConverter.t) (name : string) (symbol : Pattern) :
  resolvable_name r = Some name ->
  KoreConverter._symbols self !! name = Some symbol ->
  KoreConverter._resolve_symbol r self = (Ok symbol, self).
Proof.
  unfold KoreConverter._resolve_symbol.
  destruct r as [n | sort | pattern]; simpl.
  - intros [= ->] ->. reflexivity.
  - intros [= ->] ->. reflexivity.
  - intros H; discriminate H.
Qed.

(** X4.  Every symbol of the converter carries a prefix. The symbols cached by
    a new converter, none, do; conversions keep it so for all the cached
    symbols; and a symbol resolved for a name is [kore_] or [kore_sort_]
    followed by that name. *)
Theorem symbols_carry_prefix :
  (forall kore_definition,
      symbols_prefixed (KoreConverter.__init__ kore_definition))
  /\ (forall self,
        symbols_prefixed self ->
        (forall as_cell pattern,
            symbols_prefixed
              (snd (KoreConverter.convert as_cell pattern self)))
        /\ (forall kore_axiom,
              symbols_prefixed
                (snd (KoreConverter._convert_axiom kore_axiom self)))
        /\ (forall r symbol self',
              KoreConverter._resolve_symbol r self = (Ok symbol, self') ->
              exists name,
                resolvable_name r = Some name /\
                (symbol = Symbol ("kore_" ++ name)
                 \/ symbol = Symbol ("kore_sort_" ++ name)))).
Proof.
  split; [apply init_symbols_prefixed | ].
  intros self H. split; [ | split].
  - intros as_cell pattern. apply convert_symbols_prefixed. exact H.
  - intros kore_axiom. apply convert_axiom_symbols_prefixed. exact H.
  - intros r symbol self' Hrun.
    pose proof (resolve_symbol_prefixed r self H) as H'.
    rewrite Hrun in H'. simpl in H'.
    destruct (resolve_symbol_result _ _ _ _ Hrun) as (name & Hname & Hget).
    exists name. split; [exact Hname | ]. apply H'. exact Hget.
Qed.

Lemma symbols_carry_prefix_witness :
  symbols_prefixed
    (snd (KoreConverter._convert_axiom Example.rule_axiom Example.converter)).
Proof.
  apply (proj1 (proj2 (proj2 symbols_carry_prefix Example.converter
                         (proj1 symbols_carry_prefix Example.definition)))).
Defined.

(** X5.  A name is resolved once: after a symbol was resolved for a string or
    for a sort, resolving the same name again, as a string or as a sort,
    returns that very symbol and leaves the converter as it is. *)
Theorem resolve_symbol_once (r r' : KoreConverter.Resolvable)
    (self self' : KoreConverter.t) (symbol : Pattern) :
  KoreConverter._resolve_symbol r self = (Ok symbol, self') ->
  resolvable_name r' = resolvable_name r ->
  KoreConverter._resolve_symbol r' self' = (Ok symbol, self').
Proof.
  intros Hrun Hsame.
  destruct (resolve_symbol_result _ _ _ _ Hrun) as (name & Hname & Hget).
  apply (resolve_symbol_hit r' self' name); congruence.
Qed.

Lemma resolve_symbol_once_witness :
  let first :=
    KoreConverter._resolve_symbol (KoreConverter.of_sort Example.SortK)
      Example.converter in
  KoreConverter._resolve_symbol (KoreConverter.of_str "SortK") (snd first)
    = (Ok (Symbol "kore_sort_SortK"), snd first).
Proof.
  cbv zeta.
  apply (resolve_symbol_once (KoreConverter.of_sort Example.SortK)
           (KoreConverter.of_str "SortK") Example.converter).
  - reflexivity.
  - reflexivity.
Defined.

(** *** Metavariables *)

Lemma convert_metavars_numbered (p : kore.Pattern) (as_cell : bool) :
  preserves metavars_numbered (KoreConverter.convert as_cell p).
Proof.
  apply kept_convert.
  - intros r self H.
    apply (metavars_numbered_same self); [apply resolve_symbol_metavars | exact H].
  - apply resolve_metavar_numbered.
  - intros symbol cell_name _ self H.
    apply (metavars_numbered_same self); [apply cell_head_metavars | exact H].
Qed.

Lemma convert_axiom_metavars_numbered (kore_axiom : kore.KAxiom) :
  preserves metavars_numbered (KoreConverter._convert_axiom kore_axiom).
Proof.
  apply kept_convert_axiom.
  - intros r self H.
    apply (metavars_numbered_same self); [apply resolve_symbol_metavars | exact H].
  - apply resolve_metavar_numbered.
  - intros symbol cell_name _ self H.
    apply (metavars_numbered_same self); [apply cell_head_metavars | exact H].
  - intros key converted self H _. exact H.
Qed.

Lemma resolve_metavar_result (name : string) (self self' : KoreConverter.t)
    (metavar : Pattern) :
  KoreConverter._resolve_metavar name self = (Ok metavar, self') ->
  KoreConverter._metavars self' !! name = Some metavar.
Proof.
  unfold KoreConverter._resolve_metavar.
  destruct (KoreConverter._metavars self !! name) eqn:Hget.
  - intros [= <- <-]. exact Hget.
  - intros [= <- <-]. simpl. apply lookup_insert_eq.
Qed.

(** X6.  The metavariables of a converter are numbered from 0 without gaps,
    one number per variable name: so it is in a new converter, and conversions
    keep it so; hence two variables resolved one after the other get the same
    metavariable exactly when they have the same name. *)
Theorem metavars_stay_numbered :
  (forall kore_definition,
      metavars_numbered (KoreConverter.__init__ kore_definition))
  /\ (forall self,
        metavars_numbered self ->
        (forall as_cell pattern,
            metavars_numbered
              (snd (KoreConverter.convert as_cell pattern self)))
        /\ (forall kore_axiom,
              metavars_numbered
                (snd (KoreConverter._convert_axiom kore_axiom self)))
        /\ (forall name1 name2 metavar1 metavar2 self1 self2,
              KoreConverter._resolve_metavar name1 self
                = (Ok metavar1, self1) ->
              KoreConverter._resolve_metavar name2 self1
                = (Ok metavar2, self2) ->
              (metavar1 = metavar2 <-> name1 = name2))).
Proof.
  split; [apply init_metavars_numbered | ].
  intros self H. split; [ | split].
  - intros as_cell pattern. apply convert_metavars_numbered. exact H.
  - intros kore_axiom. apply convert_axiom_metavars_numbered. exact H.
  - intros name1 name2 metavar1 metavar2 self1 self2 Hrun1 Hrun2.
    pose proof (resolve_metavar_numbered name1 self H) as H1.
    rewrite Hrun1 in H1. cbn [snd] in H1.
    pose proof (resolve_metavar_numbered name2 self1 H1) as H2.
    rewrite Hrun2 in H2. cbn [snd] in H2.
    pose proof (resolve_metavar_result _ _ _ _ Hrun1) as Hget1.
    pose proof (resolve_metavar_result _ _ _ _ Hrun2) as Hget2.
    pose proof (resolve_metavar_extends name2 self1) as Hext.
    rewrite Hrun2 in Hext. cbn [snd] in Hext.
    destruct Hext as (_ & _ & _ & _ & _ & _ & Hsub & _).
    pose proof (lookup_weaken _ _ _ _ Hget1 Hsub) as Hget1'.
    split.
    + intros <-. exact (proj2 H2 _ _ _ Hget1' Hget2).
    + intros <-. congruence.
Qed.

Lemma metavars_stay_numbered_witness :
  metavars_numbered
    (snd (KoreConverter._convert_axiom Example.rule_axiom Example.converter)).
Proof.
  apply (proj1 (proj2 (proj2 metavars_stay_numbered Example.converter
                         (proj1 metavars_stay_numbered Example.definition)))).
Defined.

(** ** Converter: which patterns are converted *)

Lemma raises_bind_l {S A B : Type} (m : M S A) (k : A -> M S B) :
  raises m -> raises (bind m k).
Proof.
  intros Hm s. unfold bind. destruct (Hm s) as [e He].
  destruct (m s) as [[a | e'] s']; simpl in He; [discriminate He | ].
  exists e'. reflexivity.
Qed.

Lemma raises_bind_r {S A B : Type} (m : M S A) (k : A -> M S B) :
  (forall a, raises (k a)) -> raises (bind m k).
Proof.
  intros Hk s. unfold bind.
  destruct (m s) as [[a | e'] s']; [apply Hk | exists e'; reflexivity].
Qed.

Lemma raises_convert_children (args : list kore.Pattern) :
  List.Exists (fun p => forall as_cell, raises (KoreConverter.convert as_cell p))
    args ->
  raises (convert_children args).
Proof.
  induction 1 as [arg args Harg | arg args _ IH]; cbn [convert_children].
  - apply raises_bind_l, Harg.
  - apply raises_bind_r. intros converted. apply raises_bind_l, IH.
Qed.

Lemma raises_convert_args (args : list kore.Pattern) :
  List.Exists (fun p => forall as_cell, raises (KoreConverter.convert as_cell p))
    args ->
  raises (convert_args args).
Proof.
  induction 1 as [arg args Harg | arg args _ IH]; cbn [convert_args].
  - apply raises_bind_l, Harg.
  - apply raises_bind_r. intros converted. apply raises_bind_l, IH.
Qed.

Lemma raises_raise {S A : Type} (e : Exn) : raises (raise e : M S A).
Proof. intros s. exists e. reflexivity. Qed.

Ltac raises_binary IHl IHr Hun :=
  simpl in Hun; apply andb_false_iff in Hun as [Hun | Hun];
  [ apply raises_bind_r; intros ?; apply raises_bind_l; apply IHl; exact Hun
  | apply raises_bind_r; intros ?; apply raises_bind_r; intros ?;
    apply raises_bind_l; apply IHr; exact Hun ].

(** X7.  A pattern with a construct that [_convert_pattern] has no case for,
    at any depth, is never converted: the conversion raises, in every state of
    the converter, as a cell or not. *)
Theorem unsupported_raises (p : kore.Pattern) :
  supported p = false ->
  forall as_cell self,
    exists e, fst (KoreConverter.convert as_cell p self) = Raise e.
Proof.
  change (supported p = false ->
          forall as_cell, raises (KoreConverter.convert as_cell p)).
  induction p as [ sort l r IHl IHr | sort l r IHl IHr | sort l r IHl IHr
                 | symbol sorts args IHargs | name sort | sort | sort value
                 | sort q IHq | sort l r IHl IHr | op_sort sort l r IHl IHr
                 | sort | value ] using kore_Pattern_nested_ind;
    intros Hun as_cell;
    try (destruct as_cell; [apply raises_raise | ]);
    try discriminate Hun;
    try apply raises_raise.
  - raises_binary IHl IHr Hun.
  - raises_binary IHl IHr Hun.
  - raises_binary IHl IHr Hun.
  - assert (Hargs :
              List.Exists (fun p => forall as_cell,
                          raises (KoreConverter.convert as_cell p)) args).
    { simpl in Hun. clear -Hun IHargs.
      induction IHargs as [ | arg args Harg _ IH ]; simpl in Hun;
        [discriminate Hun | ].
      apply andb_false_iff in Hun as [Hun | Hun].
      - left. apply Harg. exact Hun.
      - right. apply IH. exact Hun. }
    intros self.
    destruct (as_cell
              || bool_decide (symbol ∈ KoreConverter._cell_symbols self))
      eqn:Hcell.
    + rewrite (convert_as_cell _ _ _ _ _ Hcell), convert_cell_unfold.
      destruct (KoreConverter.match_cell_name symbol) as [cell_name | ];
        [ | exists AssertionError; reflexivity].
      revert self Hcell. intros self _. revert self.
      apply raises_bind_r. intros cell_symbol.
      destruct args as [ | arg args]; [inversion Hargs | ].
      apply raises_bind_l, raises_convert_children, Hargs.
    + rewrite (convert_generic _ _ _ _ _ Hcell).
      revert self Hcell. intros self _. revert self.
      apply raises_bind_r. intros app_symbol.
      apply raises_bind_l, raises_convert_args, Hargs.
Qed.

Lemma unsupported_raises_witness :
  exists e,
    fst (KoreConverter.convert false
           (kore.And Example.SortK Example.X
              (kore.Not Example.SortK Example.Y))
           Example.converter) = Raise e.
Proof.
  apply (unsupported_raises
           (kore.And Example.SortK Example.X
              (kore.Not Example.SortK Example.Y)) eq_refl).
Defined.

Lemma returns_ret {S A : Type} (J : S -> Prop) (Q : A -> Prop) (a : A) :
  Q a -> returns J Q (ret a).
Proof. intros Ha s Hs. exists a, s. auto. Qed.

Lemma returns_bind {S A B : Type} (J : S -> Prop) (Q : A -> Prop)
    (R : B -> Prop) (m : M S A) (k : A -> M S B) :
  returns J Q m -> (forall a, Q a -> returns J R (k a)) ->
  returns J R (bind m k).
Proof.
  intros Hm Hk s Hs. unfold bind.
  destruct (Hm s Hs) as (a & s' & -> & Hs' & Ha).
  apply (Hk a Ha s' Hs').
Qed.

Lemma well_formed_resolve_symbol (r : KoreConverter.Resolvable) :
  preserves well_formed (KoreConverter._resolve_symbol r).
Proof.
  intros self [Hcells Hsymbols]. split.
  - apply (preserves_resolve_symbol cell_symbols_named); auto.
  - apply resolve_symbol_prefixed. exact Hsymbols.
Qed.

Lemma well_formed_convert (p : kore.Pattern) (as_cell : bool) :
  preserves well_formed (KoreConverter.convert as_cell p).
Proof.
  intros self [Hcells Hsymbols]. split.
  - apply convert_cell_symbols_named. exact Hcells.
  - apply convert_symbols_prefixed. exact Hsymbols.
Qed.

Lemma returns_resolve_symbol (r : KoreConverter.Resolvable) (name : string) :
  resolvable_name r = Some name ->
  returns well_formed (fun symbol => is_Symbol symbol = true)
    (KoreConverter._resolve_symbol r).
Proof.
  intros Hname self Hwf.
  pose proof (well_formed_resolve_symbol r self Hwf) as Hwf'.
  destruct (KoreConverter._resolve_symbol r self) as [outcome self'] eqn:Hrun.
  assert (Hok : exists symbol, outcome = Ok symbol).
  { revert Hrun. unfold KoreConverter._resolve_symbol.
    destruct r as [n | sort | pattern]; [ | | discriminate Hname].
    - destruct (KoreConverter._symbols self !! n); intros [= <- _]; eauto.
    - destruct (KoreConverter._symbols self !! kore.sort_name sort);
        intros [= <- _]; eauto. }
  destruct Hok as [symbol ->]. exists symbol, self'.
  split; [reflexivity | ]. split; [exact Hwf' | ].
  destruct (resolve_symbol_result _ _ _ _ Hrun) as (n & _ & Hget).
  destruct (proj2 Hwf' _ _ Hget) as [-> | ->]; reflexivity.
Qed.

Lemma returns_resolve_sorts (sorts : list kore.Sort) :
  returns well_formed (fun sorts_patterns => length sorts_patterns = length sorts)
    (resolve_sorts sorts).
Proof.
  induction sorts as [ | sort sorts IH ]; cbn [resolve_sorts].
  - apply returns_ret. reflexivity.
  - eapply returns_bind.
    { apply (returns_resolve_symbol (KoreConverter.of_sort sort) _ eq_refl). }
    intros resolved _. eapply returns_bind; [exact IH | ].
    intros others Hothers. apply returns_ret. simpl. congruence.
Qed.

Lemma settles_returns {S A : Type} (J : S -> Prop) (Q : A -> Prop)
    (m : M S A) :
  returns J Q m -> settles J Q true m.
Proof.
  intros Hm s Hs. destruct (Hm s Hs) as (a & s' & Hrun & Hs' & Ha).
  exists s'. split; [exact Hs' | ]. exists a. split; assumption.
Qed.

Lemma settles_bind {S A B : Type} (J : S -> Prop) (Q : A -> Prop)
    (R : B -> Prop) (ok1 ok2 : bool) (m : M S A) (k : A -> M S B) :
  settles J Q ok1 m -> (forall a, Q a -> settles J R ok2 (k a)) ->
  settles J R (ok1 && ok2) (bind m k).
Proof.
  intros Hm Hk s Hs. unfold bind.
  destruct (Hm s Hs) as (s1 & Hs1 & Hrun). destruct ok1; simpl.
  - destruct Hrun as (a & -> & Ha). exact (Hk a Ha s1 Hs1).
  - rewrite Hrun. exists s1. split; [exact Hs1 | reflexivity].
Qed.

Lemma settles_same {S A : Type} (J : S -> Prop) (Q : A -> Prop)
    (ok ok' : bool) (m : M S A) :
  ok = ok' -> settles J Q ok m -> settles J Q ok' m.
Proof. intros ->. auto. Qed.

Lemma settles_application_sorts (J : KoreConverter.t -> Prop)
    (sorts_patterns : list Pattern) :
  settles J (fun _ => True) (negb (bool_decide (sorts_patterns = [])))
    (application_sorts sorts_patterns).
Proof.
  intros s Hs. exists s. split; [exact Hs | ].
  destruct sorts_patterns as [ | sort others ]; simpl; [reflexivity | ].
  eexists. split; [reflexivity | exact Logic.I].
Qed.

Lemma settles_resolve_metavar (name : string) :
  settles well_formed (fun _ => True) true
    (KoreConverter._resolve_metavar name).
Proof.
  intros self [Hcells Hsymbols]. unfold KoreConverter._resolve_metavar.
  destruct (KoreConverter._metavars self !! name).
  - exists self. split; [split; assumption | ].
    eexists. split; [reflexivity | exact Logic.I].
  - eexists. split; [ | eexists; split; [reflexivity | exact Logic.I]].
    split; assumption.
Qed.

Lemma settles_convert_args (args : list kore.Pattern) :
  Forall (fun p => settles well_formed (fun _ => True) (with_sorts p)
                     (KoreConverter.convert false p)) args ->
  settles well_formed (fun _ => True) (forallb with_sorts args)
    (convert_args args).
Proof.
  induction 1 as [ | arg args Harg _ IH ]; cbn [convert_args forallb].
  - apply settles_returns, returns_ret. exact Logic.I.
  - eapply settles_bind; [exact Harg | ].
    intros converted _.
    apply (settles_same _ _ (forallb with_sorts args && true));
      [apply andb_true_r | ].
    eapply settles_bind; [exact IH | ].
    intros others _. apply settles_returns, returns_ret. exact Logic.I.
Qed.

Ltac settles_binary l r IHl IHr Hplain :=
  simpl in Hplain; apply andb_true_iff in Hplain as [Hl Hr];
  cbn [KoreConverter.convert with_sorts];
  apply (settles_same _ _
           (true && (with_sorts l && (with_sorts r && true))));
  [ rewrite andb_true_r; reflexivity | ];
  eapply settles_bind;
  [ apply settles_returns,
      (returns_resolve_symbol (KoreConverter.of_sort _) _ eq_refl) | ];
  intros ? _; eapply settles_bind; [apply IHl; exact Hl | ];
  intros ? _; eapply settles_bind; [apply IHr; exact Hr | ];
  intros ? _; apply settles_returns, returns_ret; exact Logic.I.

Lemma plain_settles (p : kore.Pattern) :
  plain p = true ->
  settles well_formed (fun _ => True) (with_sorts p)
    (KoreConverter.convert false p).
Proof.
  induction p as [ sort l r IHl IHr | sort l r IHl IHr | sort l r IHl IHr
                 | symbol sorts args IHargs | name sort | sort | sort value
                 | sort q IHq | sort l r IHl IHr | op_sort sort l r IHl IHr
                 | sort | value ] using kore_Pattern_nested_ind;
    intros Hplain; try discriminate Hplain.
  - settles_binary l r IHl IHr Hplain.
  - settles_binary l r IHl IHr Hplain.
  - settles_binary l r IHl IHr Hplain.
  - simpl in Hplain. apply andb_true_iff in Hplain as [Hname Hargs].
    apply negb_true_iff, bool_decide_eq_false in Hname.
    assert (Hall :
              Forall (fun p => settles well_formed (fun _ => True)
                                 (with_sorts p)
                                 (KoreConverter.convert false p)) args).
    { clear -Hargs IHargs.
      induction IHargs as [ | arg args Harg _ IH ]; simpl in Hargs;
        [constructor | ].
      apply andb_true_iff in Hargs as [Ha Hrest].
      constructor; [apply Harg; exact Ha | apply IH; exact Hrest]. }
    intros self Hwf.
    assert (Hgeneric :
              false || bool_decide
                         (symbol ∈ KoreConverter._cell_symbols self) = false).
    { simpl. apply bool_decide_eq_false. intros Hin.
      apply Hname. apply (proj1 Hwf). exact Hin. }
    rewrite (convert_generic _ _ _ _ _ Hgeneric).
    clear Hgeneric. revert self Hwf. cbn [with_sorts].
    apply (settles_same _ _
             (true && (forallb with_sorts args
                       && (true && (true
                                    && (negb (bool_decide (sorts = []))
                                        && true)))))).
    { simpl. rewrite andb_true_r. apply andb_comm. }
    eapply settles_bind.
    { apply settles_returns,
        (returns_resolve_symbol (KoreConverter.of_str symbol) _ eq_refl). }
    intros app_symbol Happ.
    eapply settles_bind; [exact (settles_convert_args _ Hall) | ].
    intros args_patterns _.
    eapply settles_bind; [apply settles_returns, returns_resolve_sorts | ].
    intros sorts_patterns Hlength.
    change ([app_symbol] ++ args_patterns) with (app_symbol :: args_patterns).
    rewrite chain_patterns_chain.
    eapply settles_bind.
    { apply settles_returns,
        (returns_ret _ (fun c => c = chain app_symbol args_patterns)).
      reflexivity. }
    intros args_chain ->.
    assert (Hsorts : bool_decide (sorts = [])
                     = bool_decide (sorts_patterns = [])).
    { destruct sorts, sorts_patterns; try discriminate Hlength; reflexivity. }
    rewrite Hsorts.
    eapply settles_bind; [apply settles_application_sorts | ].
    intros sorts_of_application _.
    assert (Hshape :
              is_App (chain app_symbol args_patterns)
              || is_Symbol (chain app_symbol args_patterns) = true).
    { destruct args_patterns as [ | a rest].
      - simpl. rewrite Happ. apply orb_true_r.
      - rewrite is_App_chain by discriminate. reflexivity. }
    rewrite Hshape. apply settles_returns, returns_ret. exact Logic.I.
  - simpl. apply settles_resolve_metavar.
  - cbn [KoreConverter.convert with_sorts].
    apply (settles_same _ _ (true && true)); [reflexivity | ].
    eapply settles_bind.
    { apply settles_returns,
        (returns_resolve_symbol (KoreConverter.of_sort sort) _ eq_refl). }
    intros ? _. apply settles_returns, returns_ret. exact Logic.I.
  - cbn [KoreConverter.convert with_sorts].
    apply (settles_same _ _ (true && (true && true))); [reflexivity | ].
    eapply settles_bind.
    { apply settles_returns,
        (returns_resolve_symbol (KoreConverter.of_sort sort) _ eq_refl). }
    intros ? _. eapply settles_bind.
    { apply settles_returns,
        (returns_resolve_symbol (KoreConverter.of_str value) _ eq_refl). }
    intros ? _. apply settles_returns, returns_ret. exact Logic.I.
Qed.

(** X8.  In a converter whose cell symbols are named as cells and whose
    symbols carry their prefix, as every converter reached from [__init__]
    is, the conversion of a pattern made of supported constructs, without an
    application named as a cell, is settled by the sorts of its
    applications.  If every application carries a sort, the pattern is
    converted.  If one carries none, the conversion raises
    [AttributeError]: for the sorts of such an application the code looks
    up [prop.Top], a name the module [prop] does not have.  The converter
    stays so in both cases. *)
Theorem plain_pattern_converts (p : kore.Pattern) (self : KoreConverter.t) :
  well_formed self ->
  plain p = true ->
  (with_sorts p = true ->
   exists converted self',
     KoreConverter._convert_pattern p self = (Ok converted, self') /\
     well_formed self')
  /\ (with_sorts p = false ->
      exists self',
        KoreConverter._convert_pattern p self
          = (Raise AttributeError, self') /\
        well_formed self').
Proof.
  intros Hwf Hplain.
  destruct (plain_settles p Hplain self Hwf) as (self' & Hwf' & Hrun).
  split; intros Hsorts; rewrite Hsorts in Hrun.
  - destruct Hrun as (converted & Hrun & _).
    exists converted, self'. split; assumption.
  - exists self'. split; assumption.
Qed.

Lemma init_well_formed (kore_definition : kore.KDefinition) :
  well_formed (KoreConverter.__init__ kore_definition).
Proof.
  split; [apply init_cell_symbols_named | apply init_symbols_prefixed].
Qed.

Lemma plain_pattern_converts_witness :
  (exists converted self',
      KoreConverter._convert_pattern
        (kore.App "f" [Example.SortK] [Example.X; kore.DV Example.SortK "1"])
        Example.converter = (Ok converted, self') /\
      well_formed self')
  /\ (exists self',
        KoreConverter._convert_pattern
          (kore.App "f" [] [Example.X; kore.DV Example.SortK "1"])
          Example.converter = (Raise AttributeError, self') /\
        well_formed self').
Proof.
  split.
  - apply (proj1 (plain_pattern_converts
                    (kore.App "f" [Example.SortK]
                       [Example.X; kore.DV Example.SortK "1"])
                    Example.converter
                    (init_well_formed Example.definition) eq_refl)).
    reflexivity.
  - apply (proj2 (plain_pattern_converts
                    (kore.App "f" [] [Example.X; kore.DV Example.SortK "1"])
                    Example.converter
                    (init_well_formed Example.definition) eq_refl)).
    reflexivity.
Defined.

(** ** Converter: repeated conversions *)

Lemma stable_ret {A : Type} (a : A) : stable (ret a).
Proof.
  split.
  - intros self. apply extends_refl.
  - intros self b self' [= <- <-] later _ _. reflexivity.
Qed.

Lemma stable_raise {A : Type} (e : Exn) :
  stable (raise e : M KoreConverter.t A).
Proof.
  split.
  - intros self. apply extends_refl.
  - intros self b self' H. discriminate H.
Qed.

Lemma stable_lift {A : Type} (r : result A) : stable (lift r).
Proof.
  split.
  - intros self. apply extends_refl.
  - intros self b self' [= -> <-] later _ _. reflexivity.
Qed.

Lemma stable_bind {A B : Type} (m : M KoreConverter.t A)
    (k : A -> M KoreConverter.t B) :
  stable m -> (forall a, stable (k a)) -> stable (bind m k).
Proof.
  intros [Hm1 Hm2] Hk. split.
  - intros self. unfold bind. specialize (Hm1 self).
    destruct (m self) as [[a | e] s1]; [ | exact Hm1].
    eapply extends_trans; [exact Hm1 | apply (proj1 (Hk a))].
  - intros self b self' Hrun later Hlater Hnamed. unfold bind in *.
    destruct (m self) as [[a | e] s1] eqn:Hmrun; [ | discriminate Hrun].
    assert (Hs1 : extends s1 later).
    { eapply extends_trans; [ | exact Hlater].
      pose proof (proj1 (Hk a) s1) as H. rewrite Hrun in H. exact H. }
    rewrite (Hm2 _ _ _ Hmrun later Hs1 Hnamed).
    apply (proj2 (Hk a) _ _ _ Hrun later Hlater Hnamed).
Qed.

Lemma stable_resolve_symbol (r : KoreConverter.Resolvable) :
  stable (KoreConverter._resolve_symbol r).
Proof.
  split.
  - intros self. apply resolve_symbol_extends.
  - intros self symbol self' Hrun later Hlater _.
    destruct (resolve_symbol_result _ _ _ _ Hrun) as (name & Hname & Hget).
    apply (resolve_symbol_hit r later name symbol Hname).
    destruct Hlater as (_ & _ & _ & _ & _ & Hsymbols & _).
    eapply lookup_weaken; eassumption.
Qed.

Lemma stable_resolve_metavar (name : string) :
  stable (KoreConverter._resolve_metavar name).
Proof.
  split.
  - intros self. apply resolve_metavar_extends.
  - intros self metavar self' Hrun later Hlater _.
    pose proof (resolve_metavar_result _ _ _ _ Hrun) as Hget.
    destruct Hlater as (_ & _ & _ & _ & _ & _ & Hmetavars & _).
    unfold KoreConverter._resolve_metavar.
    rewrite (lookup_weaken _ _ _ _ Hget Hmetavars). reflexivity.
Qed.

Lemma stable_resolve_sorts (sorts : list kore.Sort) :
  stable (resolve_sorts sorts).
Proof.
  induction sorts as [ | sort sorts IH ]; cbn [resolve_sorts].
  - apply stable_ret.
  - apply stable_bind; [apply stable_resolve_symbol | ].
    intros resolved. apply stable_bind; [exact IH | ].
    intros others. apply stable_ret.
Qed.

Lemma stable_application_sorts (sorts_patterns : list Pattern) :
  stable (application_sorts sorts_patterns).
Proof.
  destruct sorts_patterns; simpl; [ | apply stable_ret].
  apply stable_bind; [apply stable_lift | intros top; apply stable_ret].
Qed.

Lemma stable_convert_args (args : list kore.Pattern) :
  Forall (fun p => stable (KoreConverter.convert false p)) args ->
  stable (convert_args args).
Proof.
  induction 1 as [ | arg args Harg _ IH ]; cbn [convert_args].
  - apply stable_ret.
  - apply stable_bind; [exact Harg | ].
    intros converted. apply stable_bind; [exact IH | ].
    intros others. apply stable_ret.
Qed.

Ltac stable_binary IHl IHr Hplain :=
  simpl in Hplain; apply andb_true_iff in Hplain as [Hl Hr]; simpl;
  apply stable_bind; [apply stable_resolve_symbol | ];
  intros ?; apply stable_bind; [apply IHl; exact Hl | ];
  intros ?; apply stable_bind; [apply IHr; exact Hr | ];
  intros ?; apply stable_ret.

Lemma plain_stable (p : kore.Pattern) :
  plain p = true -> stable (KoreConverter.convert false p).
Proof.
  induction p as [ sort l r IHl IHr | sort l r IHl IHr | sort l r IHl IHr
                 | symbol sorts args IHargs | name sort | sort | sort value
                 | sort q IHq | sort l r IHl IHr | op_sort sort l r IHl IHr
                 | sort | value ] using kore_Pattern_nested_ind;
    intros Hplain; try discriminate Hplain.
  - stable_binary IHl IHr Hplain.
  - stable_binary IHl IHr Hplain.
  - stable_binary IHl IHr Hplain.
  - simpl in Hplain. apply andb_true_iff in Hplain as [Hname Hargs].
    apply negb_true_iff, bool_decide_eq_false in Hname.
    assert (Hall :
              Forall (fun p => stable (KoreConverter.convert false p)) args).
    { clear -Hargs IHargs.
      induction IHargs as [ | arg args Harg _ IH ]; simpl in Hargs;
        [constructor | ].
      apply andb_true_iff in Hargs as [Ha Hrest].
      constructor; [apply Harg; exact Ha | apply IH; exact Hrest]. }
    assert (Hbody :
              stable
                (run app_symbol <-
                   KoreConverter._resolve_symbol (KoreConverter.of_str symbol);
                 run args_patterns <- convert_args args;
                 run sorts_patterns <- resolve_sorts sorts;
                 run args_chain <-
                   lift (KoreConverter.chain_patterns
                           ([app_symbol] ++ args_patterns));
                 run sorts_of_application <-
                   application_sorts sorts_patterns;
                 ensure (is_App args_chain || is_Symbol args_chain);
                 ret (kl.KoreApplies sorts_of_application args_chain))).
    { apply stable_bind; [apply stable_resolve_symbol | ].
      intros app_symbol.
      apply stable_bind; [exact (stable_convert_args _ Hall) | ].
      intros args_patterns.
      apply stable_bind; [apply stable_resolve_sorts | ].
      intros sorts_patterns.
      apply stable_bind; [apply stable_lift | ].
      intros args_chain.
      apply stable_bind; [apply stable_application_sorts | ].
      intros sorts_of_application.
      destruct (is_App args_chain || is_Symbol args_chain);
        [apply stable_ret | apply stable_raise]. }
    split.
    + intros self. apply convert_extends.
    + intros self c self' Hrun later Hlater Hnamed.
      assert (Hnot : symbol ∉ KoreConverter._cell_symbols later).
      { intros Hin. apply Hname. apply Hnamed. exact Hin. }
      assert (Hnot' : symbol ∉ KoreConverter._cell_symbols self).
      { intros Hin. apply Hnot.
        pose proof (convert_extends (kore.App symbol sorts args) false self)
          as Hgrow.
        rewrite Hrun in Hgrow.
        destruct (extends_trans _ _ _ Hgrow Hlater)
          as (_ & _ & _ & _ & _ & _ & _ & Hcells & _).
        apply Hcells. exact Hin. }
      rewrite convert_generic in Hrun
        by (simpl; apply bool_decide_eq_false; exact Hnot').
      rewrite convert_generic
        by (simpl; apply bool_decide_eq_false; exact Hnot).
      exact (proj2 Hbody _ _ _ Hrun later Hlater Hnamed).
  - simpl. apply stable_resolve_metavar.
  - simpl. apply stable_bind; [apply stable_resolve_symbol | ].
    intros ?. apply stable_ret.
  - simpl. apply stable_bind; [apply stable_resolve_symbol | ].
    intros ?. apply stable_bind; [apply stable_resolve_symbol | ].
    intros ?. apply stable_ret.
Qed.

(** X9.  Once a pattern of supported constructs without a cell-like
    application has been converted, converting it again, at once or after any
    further conversions, returns the same pattern and leaves the converter as
    it is. *)
Theorem plain_conversion_repeats (p : kore.Pattern)
    (self self' : KoreConverter.t) (converted : Pattern) :
  plain p = true ->
  cell_symbols_named self ->
  KoreConverter._convert_pattern p self = (Ok converted, self') ->
  KoreConverter._convert_pattern p self' = (Ok converted, self')
  /\ (forall as_cell pattern,
        let later := snd (KoreConverter.convert as_cell pattern self') in
        KoreConverter._convert_pattern p later = (Ok converted, later))
  /\ (forall kore_axiom,
        let later := snd (KoreConverter._convert_axiom kore_axiom self') in
        KoreConverter._convert_pattern p later = (Ok converted, later)).
Proof.
  intros Hplain Hnamed Hrun.
  assert (Hnamed' : cell_symbols_named self').
  { pose proof (convert_cell_symbols_named p false self Hnamed) as H.
    unfold KoreConverter._convert_pattern in Hrun. rewrite Hrun in H.
    exact H. }
  pose proof (proj2 (plain_stable p Hplain) _ _ _ Hrun) as Hstable.
  split; [ | split].
  - apply Hstable; [apply extends_refl | exact Hnamed'].
  - intros as_cell pattern later. apply Hstable.
    + apply convert_extends.
    + apply convert_cell_symbols_named. exact Hnamed'.
  - intros kore_axiom later. apply Hstable.
    + apply convert_axiom_extends.
    + apply convert_axiom_cell_symbols_named. exact Hnamed'.
Qed.

Lemma plain_conversion_repeats_witness :
  let p := kore.App "f" [Example.SortK] [Example.X; kore.DV Example.SortK "1"] in
  let first := KoreConverter._convert_pattern p Example.converter in
  KoreConverter._convert_pattern p (snd first) = first.
Proof.
  cbv zeta.
  destruct (plain_conversion_repeats
              (kore.App "f" [Example.SortK]
                 [Example.X; kore.DV Example.SortK "1"])
              Example.converter
              (snd (KoreConverter._convert_pattern
                      (kore.App "f" [Example.SortK]
                         [Example.X; kore.DV Example.SortK "1"])
                      Example.converter))
              (kl.KoreApplies [Symbol "kore_sort_SortK"]
                 (App (App (Symbol "kore_f") (MetaVar 0))
                      (kl.KoreDv (Symbol "kore_sort_SortK") (Symbol "kore_1"))))
              eq_refl (init_cell_symbols_named Example.definition))
    as [Hagain _].
  - vm_compute. reflexivity.
  - rewrite Hagain. vm_compute. reflexivity.
Defined.

(** ** Converter: the variables of a converted pattern *)

Lemma registers_nothing {A : Type} (m : M KoreConverter.t A) :
  (forall self, extends self (snd (m self))) -> registers [] m.
Proof.
  intros Hm. split; [exact Hm | ].
  intros self a self' _ name Hin. inversion Hin.
Qed.

Lemma registers_pure {A : Type} (m : M KoreConverter.t A) :
  (forall self, snd (m self) = self) -> registers [] m.
Proof.
  intros Hm. apply registers_nothing. intros self. rewrite Hm.
  apply extends_refl.
Qed.

Lemma registers_raises {A : Type} (names : list string)
    (m : M KoreConverter.t A) :
  (forall self, exists e, m self = (Raise e, self)) -> registers names m.
Proof.
  intros Hm. split.
  - intros self. destruct (Hm self) as [e ->]. apply extends_refl.
  - intros self a self' Hrun. destruct (Hm self) as [e He].
    rewrite He in Hrun. discriminate Hrun.
Qed.

Lemma registers_bind {A B : Type} (names1 names2 : list string)
    (m : M KoreConverter.t A) (k : A -> M KoreConverter.t B) :
  registers names1 m -> (forall a, registers names2 (k a)) ->
  registers (names1 ++ names2) (bind m k).
Proof.
  intros [Hm1 Hm2] Hk. split.
  - intros self. unfold bind. specialize (Hm1 self).
    destruct (m self) as [[a | e] s1]; [ | exact Hm1].
    eapply extends_trans; [exact Hm1 | apply (proj1 (Hk a))].
  - intros self b self' Hrun name Hin. unfold bind in Hrun.
    destruct (m self) as [[a | e] s1] eqn:Hmrun; [ | discriminate Hrun].
    apply elem_of_app in Hin as [Hin | Hin].
    + destruct (Hm2 _ _ _ Hmrun name Hin) as [metavar Hget].
      pose proof (proj1 (Hk a) s1) as Hgrow. rewrite Hrun in Hgrow.
      destruct Hgrow as (_ & _ & _ & _ & _ & _ & Hmetavars & _).
      exists metavar. eapply lookup_weaken; eassumption.
    + exact (proj2 (Hk a) _ _ _ Hrun name Hin).
Qed.

Lemma registers_bind_l {A B : Type} (names : list string)
    (m : M KoreConverter.t A) (k : A -> M KoreConverter.t B) :
  registers [] m -> (forall a, registers names (k a)) ->
  registers names (bind m k).
Proof. intros Hm Hk. exact (registers_bind [] names m k Hm Hk). Qed.

Lemma registers_bind_r {A B : Type} (names : list string)
    (m : M KoreConverter.t A) (k : A -> M KoreConverter.t B) :
  registers names m -> (forall a, registers [] (k a)) ->
  registers names (bind m k).
Proof.
  intros Hm Hk. rewrite <- (app_nil_r names).
  exact (registers_bind names [] m k Hm Hk).
Qed.

Lemma registers_resolve_symbol (r : KoreConverter.Resolvable) :
  registers [] (KoreConverter._resolve_symbol r).
Proof. apply registers_nothing. intros self. apply resolve_symbol_extends. Qed.

Lemma registers_resolve_sorts (sorts : list kore.Sort) :
  registers [] (resolve_sorts sorts).
Proof.
  apply registers_nothing.
  induction sorts as [ | sort sorts IH ]; intros self; cbn [resolve_sorts].
  - apply extends_refl.
  - unfold bind.
    pose proof (resolve_symbol_extends (KoreConverter.of_sort sort) self) as H.
    destruct (KoreConverter._resolve_symbol _ self) as [[a | e] s1];
      [ | exact H].
    specialize (IH s1). simpl in H.
    destruct (resolve_sorts sorts s1) as [[others | e] s2]; simpl in *;
      eapply extends_trans; eassumption.
Qed.

Lemma registers_resolve_metavar (name : string) :
  registers [name] (KoreConverter._resolve_metavar name).
Proof.
  split.
  - intros self. apply resolve_metavar_extends.
  - intros self metavar self' Hrun n Hin.
    apply list_elem_of_singleton in Hin. subst n.
    exists metavar. exact (resolve_metavar_result _ _ _ _ Hrun).
Qed.

Lemma registers_convert_children (args : list kore.Pattern) :
  Forall (fun p => forall as_cell,
              registers (evar_names p) (KoreConverter.convert as_cell p))
    args ->
  registers (concat (map evar_names args)) (convert_children args).
Proof.
  induction 1 as [ | arg args Harg _ IH ]; cbn [convert_children map concat].
  - apply registers_pure. reflexivity.
  - apply registers_bind; [apply Harg | intros converted].
    apply registers_bind_r; [exact IH | intros others].
    apply registers_pure. reflexivity.
Qed.

Lemma registers_convert_args (args : list kore.Pattern) :
  Forall (fun p => forall as_cell,
              registers (evar_names p) (KoreConverter.convert as_cell p))
    args ->
  registers (concat (map evar_names args)) (convert_args args).
Proof.
  induction 1 as [ | arg args Harg _ IH ]; cbn [convert_args map concat].
  - apply registers_pure. reflexivity.
  - apply registers_bind; [apply Harg | intros converted].
    apply registers_bind_r; [exact IH | intros others].
    apply registers_pure. reflexivity.
Qed.

Ltac registers_binary IHl IHr :=
  apply registers_bind_l; [apply registers_resolve_symbol | intros ?];
  apply registers_bind; [apply IHl | intros ?];
  apply registers_bind_r; [apply IHr | intros ?];
  apply registers_pure; reflexivity.

Ltac registers_unsupported :=
  apply registers_raises; intros ?; eexists; reflexivity.

Lemma registers_convert (p : kore.Pattern) :
  forall as_cell, registers (evar_names p) (KoreConverter.convert as_cell p).
Proof.
  induction p as [ sort l r IHl IHr | sort l r IHl IHr | sort l r IHl IHr
                 | symbol sorts args IHargs | name sort | sort | sort value
                 | sort q IHq | sort l r IHl IHr | op_sort sort l r IHl IHr
                 | sort | value ] using kore_Pattern_nested_ind;
    intros as_cell.
  - destruct as_cell; simpl;
      [registers_unsupported | registers_binary IHl IHr].
  - destruct as_cell; simpl;
      [registers_unsupported | registers_binary IHl IHr].
  - destruct as_cell; simpl;
      [registers_unsupported | registers_binary IHl IHr].
  - split; [intros self; apply convert_extends | ].
    intros self c self' Hrun.
    destruct (as_cell
              || bool_decide (symbol ∈ KoreConverter._cell_symbols self))
      eqn:Hcell.
    + rewrite (convert_as_cell _ _ _ _ _ Hcell), convert_cell_unfold in Hrun.
      destruct (KoreConverter.match_cell_name symbol) as [cell_name | ];
        [ | discriminate Hrun].
      cbn [evar_names].
      refine (proj2 (_ : registers (concat (map evar_names args)) _)
                self c self' Hrun).
      apply registers_bind_l.
      { apply registers_nothing. intros s. apply cell_head_extends. }
      intros cell_symbol. destruct args as [ | arg args].
      * apply registers_pure. reflexivity.
      * apply registers_bind_r;
          [apply registers_convert_children; assumption | intros children].
        apply registers_bind_l; [apply registers_pure; reflexivity | ].
        intros cells_chained.
        destruct (existsb kl.is_Cell children);
          [destruct (is_App cells_chained) | ]; apply registers_pure;
          reflexivity.
    + rewrite (convert_generic _ _ _ _ _ Hcell) in Hrun.
      cbn [evar_names].
      refine (proj2 (_ : registers (concat (map evar_names args)) _)
                self c self' Hrun).
      apply registers_bind_l; [apply registers_resolve_symbol | ].
      intros app_symbol.
      apply registers_bind_r;
        [apply registers_convert_args; assumption | intros args_patterns].
      apply registers_bind_l; [apply registers_resolve_sorts | ].
      intros sorts_patterns.
      apply registers_bind_l; [apply registers_pure; reflexivity | ].
      intros args_chain.
      apply registers_bind_l.
      { apply registers_pure. intros s.
        destruct sorts_patterns; reflexivity. }
      intros sorts_of_application.
      destruct (is_App args_chain || is_Symbol args_chain);
        apply registers_pure; reflexivity.
  - destruct as_cell; simpl;
      [registers_unsupported | apply registers_resolve_metavar].
  - destruct as_cell; simpl; [registers_unsupported | ].
    apply registers_bind_l; [apply registers_resolve_symbol | intros ?].
    apply registers_pure; reflexivity.
  - destruct as_cell; simpl; [registers_unsupported | ].
    apply registers_bind_l; [apply registers_resolve_symbol | intros ?].
    apply registers_bind_l; [apply registers_resolve_symbol | intros ?].
    apply registers_pure; reflexivity.
  - destruct as_cell; simpl; registers_unsupported.
  - destruct as_cell; simpl; registers_unsupported.
  - destruct as_cell; simpl; registers_unsupported.
  - destruct as_cell; simpl; registers_unsupported.
  - destruct as_cell; simpl; registers_unsupported.
Qed.

(** X10.  After a pattern has been converted, each of its element variables is
    a known metavariable: [_lookup_metavar] finds it, at once and after any
    further conversion, and converting the variable again returns the
    metavariable found. *)
Theorem converted_variables_are_known (p : kore.Pattern) (as_cell : bool)
    (self self' : KoreConverter.t) (converted : Pattern) (name : string) :
  KoreConverter.convert as_cell p self = (Ok converted, self') ->
  name ∈ evar_names p ->
  exists metavar,
    KoreConverter._lookup_metavar name self' = (Ok metavar, self') /\
    (forall sort,
        KoreConverter._convert_pattern (kore.EVar name sort) self'
          = (Ok metavar, self')) /\
    (forall as_cell' pattern,
        let later := snd (KoreConverter.convert as_cell' pattern self') in
        KoreConverter._lookup_metavar name later = (Ok metavar, later)).
Proof.
  intros Hrun Hin.
  destruct (proj2 (registers_convert p as_cell) _ _ _ Hrun name Hin)
    as [metavar Hget].
  exists metavar. split; [ | split].
  - unfold KoreConverter._lookup_metavar. rewrite Hget. reflexivity.
  - intros sort. unfold KoreConverter._convert_pattern. simpl.
    unfold KoreConverter._resolve_metavar. rewrite Hget. reflexivity.
  - intros as_cell' pattern later.
    destruct (convert_extends pattern as_cell' self')
      as (_ & _ & _ & _ & _ & _ & Hmetavars & _).
    unfold KoreConverter._lookup_metavar. fold later in Hmetavars.
    rewrite (lookup_weaken _ _ _ _ Hget Hmetavars). reflexivity.
Qed.

Lemma converted_variables_are_known_witness :
  let p := kore.Rewrites Example.SortK Example.X Example.Y in
  let self' := snd (KoreConverter.convert false p Example.converter) in
  exists metavar,
    KoreConverter._lookup_metavar "Y" self' = (Ok metavar, self').
Proof.
  cbv zeta.
  destruct (converted_variables_are_known
              (kore.Rewrites Example.SortK Example.X Example.Y) false
              Example.converter
              (snd (KoreConverter.convert false
                      (kore.Rewrites Example.SortK Example.X Example.Y)
                      Example.converter))
              (kl.KoreRewrites (Symbol "kore_sort_SortK") (MetaVar 0)
                 (MetaVar 1))
              "Y") as (metavar & Hlookup & _).
  - vm_compute. reflexivity.
  - simpl. do 2 constructor.
  - exists metavar. exact Hlookup.
Defined.

(** ** Converter: functional symbols, ordinals and events *)

Lemma existsb_functional_attr (attrs : list kore.Pattern) :
  existsb KoreConverter.is_functional_attr attrs = true <->
  exists sorts args, kore.App "functional" sorts args ∈ attrs.
Proof.
  rewrite existsb_exists. split.
  - intros (attr & Hin & Hfun). destruct attr; try discriminate Hfun.
    simpl in Hfun. apply String.eqb_eq in Hfun. subst symbol.
    exists sorts, args. apply list_elem_of_In. exact Hin.
  - intros (sorts & args & Hin). exists (kore.App "functional" sorts args).
    split; [apply list_elem_of_In; exact Hin | reflexivity].
Qed.

Lemma collect_decls_elem (decls : list kore.SymbolDecl) :
  forall (acc : gset string) (name : string),
    name ∈ fold_left
             (fun functional_symbols symbol_declaration =>
                if existsb KoreConverter.is_functional_attr
                     (kore.symbol_attrs symbol_declaration)
                then {[ kore.symbol_name symbol_declaration ]}
                       ∪ functional_symbols
                else functional_symbols)
             decls acc
    <-> name ∈ acc \/
        exists decl,
          decl ∈ decls /\ kore.symbol_name decl = name /\
          declared_functional decl.
Proof.
  induction decls as [ | d decls IH ]; intros acc name; simpl.
  - split; [auto | ]. intros [H | (decl & Hin & _)]; [exact H | inversion Hin].
  - rewrite IH. split.
    + intros [Hacc | (decl & Hin & Hname & Hfun)].
      * destruct (existsb _ (kore.symbol_attrs d)) eqn:Hd; [ | auto].
        apply elem_of_union in Hacc as [Hnew | Hacc]; [ | auto].
        apply elem_of_singleton in Hnew. right. exists d.
        split; [left | ]. split; [auto | ].
        apply existsb_functional_attr. exact Hd.
      * right. exists decl. split; [right; exact Hin | auto].
    + intros [Hacc | (decl & Hin & Hname & Hfun)].
      * left. destruct (existsb _ (kore.symbol_attrs d)); [ | exact Hacc].
        apply elem_of_union. right. exact Hacc.
      * apply elem_of_cons in Hin as [-> | Hin].
        -- left. apply existsb_functional_attr in Hfun. rewrite Hfun.
           apply elem_of_union. left. apply elem_of_singleton. auto.
        -- right. exists decl. auto.
Qed.

Lemma collect_modules_elem (kore_modules : list kore.KModule) :
  forall (acc : gset string) (name : string),
    name ∈ fold_left
             (fun functional_symbols kore_module =>
                fold_left
                  (fun functional_symbols symbol_declaration =>
                     if existsb KoreConverter.is_functional_attr
                          (kore.symbol_attrs symbol_declaration)
                     then {[ kore.symbol_name symbol_declaration ]}
                            ∪ functional_symbols
                     else functional_symbols)
                  (kore.symbol_decls kore_module) functional_symbols)
             kore_modules acc
    <-> name ∈ acc \/
        exists kore_module decl,
          kore_module ∈ kore_modules /\
          decl ∈ kore.symbol_decls kore_module /\
          kore.symbol_name decl = name /\ declared_functional decl.
Proof.
  induction kore_modules as [ | m kore_modules IH ]; intros acc name; simpl.
  - split; [auto | ].
    intros [H | (kore_module & decl & Hin & _)]; [exact H | inversion Hin].
  - rewrite IH, collect_decls_elem. split.
    + intros [[Hacc | (decl & Hin & H)] | (kore_module & decl & Hin & H)].
      * auto.
      * right. exists m, decl. split; [left | auto].
      * right. exists kore_module, decl. split; [right; exact Hin | auto].
    + intros [Hacc | (kore_module & decl & Hin & Hdecl & H)]; [auto | ].
      apply elem_of_cons in Hin as [-> | Hin].
      * left. right. exists decl. auto.
      * right. exists kore_module, decl. auto.
Qed.

(** X11.  A symbol name is recorded as functional exactly when a symbol
    declaration of that name, in some module of the definition, carries an
    attribute that is an application of the symbol [functional]. *)
Theorem functional_symbols_are_declared (definition : kore.KDefinition)
    (name : string) :
  name ∈ KoreConverter._raw_functional_symbols
           (KoreConverter.__init__ definition)
  <-> exists kore_module decl,
        kore_module ∈ kore.modules definition /\
        decl ∈ kore.symbol_decls kore_module /\
        kore.symbol_name decl = name /\ declared_functional decl.
Proof.
  simpl. unfold KoreConverter._collect_functional_symbols.
  rewrite collect_modules_elem. split.
  - intros [Hempty | H]; [ | exact H]. apply elem_of_empty in Hempty.
    destruct Hempty.
  - intros H. right. exact H.
Qed.

(** *** Ordinals *)

Lemma retrieve_axioms_fold (kore_modules : list kore.KModule) :
  forall acc,
    fold_left (fun axioms kore_module => axioms ++ kore.axioms kore_module)
      kore_modules acc
    = acc ++ concat (map kore.axioms kore_modules).
Proof.
  induction kore_modules as [ | m kore_modules IH ]; intros acc; simpl.
  - rewrite app_nil_r. reflexivity.
  - rewrite IH, <- app_assoc. reflexivity.
Qed.

Lemma retrieve_axioms_concat (definition : kore.KDefinition) :
  KoreConverter._retrieve_axioms definition
    = concat (map kore.axioms (kore.modules definition)).
Proof. unfold KoreConverter._retrieve_axioms. apply retrieve_axioms_fold. Qed.

Lemma retrieve_axiom_at (position : nat) (kore_axiom : kore.KAxiom)
    (self : KoreConverter.t) :
  KoreConverter._axioms_to_choose_from self !! position = Some kore_axiom ->
  KoreConverter.retrieve_axiom_for_ordinal (Z.of_nat position) self
    = KoreConverter._convert_axiom kore_axiom self.
Proof.
  intros Hget. unfold KoreConverter.retrieve_axiom_for_ordinal.
  pose proof (lookup_lt_Some _ _ _ Hget) as Hlt.
  rewrite (proj2 (Z.ltb_lt _ _)) by lia.
  rewrite (proj2 (Z.ltb_ge (Z.of_nat position) 0)) by lia.
  rewrite (proj2 (Z.ltb_ge (Z.of_nat position) 0)) by lia.
  rewrite Nat2Z.id, Hget. reflexivity.
Qed.

(** X12.  [retrieve_axiom_for_ordinal] at the bounds. With [len] axioms to
    choose from: an ordinal of [len] or more raises [AssertionError]; an
    ordinal from 0 to [len - 1] converts the axiom at that position; a
    negative ordinal down to [-len] passes the assertion and converts the
    axiom at that position counted from the end; an ordinal below [-len]
    raises [IndexError]. The converter is unchanged when it raises so. *)
Theorem retrieve_axiom_for_ordinal_bounds (ordinal : Z)
    (self : KoreConverter.t) :
  let axioms := KoreConverter._axioms_to_choose_from self in
  let len := Z.of_nat (length axioms) in
  ((len <= ordinal)%Z ->
   KoreConverter.retrieve_axiom_for_ordinal ordinal self
     = (Raise AssertionError, self))
  /\ ((0 <= ordinal < len)%Z ->
      exists kore_axiom,
        axioms !! Z.to_nat ordinal = Some kore_axiom /\
        KoreConverter.retrieve_axiom_for_ordinal ordinal self
          = KoreConverter._convert_axiom kore_axiom self)
  /\ ((- len <= ordinal < 0)%Z ->
      exists kore_axiom,
        axioms !! Z.to_nat (len + ordinal) = Some kore_axiom /\
        KoreConverter.retrieve_axiom_for_ordinal ordinal self
          = KoreConverter._convert_axiom kore_axiom self)
  /\ ((ordinal < - len)%Z ->
      KoreConverter.retrieve_axiom_for_ordinal ordinal self
        = (Raise IndexError, self)).
Proof.
  cbv zeta. unfold KoreConverter.retrieve_axiom_for_ordinal.
  set (axioms := KoreConverter._axioms_to_choose_from self).
  repeat split.
  - intros H. rewrite (proj2 (Z.ltb_ge _ _)) by exact H. reflexivity.
  - intros [H0 Hlen]. rewrite (proj2 (Z.ltb_lt _ _)) by exact Hlen.
    rewrite (proj2 (Z.ltb_ge ordinal 0)) by exact H0.
    rewrite (proj2 (Z.ltb_ge ordinal 0)) by exact H0.
    destruct (lookup_lt_is_Some_2 axioms (Z.to_nat ordinal)) as [a Ha];
      [lia | ].
    exists a. rewrite Ha. split; reflexivity.
  - intros [Hlow Hneg].
    rewrite (proj2 (Z.ltb_lt ordinal _)) by lia.
    rewrite (proj2 (Z.ltb_lt ordinal 0)) by exact Hneg.
    rewrite (proj2 (Z.ltb_ge _ 0)) by lia.
    destruct (lookup_lt_is_Some_2 axioms
                (Z.to_nat (Z.of_nat (length axioms) + ordinal))) as [a Ha];
      [lia | ].
    exists a. rewrite Ha. split; reflexivity.
  - intros Hlow.
    rewrite (proj2 (Z.ltb_lt ordinal _)) by lia.
    rewrite (proj2 (Z.ltb_lt ordinal 0)) by lia.
    rewrite (proj2 (Z.ltb_lt _ 0)) by lia. reflexivity.
Qed.

Lemma retrieve_axiom_for_ordinal_bounds_witness :
  KoreConverter.retrieve_axiom_for_ordinal 3 Example.converter
    = (Raise AssertionError, Example.converter)
  /\ KoreConverter.retrieve_axiom_for_ordinal (-1) Example.converter
     = KoreConverter._convert_axiom Example.plain_axiom Example.converter
  /\ KoreConverter.retrieve_axiom_for_ordinal (-4) Example.converter
     = (Raise IndexError, Example.converter).
Proof.
  destruct (retrieve_axiom_for_ordinal_bounds 3 Example.converter)
    as (Hhigh & _).
  destruct (retrieve_axiom_for_ordinal_bounds (-1) Example.converter)
    as (_ & _ & Hneg & _).
  destruct (retrieve_axiom_for_ordinal_bounds (-4) Example.converter)
    as (_ & _ & _ & Hlow).
  split; [apply Hhigh; vm_compute; discriminate | ].
  split; [ | apply Hlow; vm_compute; reflexivity].
  destruct Hneg as (kore_axiom & Hget & Hrun);
    [split; vm_compute; [discriminate | reflexivity] | ].
  rewrite Hrun. vm_compute in Hget. injection Hget as <-. reflexivity.
Defined.

(** X13.  The ordinals of a new converter count the axioms of the modules of
    the definition, module after module: the ordinal of an axiom is the number
    of axioms of the modules before its own plus its position in its own. *)
Theorem ordinals_count_across_modules
    (modules_before modules_after : list kore.KModule)
    (kore_module : kore.KModule)
    (axioms_before axioms_after : list kore.KAxiom) (kore_axiom : kore.KAxiom) :
  kore.axioms kore_module = axioms_before ++ kore_axiom :: axioms_after ->
  let definition :=
    kore.mkDefinition (modules_before ++ kore_module :: modules_after) in
  let ordinal :=
    length (concat (map kore.axioms modules_before)) + length axioms_before in
  KoreConverter.retrieve_axiom_for_ordinal (Z.of_nat ordinal)
    (KoreConverter.__init__ definition)
  = KoreConverter._convert_axiom kore_axiom
      (KoreConverter.__init__ definition).
Proof.
  intros Haxioms definition ordinal.
  assert (Hget : KoreConverter._axioms_to_choose_from
                   (KoreConverter.__init__ definition) !! ordinal
                 = Some kore_axiom).
  { simpl. rewrite retrieve_axioms_concat. simpl.
    rewrite map_app, concat_app. simpl. rewrite Haxioms.
    unfold ordinal.
    rewrite lookup_app_r by lia.
    replace (_ + _ - _) with (length axioms_before) by lia.
    rewrite <- app_assoc.
    rewrite lookup_app_r by lia.
    rewrite Nat.sub_diag. reflexivity. }
  exact (retrieve_axiom_at ordinal kore_axiom _ Hget).
Qed.

Lemma ordinals_count_across_modules_witness :
  KoreConverter.retrieve_axiom_for_ordinal 4
    (KoreConverter.__init__
       (kore.mkDefinition
          [kore.mkModule [] [Example.rule_axiom; Example.plain_axiom];
           kore.mkModule [] [];
           kore.mkModule []
             [Example.plain_axiom; Example.rule_axiom;
              Example.bare_rewrite_axiom]]))
  = KoreConverter._convert_axiom Example.bare_rewrite_axiom
      (KoreConverter.__init__
         (kore.mkDefinition
            [kore.mkModule [] [Example.rule_axiom; Example.plain_axiom];
             kore.mkModule [] [];
             kore.mkModule []
               [Example.plain_axiom; Example.rule_axiom;
                Example.bare_rewrite_axiom]])).
Proof.
  exact (ordinals_count_across_modules
           [kore.mkModule [] [Example.rule_axiom; Example.plain_axiom];
            kore.mkModule [] []]
           []
           (kore.mkModule []
              [Example.plain_axiom; Example.rule_axiom;
               Example.bare_rewrite_axiom])
           [Example.plain_axiom; Example.rule_axiom] []
           Example.bare_rewrite_axiom eq_refl).
Defined.

(** *** Event axioms *)

Lemma first_occurrences_repeat {A : Type} `{EqDecision A} (x : A) (n : nat) :
  first_occurrences [x] (repeat x n) = [].
Proof.
  induction n as [ | n IH ]; simpl; [reflexivity | ].
  rewrite bool_decide_eq_true_2 by left. exact IH.
Qed.

Lemma filter_kind_subst_axioms (self : KoreConverter.t)
    (patterns : list Pattern) :
  forall subst_axioms,
    KoreConverter.subst_axioms_of self patterns = Ok subst_axioms ->
    Forall (fun axiom => kind axiom = FunctionalSymbol) subst_axioms.
Proof.
  intros subst_axioms. rewrite subst_axioms_of_outcome.
  destruct patterns as [ | p patterns ].
  - intros [= <-]. constructor.
  - destruct (_ && _); discriminate.
Qed.

Lemma filter_kind_none (k : AxiomType) (axioms : list ConvertedAxiom) :
  Forall (fun axiom => kind axiom <> k) axioms ->
  filter (fun axiom => kind axiom = k) axioms = [].
Proof.
  induction 1 as [ | a axioms Ha _ IH ]; [reflexivity | ].
  rewrite filter_cons_False by exact Ha. exact IH.
Qed.

Lemma organize_axioms_lookup (axioms : list ConvertedAxiom) (k : AxiomType) :
  KoreConverter._organize_axioms axioms !! k =
  match first_occurrences []
          (filter (fun axiom => kind axiom = k) axioms) with
  | [] => None
  | group => Some group
  end.
Proof.
  unfold KoreConverter._organize_axioms.
  rewrite organize_fold_lookup, lookup_empty. simpl.
  destruct (first_occurrences [] _); reflexivity.
Qed.

Lemma event_axioms_filter (k : AxiomType) (is_event : Event -> bool)
    (events : list Event) :
  (forall event,
      kind (match event with
            | FunEvent _ _ => event_placeholder FunctionEvent
            | HookEvent_ _ _ _ => event_placeholder HookEvent
            end) = k <-> is_event event = true) ->
  filter (fun axiom => kind axiom = k)
    (map (fun event =>
            match event with
            | FunEvent _ _ => event_placeholder FunctionEvent
            | HookEvent_ _ _ _ => event_placeholder HookEvent
            end) events)
  = repeat (event_placeholder k) (length (filter (fun e => is_event e = true) events)).
Proof.
  intros Hkind.
  induction events as [ | event events IH ]; [reflexivity | ].
  cbn [map]. destruct (is_event event) eqn:Hevent.
  - rewrite filter_cons_True by (apply Hkind; exact Hevent).
    rewrite (filter_cons_True (fun e => is_event e = true)) by exact Hevent.
    simpl. rewrite IH. f_equal.
    apply Hkind in Hevent. destruct event; simpl in *; subst k; reflexivity.
  - rewrite filter_cons_False
      by (intros H; apply Hkind in H; congruence).
    rewrite (filter_cons_False (fun e => is_event e = true)) by congruence.
    exact IH.
Qed.

(** X14.  However many function events and hook events a hint has, the
    organized axioms hold one axiom for the events of each kind that occurs,
    the placeholder of the kind, and no group for a kind without event; the
    events add nothing to the other groups. *)
Theorem event_axioms_collapse (self : KoreConverter.t) (hint : KoreHint)
    (organized : Axioms) :
  KoreConverter.collect_functional_axioms self hint = Ok organized ->
  organized !! FunctionEvent
    = (if existsb is_FunEvent (functional_events hint)
       then Some [event_placeholder FunctionEvent] else None)
  /\ organized !! HookEvent
     = (if existsb is_HookEvent (functional_events hint)
        then Some [event_placeholder HookEvent] else None)
  /\ organized !! Unclassified = None
  /\ organized !! RewriteRule = None
  /\ exists subst_axioms,
       KoreConverter._construct_subst_axioms self hint = Ok subst_axioms /\
       organized !! FunctionalSymbol
         = KoreConverter._organize_axioms subst_axioms !! FunctionalSymbol.
Proof.
  unfold KoreConverter.collect_functional_axioms,
    KoreConverter._construct_subst_axioms.
  destruct (KoreConverter.subst_axioms_of self
              (subst_values (substitutions hint))) as [added | e] eqn:Hadded;
    [ | discriminate].
  simpl. intros [= <-].
  pose proof (filter_kind_subst_axioms _ _ _ Hadded) as Hkinds.
  unfold KoreConverter._construct_event_axioms.
  change (fun event : Event =>
            match event with
            | FunEvent _ _ =>
                mkConvertedAxiom FunctionEvent (Implies (EVar 0) (EVar 0))
            | HookEvent_ _ _ _ =>
                mkConvertedAxiom HookEvent (Implies (EVar 0) (EVar 0))
            end)
    with (fun event : Event =>
            match event with
            | FunEvent _ _ => event_placeholder FunctionEvent
            | HookEvent_ _ _ _ => event_placeholder HookEvent
            end).
  assert (Hevents : forall k is_event,
             k <> FunctionalSymbol ->
             (forall event,
                 kind (match event with
                       | FunEvent _ _ => event_placeholder FunctionEvent
                       | HookEvent_ _ _ _ => event_placeholder HookEvent
                       end) = k <-> is_event event = true) ->
             KoreConverter._organize_axioms
               (added ++
                map (fun event =>
                       match event with
                       | FunEvent _ _ => event_placeholder FunctionEvent
                       | HookEvent_ _ _ _ => event_placeholder HookEvent
                       end) (functional_events hint)) !! k
             = if existsb is_event (functional_events hint)
               then Some [event_placeholder k] else None).
  { intros k is_event Hk Hkind.
    rewrite organize_axioms_lookup, filter_app.
    rewrite (filter_kind_none k added)
      by (eapply Forall_impl; [exact Hkinds | ];
          intros a Ha; simpl in Ha; congruence).
    rewrite app_nil_l, (event_axioms_filter k is_event _ Hkind).
    induction (functional_events hint) as [ | event events IH ];
      [reflexivity | ].
    cbn [existsb]. destruct (is_event event) eqn:Hevent.
    - rewrite filter_cons_True by exact Hevent. simpl.
      rewrite first_occurrences_repeat. reflexivity.
    - rewrite filter_cons_False by congruence. exact IH. }
  split; [ | split; [ | split; [ | split]]].
  - apply Hevents; [discriminate | ].
    intros [ | ]; simpl; split; congruence.
  - apply Hevents; [discriminate | ].
    intros [ | ]; simpl; split; congruence.
  - rewrite (Hevents Unclassified (fun _ => false)).
    + clear. induction (functional_events hint) as [ | ? ? IH ];
        [reflexivity | exact IH].
    + discriminate.
    + intros [ | ]; simpl; split; congruence.
  - rewrite (Hevents RewriteRule (fun _ => false)).
    + clear. induction (functional_events hint) as [ | ? ? IH ];
        [reflexivity | exact IH].
    + discriminate.
    + intros [ | ]; simpl; split; congruence.
  - exists added. split; [reflexivity | ].
    rewrite !organize_axioms_lookup, filter_app.
    rewrite (filter_kind_none FunctionalSymbol (map _ _)).
    + rewrite app_nil_r. reflexivity.
    + apply Forall_map. apply Forall_forall. intros [ | ] _; discriminate.
Qed.

Lemma event_axioms_collapse_witness :
  exists organized,
    KoreConverter.collect_functional_axioms Example.converter
      (mkKoreHint []
         [FunEvent "f" [0]; HookEvent_ "h" [] (Symbol "r"); FunEvent "g" [1]])
    = Ok organized /\
    organized !! FunctionEvent = Some [event_placeholder FunctionEvent] /\
    organized !! HookEvent = Some [event_placeholder HookEvent].
Proof.
  eexists. split; [reflexivity | ].
  destruct (event_axioms_collapse Example.converter
              (mkKoreHint []
                 [FunEvent "f" [0]; HookEvent_ "h" [] (Symbol "r");
                  FunEvent "g" [1]])
              _ eq_refl) as (Hfun & Hhook & _).
  split; [exact Hfun | exact Hhook].
Defined.

(** ** Converter: the discovery of cells *)

Lemma convert_cell_leaf (symbol cell_name : string) (sorts : list kore.Sort)
    (self : KoreConverter.t) :
  KoreConverter.match_cell_name symbol = Some cell_name ->
  KoreConverter.convert_cell (kore.App symbol sorts []) self
    = cell_head symbol cell_name self.
Proof.
  intros Hmatch. rewrite convert_cell_unfold, Hmatch. unfold bind, ret.
  destruct (cell_head symbol cell_name self) as [[c | e] s]; reflexivity.
Qed.

Lemma set_add_again (x : Pattern) (s : list Pattern) :
  KoreConverter.set_add x (KoreConverter.set_add x s)
    = KoreConverter.set_add x s.
Proof.
  unfold KoreConverter.set_add at 1.
  rewrite bool_decide_eq_true_2; [reflexivity | ].
  unfold KoreConverter.set_add. case_bool_decide; [assumption | ].
  apply elem_of_app. right. left.
Qed.

Lemma cell_head_done (symbol cell_name : string) (self : KoreConverter.t) :
  exists cell_symbol,
    cell_head symbol cell_name self
      = (Ok cell_symbol, snd (cell_head symbol cell_name self)) /\
    KoreConverter._symbols (snd (cell_head symbol cell_name self)) !! cell_name
      = Some cell_symbol /\
    symbol ∈ KoreConverter._cell_symbols (snd (cell_head symbol cell_name self))
    /\ (symbol ∈ KoreConverter._raw_functional_symbols
                   (snd (cell_head symbol cell_name self)) ->
        cell_symbol ∈ KoreConverter._functional_symbols
                        (snd (cell_head symbol cell_name self))).
Proof.
  destruct self as [d sy ev sv mv ax ca raw fs cs].
  unfold cell_head, bind, ret, modify, KoreConverter._resolve_symbol.
  cbn [KoreConverter._symbols KoreConverter.set_symbols
       KoreConverter._raw_functional_symbols].
  destruct (sy !! cell_name) as [cell_symbol | ] eqn:Hget.
  - exists cell_symbol. simpl. case_bool_decide as Hraw; simpl.
    + repeat split; [exact Hget | set_solver | ].
      intros _. unfold KoreConverter.set_add. case_bool_decide; [assumption | ].
      apply elem_of_app. right. left.
    + repeat split; [exact Hget | set_solver | ]. intros H. contradiction.
  - exists (Symbol ("kore_" ++ cell_name)). simpl.
    case_bool_decide as Hname; simpl; case_bool_decide as Hraw; simpl;
      (repeat split; [apply lookup_insert_eq | set_solver | ]);
      intros H; try contradiction;
      unfold KoreConverter.set_add; repeat case_bool_decide;
      try assumption; apply elem_of_app; right; left.
Qed.






(** ** Visitor: the stack *)

Lemma exit_loop_frames (cls : SimplificationVisitor.Methods)
    (below : list SimplificationInfo) :
  forall top self,
    let after := snd (SimplificationVisitor.exit_loop cls top below self) in
    SimplificationVisitor._in_simplification after
      = SimplificationVisitor._in_simplification self
    /\ SimplificationVisitor._language_semantics after
       = SimplificationVisitor._language_semantics self
    /\ length (SimplificationVisitor._simplification_stack after)
       <= S (length below)
    /\ tail (SimplificationVisitor._simplification_stack after)
         `suffix_of` below
    /\ (fst (SimplificationVisitor.exit_loop cls top below self) = Ok tt ->
        match SimplificationVisitor._simplification_stack after with
        | [] => True
        | frame :: _ => simplifications_left frame <> 0%Z
        end).
Proof.
  induction below as [ | last_info below IH ]; intros top self; simpl.
  - destruct (simplifications_left top =? 0)%Z eqn:Hleft.
    + destruct (SimplificationVisitor.update_subterm cls _ _ _); simpl;
        repeat split; auto.
    + simpl. repeat split; auto. intros _. apply Z.eqb_neq. exact Hleft.
  - destruct (simplifications_left top =? 0)%Z eqn:Hleft.
    + destruct (SimplificationVisitor.update_subterm cls _ _ _) as [updated | e].
      * destruct (IH (mkSimplificationInfo (location last_info)
                        (initial_pattern last_info) updated
                        (simplifications_left last_info - 1)) self)
          as (Hflag & Hsem & Hlen & Hsuffix & Hok).
        repeat split; auto.
        apply suffix_cons_r. exact Hsuffix.
      * simpl. repeat split; auto; try discriminate.
        apply suffix_cons_r. reflexivity.
    + simpl. repeat split; auto. intros _. apply Z.eqb_neq. exact Hleft.
Qed.

(** X16.  What [__exit__] does to the visitor, whatever [update_subterm] does
    and whether it returns or raises. It leaves the visitor marked as in
    simplification if it was, so the scope it closes stays open; it never adds
    a frame; the frames below the top of the stack it leaves are frames of the
    stack it found, untouched; when it returns, the stack is empty or its top
    frame has simplifications left. *)
Theorem exit_postcondition (cls : SimplificationVisitor.Methods)
    (self : SimplificationVisitor.t) :
  let after := snd (SimplificationVisitor.__exit__ cls self) in
  SimplificationVisitor._in_simplification after
    = SimplificationVisitor._in_simplification self
  /\ length (SimplificationVisitor._simplification_stack after)
     <= length (SimplificationVisitor._simplification_stack self)
  /\ tail (SimplificationVisitor._simplification_stack after)
       `suffix_of` tail (SimplificationVisitor._simplification_stack self)
  /\ (fst (SimplificationVisitor.__exit__ cls self) = Ok tt ->
      match SimplificationVisitor._simplification_stack after with
      | [] => True
      | frame :: _ => simplifications_left frame <> 0%Z
      end).
Proof.
  unfold SimplificationVisitor.__exit__.
  destruct (SimplificationVisitor._simplification_stack self)
    as [ | top below] eqn:Hstack.
  - simpl. rewrite Hstack. repeat split; auto.
  - destruct (exit_loop_frames cls below top self)
      as (Hflag & _ & Hlen & Hsuffix & Hok).
    repeat split; assumption.
Qed.

(** X17.  [__call__] pushes one frame or changes nothing. When it raises, the
    visitor is as it was. When it returns, a simplification was in progress
    and the rule of the ordinal is equational; the returned frame, at the
    given location, is the only change: it is on top of the stack as it was;
    its result is the right side of the rule under the substitutions of the
    rule and then of the hint, and its count that of the language semantics
    for this result. *)
Theorem call_pushes_one_frame (cls : SimplificationVisitor.Methods)
    (apply_esubst : Pattern -> nat -> Pattern -> Pattern) (ordinal : nat)
    (substitution : Subst) (loc : Location)
    (self : SimplificationVisitor.t) :
  match SimplificationVisitor.__call__ cls apply_esubst ordinal substitution
          loc self with
  | (Raise _, after) => after = self
  | (Ok new_info, after) =>
      SimplificationVisitor._in_simplification self = true
      /\ after
         = SimplificationVisitor.set_stack
             (new_info :: SimplificationVisitor._simplification_stack self)
             self
      /\ location new_info = loc
      /\ (exists rule,
             get_axiom (SimplificationVisitor._language_semantics self) ordinal
               = Ok (Equational rule) /\
             simplification_result new_info
               = SimplificationVisitor.apply_substitutions apply_esubst
                   (SimplificationVisitor.apply_substitutions apply_esubst
                      (rule_right rule) (substitutions_from_requires rule))
                   substitution)
      /\ simplifications_left new_info
         = count_simplifications
             (SimplificationVisitor._language_semantics self)
             (simplification_result new_info)
  end.
Proof.
  unfold SimplificationVisitor.__call__, bind, lift, modify, ret, raise.
  destruct (SimplificationVisitor._in_simplification self); [ | reflexivity].
  destruct (match SimplificationVisitor._simplification_stack self with
            | [] => _
            | top :: _ => _
            end) as [sub_pattern | e]; [ | reflexivity].
  destruct (get_axiom (SimplificationVisitor._language_semantics self) ordinal)
    as [[rule | rule] | e]; try reflexivity.
  simpl. repeat split. exists rule. split; reflexivity.
Qed.

(** ** Engine: the simplification scope *)

Lemma exit_flag (cls : SimplificationVisitor.Methods)
    (self : SimplificationVisitor.t) :
  SimplificationVisitor._in_simplification
    (snd (SimplificationVisitor.__exit__ cls self))
  = SimplificationVisitor._in_simplification self.
Proof.
  unfold SimplificationVisitor.__exit__.
  destruct (SimplificationVisitor._simplification_stack self)
    as [ | top below]; [reflexivity | ].
  apply (exit_loop_frames cls below top self).
Qed.

Lemma call_flag (cls : SimplificationVisitor.Methods)
    (apply_esubst : Pattern -> nat -> Pattern -> Pattern) (ordinal : nat)
    (substitution : Subst) (loc : Location)
    (self : SimplificationVisitor.t) :
  SimplificationVisitor._in_simplification
    (snd (SimplificationVisitor.__call__ cls apply_esubst ordinal substitution
            loc self))
  = SimplificationVisitor._in_simplification self.
Proof.
  unfold SimplificationVisitor.__call__, bind, lift, modify, ret, raise.
  destruct (SimplificationVisitor._in_simplification self) eqn:Hflag;
    [ | exact Hflag].
  destruct (match SimplificationVisitor._simplification_stack self with
            | [] => _
            | top :: _ => _
            end) as [sub_pattern | e]; [ | exact Hflag].
  destruct (get_axiom (SimplificationVisitor._language_semantics self) ordinal)
    as [[rule | rule] | e]; exact Hflag.
Qed.

Lemma set_visitor_same (self : ExecutionProofExp.t) :
  ExecutionProofExp.set_visitor (ExecutionProofExp._simplification_visitor self)
    self = self.
Proof. destruct self. reflexivity. Qed.

Lemma simplification_event_flag (cls : SimplificationVisitor.Methods)
    (apply_esubst : Pattern -> nat -> Pattern -> Pattern) (ordinal : nat)
    (substitution : Subst) (loc : Location) (self : ExecutionProofExp.t) :
  SimplificationVisitor._in_simplification
    (ExecutionProofExp._simplification_visitor
       (snd (ExecutionProofExp.simplification_event cls apply_esubst ordinal
               substitution loc self))) = true.
Proof.
  unfold ExecutionProofExp.simplification_event,
    SimplificationVisitor.with_visitor, SimplificationVisitor.__enter__.
  set (visitor := ExecutionProofExp._simplification_visitor self).
  destruct (SimplificationVisitor._in_simplification visitor) eqn:Hflag;
    [exact Hflag | ].
  pose proof (call_flag cls apply_esubst ordinal substitution loc
                (SimplificationVisitor.set_in_simplification true visitor))
    as Hcall.
  destruct (SimplificationVisitor.__call__ cls apply_esubst ordinal
              substitution loc
              (SimplificationVisitor.set_in_simplification true visitor))
    as [outcome called].
  pose proof (exit_flag cls called) as Hexit.
  destruct (SimplificationVisitor.__exit__ cls called) as [[u | e] exited];
    simpl in *; [destruct outcome | ]; simpl; congruence.
Qed.

Lemma simplification_event_busy (cls : SimplificationVisitor.Methods)
    (apply_esubst : Pattern -> nat -> Pattern -> Pattern) (ordinal : nat)
    (substitution : Subst) (loc : Location) (self : ExecutionProofExp.t) :
  SimplificationVisitor._in_simplification
    (ExecutionProofExp._simplification_visitor self) = true ->
  ExecutionProofExp.simplification_event cls apply_esubst ordinal substitution
    loc self = (Raise AssertionError, self).
Proof.
  intros Hbusy.
  unfold ExecutionProofExp.simplification_event,
    SimplificationVisitor.with_visitor, SimplificationVisitor.__enter__.
  rewrite Hbusy, set_visitor_same. reflexivity.
Qed.

Lemma rewrite_event_busy (rule : KRewritingRule) (substitution : Subst)
    (self : ExecutionProofExp.t) :
  SimplificationVisitor._in_simplification
    (ExecutionProofExp._simplification_visitor self) = true ->
  exists e,
    fst (ExecutionProofExp.rewrite_event rule substitution self) = Raise e.
Proof.
  intros Hbusy.
  unfold ExecutionProofExp.rewrite_event, bind, lift, get, modify, ret, raise.
  destruct (kl.kore_rewrites_assert_matches _) as [[[sort lhs] rhs] | e];
    [ | eexists; reflexivity].
  cbn [fst snd].
  destruct (pattern_eqb lhs (ExecutionProofExp.current_configuration self));
    [ | eexists; reflexivity].
  unfold ExecutionProofExp.add_assumptions_for_rewrite_step.
  destruct (ExecutionProofExp.collect_functional_axioms _ _)
    as [func_axioms | e]; [ | eexists; reflexivity].
  destruct (ProofExp.load_axiom _ _) as [loaded | e];
    [ | eexists; reflexivity].
  unfold SimplificationVisitor.update_configuration.
  cbn [ExecutionProofExp._simplification_visitor
       ExecutionProofExp.set_base ExecutionProofExp.set_curr_config].
  rewrite Hbusy.
  destruct (SimplificationVisitor._simplification_stack _);
    eexists; reflexivity.
Qed.

(** X18.  The scope of a simplification never closes. After a simplification
    event, whether it returned or raised and whatever the two static methods
    do, the visitor of the engine is marked as in simplification; from then on
    every simplification event raises [AssertionError] and leaves the engine
    as it is, and no rewrite event returns. *)
Theorem simplification_scope_stays_open (cls : SimplificationVisitor.Methods)
    (apply_esubst : Pattern -> nat -> Pattern -> Pattern) (ordinal : nat)
    (substitution : Subst) (loc : Location) (self : ExecutionProofExp.t) :
  let after :=
    snd (ExecutionProofExp.simplification_event cls apply_esubst ordinal
           substitution loc self) in
  SimplificationVisitor._in_simplification
    (ExecutionProofExp._simplification_visitor after) = true
  /\ (forall cls' apply_esubst' ordinal' substitution' loc',
        ExecutionProofExp.simplification_event cls' apply_esubst' ordinal'
          substitution' loc' after = (Raise AssertionError, after))
  /\ (forall rule substitution',
        exists e,
          fst (ExecutionProofExp.rewrite_event rule substitution' after)
            = Raise e).
Proof.
  intros after.
  pose proof (simplification_event_flag cls apply_esubst ordinal substitution
                loc self) as Hflag.
  fold after in Hflag.
  split; [exact Hflag | split].
  - intros cls' apply_esubst' ordinal' substitution' loc'.
    apply simplification_event_busy. exact Hflag.
  - intros rule substitution'. apply rewrite_event_busy. exact Hflag.
Qed.

(** ** Engine: rewrite steps, all or nothing *)

Lemma collect_functional_axioms_returns
    (language_semantics : LanguageSemantics) (patterns : list Pattern) :
  forall subst_axioms,
    ExecutionProofExp.collect_functional_axioms language_semantics patterns
      = Ok subst_axioms ->
    subst_axioms = map functional_axiom patterns /\
    forall p,
      p ∈ patterns -> semantics_registered language_semantics (head_symbol p).
Proof.
  induction patterns as [ | q patterns IH ]; intros subst_axioms; simpl.
  - intros [= <-]. split; [reflexivity | ]. intros p Hin. inversion Hin.
  - fold (head_symbol q).
    destruct (is_Symbol (head_symbol q)) eqn:Hsym; [ | discriminate].
    destruct (resolve_to_ksymbol language_semantics (head_symbol q))
      as [k_sym | ] eqn:Hres; [ | discriminate].
    destruct (is_functional k_sym) eqn:Hfun; [ | discriminate].
    destruct (ExecutionProofExp.collect_functional_axioms language_semantics
                patterns) as [rest | e]; [ | discriminate].
    simpl. intros [= <-].
    destruct (IH rest eq_refl) as [-> Hall].
    split; [reflexivity | ].
    intros p Hin. apply elem_of_cons in Hin as [-> | Hin].
    + split; [exact Hsym | eauto].
    + apply Hall. exact Hin.
Qed.

(** What a rewrite event that returns must have found and what it leaves,
    and that one that raises before the visitor is updated changes
    nothing. *)
Lemma rewrite_event_outcome (rule : KRewritingRule) (substitution : Subst)
    (self : ExecutionProofExp.t) :
  let instantiated_axiom := instantiate substitution (rule_pattern rule) in
  match ExecutionProofExp.rewrite_event rule substitution self with
  | (Ok proof, after) =>
      exists sort lhs rhs,
        kl.kore_rewrites_assert_matches instantiated_axiom
          = Ok (sort, lhs, rhs) /\
        lhs = ExecutionProofExp.current_configuration self /\
        (forall p,
            p ∈ subst_values substitution ->
            semantics_registered (ExecutionProofExp.language_semantics self)
              (head_symbol p)) /\
        SimplificationVisitor._simplification_stack
          (ExecutionProofExp._simplification_visitor self) = [] /\
        SimplificationVisitor._in_simplification
          (ExecutionProofExp._simplification_visitor self) = false /\
        proof = DynamicInst (LoadAxiom (rule_pattern rule)) substitution /\
        ExecutionProofExp.current_configuration after = rhs /\
        ExecutionProofExp.initial_configuration after
          = ExecutionProofExp.initial_configuration self /\
        ExecutionProofExp.language_semantics after
          = ExecutionProofExp.language_semantics self /\
        ProofExp._claims (ExecutionProofExp.base after)
          = ProofExp._claims (ExecutionProofExp.base self)
              ++ [instantiated_axiom] /\
        ProofExp._proof_expressions (ExecutionProofExp.base after)
          = ProofExp._proof_expressions (ExecutionProofExp.base self)
              ++ [proof]
  | (Raise _, after) =>
      SimplificationVisitor._simplification_stack
        (ExecutionProofExp._simplification_visitor self) = [] ->
      SimplificationVisitor._in_simplification
        (ExecutionProofExp._simplification_visitor self) = false ->
      after = self
  end.
Proof.
  cbv zeta.
  unfold ExecutionProofExp.rewrite_event, bind, lift, get, modify, ret, raise.
  destruct (kl.kore_rewrites_assert_matches _) as [[[sort lhs] rhs] | e]
    eqn:Hmatch; [ | reflexivity].
  cbn [fst snd].
  destruct (pattern_eqb lhs (ExecutionProofExp.current_configuration self))
    eqn:Hlhs; [ | reflexivity].
  apply pattern_eqb_eq in Hlhs.
  unfold ExecutionProofExp.add_assumptions_for_rewrite_step.
  destruct (ExecutionProofExp.collect_functional_axioms _ _)
    as [func_axioms | e] eqn:Hcollect; [ | reflexivity].
  destruct (collect_functional_axioms_returns _ _ _ Hcollect)
    as [-> Hregistered].
  cbn [ExecutionProofExp.base ExecutionProofExp.set_base].
  unfold ProofExp.load_axiom.
  rewrite bool_decide_eq_true_2.
  2:{ unfold ProofExp.add_claim. simpl. apply add_axiom_elem. }
  unfold SimplificationVisitor.update_configuration.
  cbn [ExecutionProofExp._simplification_visitor
       ExecutionProofExp.set_base ExecutionProofExp.set_curr_config].
  destruct (SimplificationVisitor._simplification_stack
              (ExecutionProofExp._simplification_visitor self)) eqn:Hstack.
  2:{ intros H. discriminate H. }
  destruct (SimplificationVisitor._in_simplification
              (ExecutionProofExp._simplification_visitor self)) eqn:Hflag.
  1:{ intros _ H. discriminate H. }
  exists sort, lhs, rhs.
  destruct (add_axiom_claims (rule_pattern rule)
              (ProofExp.add_assumptions
                 (map pattern
                    (map functional_axiom (subst_values substitution)))
                 (ExecutionProofExp.base self))) as [Hc Hp].
  destruct (add_assumptions_claims
              (map pattern
                 (map functional_axiom (subst_values substitution)))
              (ExecutionProofExp.base self)) as [Hc' Hp'].
  split; [reflexivity | ]. split; [exact Hlhs | ].
  split; [exact Hregistered | ].
  do 3 (split; [reflexivity | ]).
  cbn. do 3 (split; [reflexivity | ]).
  split.
  - rewrite <- Hc'. reflexivity.
  - rewrite <- Hp'. reflexivity.
Qed.

(** X19.  A rewrite event returns only if the instantiated rule is a rewrite
    relation from the current configuration, the head of every substituted
    pattern is registered as functional, and no simplification is pending or
    in progress. *)
Theorem rewrite_event_returns_only_if (rule : KRewritingRule)
    (substitution : Subst) (self after : ExecutionProofExp.t)
    (proof : ProofThunk) :
  ExecutionProofExp.rewrite_event rule substitution self = (Ok proof, after) ->
  (exists sort rhs,
      kl.kore_rewrites_assert_matches
        (instantiate substitution (rule_pattern rule))
      = Ok (sort, ExecutionProofExp.current_configuration self, rhs))
  /\ (forall p,
         p ∈ subst_values substitution ->
         semantics_registered (ExecutionProofExp.language_semantics self)
           (head_symbol p))
  /\ SimplificationVisitor._simplification_stack
       (ExecutionProofExp._simplification_visitor self) = []
  /\ SimplificationVisitor._in_simplification
       (ExecutionProofExp._simplification_visitor self) = false.
Proof.
  intros Hrun.
  pose proof (rewrite_event_outcome rule substitution self) as Houtcome.
  cbv zeta in Houtcome. rewrite Hrun in Houtcome.
  destruct Houtcome
    as (sort & lhs & rhs & Hmatch & -> & Hregistered & Hstack & Hflag & _).
  split; [exists sort, rhs; exact Hmatch | ].
  split; [exact Hregistered | ]. split; assumption.
Qed.

Lemma rewrite_event_returns_only_if_witness :
  SimplificationVisitor._in_simplification
    (ExecutionProofExp._simplification_visitor Example.engine_f) = false.
Proof.
  apply (rewrite_event_returns_only_if Example.rule [(0, Example.f_of_a)]
           Example.engine_f
           (snd (ExecutionProofExp.rewrite_event Example.rule
                   [(0, Example.f_of_a)] Example.engine_f))
           (DynamicInst (LoadAxiom (rule_pattern Example.rule))
              [(0, Example.f_of_a)])).
  vm_compute. reflexivity.
Defined.

(** X20.  While no simplification is pending or in progress, a rewrite event
    that raises leaves the engine as it was: no axiom, claim or proof is added
    and the configuration is kept. *)
Theorem rewrite_event_all_or_nothing (rule : KRewritingRule)
    (substitution : Subst) (self after : ExecutionProofExp.t) (e : Exn) :
  SimplificationVisitor._simplification_stack
    (ExecutionProofExp._simplification_visitor self) = [] ->
  SimplificationVisitor._in_simplification
    (ExecutionProofExp._simplification_visitor self) = false ->
  ExecutionProofExp.rewrite_event rule substitution self = (Raise e, after) ->
  after = self.
Proof.
  intros Hstack Hflag Hrun.
  pose proof (rewrite_event_outcome rule substitution self) as Houtcome.
  cbv zeta in Houtcome. rewrite Hrun in Houtcome.
  exact (Houtcome Hstack Hflag).
Qed.

Lemma rewrite_event_all_or_nothing_witness :
  snd (ExecutionProofExp.rewrite_event Example.rule [(0, Example.g_of_a)]
         Example.engine_g) = Example.engine_g.
Proof.
  apply (rewrite_event_all_or_nothing Example.rule [(0, Example.g_of_a)]
           Example.engine_g _ AssertionError eq_refl eq_refl).
  vm_compute. reflexivity.
Defined.

(** ** Engine: the replay of a trace *)

Lemma replay_steps (language_semantics : LanguageSemantics)
    (hints : list RewriteStepExpression) :
  forall proof_expr built,
    ExecutionProofExp.replay language_semantics hints (Some proof_expr)
      = Ok built ->
    exists after claims proofs,
      built = Some after /\
      ProofExp._claims (ExecutionProofExp.base after)
        = ProofExp._claims (ExecutionProofExp.base proof_expr) ++ claims /\
      ProofExp._proof_expressions (ExecutionProofExp.base after)
        = ProofExp._proof_expressions (ExecutionProofExp.base proof_expr)
            ++ proofs /\
      map Some claims = map hint_claim hints /\
      map conc proofs = claims /\
      trace_from (ExecutionProofExp.current_configuration proof_expr) claims
        = Some (ExecutionProofExp.current_configuration after) /\
      ExecutionProofExp.initial_configuration after
        = ExecutionProofExp.initial_configuration proof_expr.
Proof.
  induction hints as [ | hint hints IH ]; intros proof_expr built; simpl.
  - intros [= <-]. exists proof_expr, [], [].
    rewrite !app_nil_r. repeat split.
  - unfold hint_claim at 1.
    destruct (hint_axiom hint) as [rule | rule]; [ | discriminate].
    pose proof (rewrite_event_outcome rule (hint_substitutions hint)
                  proof_expr) as Houtcome.
    cbv zeta in Houtcome.
    destruct (ExecutionProofExp.rewrite_event rule (hint_substitutions hint)
                proof_expr) as [[proof | e] stepped]; [ | discriminate].
    destruct Houtcome
      as (sort & lhs & rhs & Hmatch & Hlhs & _ & _ & _ & Hproof & Hcurrent
          & Hinitial & _ & Hclaims & Hproofs).
    intros Hreplay.
    destruct (IH stepped built Hreplay)
      as (after & claims & proofs & -> & Hclaims' & Hproofs' & Hhints
          & Hconc & Htrace & Hinitial').
    exists after,
      (instantiate (hint_substitutions hint) (rule_pattern rule) :: claims),
      (proof :: proofs).
    split; [reflexivity | ].
    split; [rewrite Hclaims', Hclaims, <- app_assoc; reflexivity | ].
    split; [rewrite Hproofs', Hproofs, <- app_assoc; reflexivity | ].
    split; [simpl; rewrite Hhints; reflexivity | ].
    split; [simpl; rewrite Hconc, Hproof; reflexivity | ].
    split; [ | congruence].
    simpl. rewrite Hmatch, <- Hlhs, pattern_eqb_refl, <- Hcurrent.
    exact Htrace.
Qed.

(** X21.  When [from_proof_hints] returns for a trace that is not empty, it
    returns the engine, started in the configuration before the first hint;
    every hint has a rewriting rule; there is one claim per hint, in order,
    the pattern of the rule of the hint under its substitution, and one proof
    per claim, in order, which proves it; and the claims are rewrite steps
    that lead, each from where the one before ended, from the initial
    configuration to the current one. *)
Theorem from_proof_hints_replays (language_semantics : LanguageSemantics)
    (hint : RewriteStepExpression) (hints : list RewriteStepExpression)
    (built : ExecutionProofExp.Built) :
  ExecutionProofExp.from_proof_hints (hint :: hints) language_semantics
    = Ok built ->
  exists proof_expr,
    built = ExecutionProofExp.Engine proof_expr /\
    ExecutionProofExp.initial_configuration proof_expr
      = configuration_before hint /\
    map Some (ExecutionProofExp.built_claims built)
      = map hint_claim (hint :: hints) /\
    map conc (ExecutionProofExp.built_proofs built)
      = ExecutionProofExp.built_claims built /\
    trace_from (configuration_before hint)
      (ExecutionProofExp.built_claims built)
      = Some (ExecutionProofExp.current_configuration proof_expr).
Proof.
  unfold ExecutionProofExp.from_proof_hints.
  destruct (ExecutionProofExp.replay language_semantics (hint :: hints) None)
    as [replayed | e] eqn:Hreplay; [ | discriminate].
  change (ExecutionProofExp.replay language_semantics (hint :: hints) None)
    with (ExecutionProofExp.replay language_semantics (hint :: hints)
            (Some (ExecutionProofExp.__init__ language_semantics
                     (configuration_before hint)))) in Hreplay.
  destruct (replay_steps _ _ _ _ Hreplay)
    as (after & claims & proofs & -> & Hclaims & Hproofs & Hhints & Hconc
        & Htrace & Hinitial).
  simpl. intros [= <-]. exists after.
  simpl in Hclaims, Hproofs. simpl. rewrite Hclaims, Hproofs.
  repeat split; assumption.
Qed.

Lemma from_proof_hints_replays_witness :
  let hint :=
    mkRewriteStepExpression Example.f_of_a (Rewriting Example.rule)
      [(0, Example.f_of_a)] in
  let built :=
    ExecutionProofExp.Engine
      (snd (ExecutionProofExp.rewrite_event Example.rule [(0, Example.f_of_a)]
              Example.engine_f)) in
  exists proof_expr,
    built = ExecutionProofExp.Engine proof_expr /\
    ExecutionProofExp.initial_configuration proof_expr
      = configuration_before hint /\
    map Some (ExecutionProofExp.built_claims built) = map hint_claim [hint] /\
    map conc (ExecutionProofExp.built_proofs built)
      = ExecutionProofExp.built_claims built /\
    trace_from (configuration_before hint)
      (ExecutionProofExp.built_claims built)
      = Some (ExecutionProofExp.current_configuration proof_expr).
Proof.
  apply (from_proof_hints_replays Example.semantics
           (mkRewriteStepExpression Example.f_of_a (Rewriting Example.rule)
              [(0, Example.f_of_a)])
           []).
  vm_compute. reflexivity.
Defined.

Lemma replay_claims (language_semantics : LanguageSemantics)
    (hints : list RewriteStepExpression)
    (proof_expr : option ExecutionProofExp.t)
    (replayed : option ExecutionProofExp.t) :
  ExecutionProofExp.replay language_semantics hints proof_expr = Ok replayed ->
  Forall (fun hint => is_Some (hint_claim hint)) hints.
Proof.
  revert proof_expr.
  induction hints as [ | hint hints IH ]; intros proof_expr; simpl.
  - intros _. constructor.
  - destruct (hint_axiom hint) as [rule | rule] eqn:Haxiom; [ | discriminate].
    destruct (ExecutionProofExp.rewrite_event _ _ _) as [[proof | e] stepped];
      [ | discriminate].
    intros Hreplay.
    constructor; [unfold hint_claim; rewrite Haxiom; eexists; reflexivity | ].
    exact (IH _ Hreplay).
Qed.

Lemma replay_app (language_semantics : LanguageSemantics)
    (before after : list RewriteStepExpression) :
  forall proof_expr,
    ExecutionProofExp.replay language_semantics (before ++ after) proof_expr
    = rbind (ExecutionProofExp.replay language_semantics before proof_expr)
        (fun replayed =>
           ExecutionProofExp.replay language_semantics after replayed).
Proof.
  induction before as [ | hint before IH ]; intros proof_expr; simpl.
  - reflexivity.
  - destruct (hint_axiom hint) as [rule | rule]; [ | reflexivity].
    destruct (ExecutionProofExp.rewrite_event _ _ _) as [[proof | e] stepped];
      [apply IH | reflexivity].
Qed.

(** X22.  A trace with a hint whose rule is equational is never replayed:
    [from_proof_hints] raises, and it raises [NotImplementedError] when the
    hints before that one can be replayed. *)
Theorem from_proof_hints_refuses_equational
    (language_semantics : LanguageSemantics)
    (before after : list RewriteStepExpression)
    (hint : RewriteStepExpression) (rule : KEquationalRule) :
  hint_axiom hint = Equational rule ->
  (exists e,
      ExecutionProofExp.from_proof_hints (before ++ hint :: after)
        language_semantics = Raise e)
  /\ (is_ok (ExecutionProofExp.from_proof_hints before language_semantics)
        = true ->
      ExecutionProofExp.from_proof_hints (before ++ hint :: after)
        language_semantics = Raise NotImplementedError).
Proof.
  intros Hrule. unfold ExecutionProofExp.from_proof_hints. split.
  - destruct (ExecutionProofExp.replay language_semantics
                (before ++ hint :: after) None) as [replayed | e] eqn:Hreplay;
      [ | exists e; reflexivity].
    exfalso. apply replay_claims in Hreplay.
    apply Forall_app in Hreplay as [_ Hreplay].
    apply Forall_cons in Hreplay as [[claim Hclaim] _].
    unfold hint_claim in Hclaim. rewrite Hrule in Hclaim. discriminate Hclaim.
  - rewrite replay_app.
    destruct (ExecutionProofExp.replay language_semantics before None)
      as [replayed | e]; [ | discriminate].
    intros _. simpl. rewrite Hrule. reflexivity.
Qed.

Lemma from_proof_hints_refuses_equational_witness :
  ExecutionProofExp.from_proof_hints
    [mkRewriteStepExpression Example.f_of_a (Rewriting Example.rule)
       [(0, Example.f_of_a)];
     mkRewriteStepExpression (Symbol "kore_b")
       (Equational (mkKEquationalRule 1 (Symbol "kore_b") (Symbol "kore_c") []))
       []]
    Example.semantics = Raise NotImplementedError.
Proof.
  apply (proj2 (from_proof_hints_refuses_equational Example.semantics
                  [mkRewriteStepExpression Example.f_of_a
                     (Rewriting Example.rule) [(0, Example.f_of_a)]]
                  []
                  (mkRewriteStepExpression (Symbol "kore_b")
                     (Equational
                        (mkKEquationalRule 1 (Symbol "kore_b")
                           (Symbol "kore_c") []))
                     [])
                  _ eq_refl)).
  vm_compute. reflexivity.
Defined.

(** ** Propositional: reflexivity of implication *)

(** X23.  [imp_reflexivity] is a valid proof, of [phi0 -> phi0]: both of its
    modus ponens steps find the premise they need. Instantiated at any pattern
    [p] it proves [p -> p]; so [top_intro] proves [top], and the proofs of the
    module prove its claims, in order. *)
Theorem imp_reflexivity_proves (p : Pattern) :
  conclusion Propositional.imp_reflexivity
    = Ok (implies Propositional.phi0 Propositional.phi0)
  /\ conclusion (proof_instantiate Propositional.imp_reflexivity 0 p)
     = Ok (implies p p)
  /\ conclusion Propositional.top_intro = Ok Propositional.top
  /\ map conclusion (Propositional.proofs Propositional.propositional)
     = map Ok (Propositional.claims Propositional.propositional).
Proof.
  assert (Hrefl : conclusion Propositional.imp_reflexivity
                  = Ok (implies Propositional.phi0 Propositional.phi0))
    by (vm_compute; reflexivity).
  split; [exact Hrefl | ]. split; [ | split].
  - unfold proof_instantiate. cbn [conclusion]. rewrite Hrefl. simpl.
    reflexivity.
  - vm_compute. reflexivity.
  - vm_compute. reflexivity.
Qed.

(** ** Converter: functional symbols and cell symbols *)











(** X25.  The known cell symbols are named as cells: the only cell symbol of a
    new converter is, and conversions keep it so. Hence the assertion of
    [convert_cell] holds whenever [_convert_pattern] hands it an application,
    and a known cell without children is always converted, to the symbol of
    its name. *)
Theorem cell_symbols_stay_named :
  (forall kore_definition,
      cell_symbols_named (KoreConverter.__init__ kore_definition))
  /\ (forall self,
        cell_symbols_named self ->
        (forall as_cell pattern,
            cell_symbols_named
              (snd (KoreConverter.convert as_cell pattern self)))
        /\ (forall kore_axiom,
              cell_symbols_named
                (snd (KoreConverter._convert_axiom kore_axiom self)))
        /\ (forall symbol sorts args,
              symbol ∈ KoreConverter._cell_symbols self ->
              is_Some (KoreConverter.is_cell (kore.App symbol sorts args)))
        /\ (forall symbol sorts,
              symbol ∈ KoreConverter._cell_symbols self ->
              exists cell_name cell_symbol self',
                KoreConverter.match_cell_name symbol = Some cell_name /\
                KoreConverter._convert_pattern (kore.App symbol sorts []) self
                  = (Ok cell_symbol, self') /\
                KoreConverter._symbols self' !! cell_name
                  = Some cell_symbol)).
Proof.
  split; [apply init_cell_symbols_named | ].
  intros self H. split; [ | split; [ | split]].
  - intros as_cell pattern. apply convert_cell_symbols_named. exact H.
  - intros kore_axiom. apply convert_axiom_cell_symbols_named. exact H.
  - intros symbol sorts args Hin. apply H. exact Hin.
  - intros symbol sorts Hin. destruct (H symbol Hin) as [cell_name Hmatch].
    destruct (cell_head_done symbol cell_name self)
      as (cell_symbol & Hrun & Hget & _).
    exists cell_name, cell_symbol, (snd (cell_head symbol cell_name self)).
    split; [exact Hmatch | ]. split; [ | exact Hget].
    rewrite (convert_pattern_known_cell _ _ _ _ Hin).
    rewrite (convert_cell_leaf _ _ _ _ Hmatch). exact Hrun.
Qed.

Lemma cell_symbols_stay_named_witness :
  cell_symbols_named
    (snd (KoreConverter._convert_pattern
            (Example.top_of [kore.App Example.k_cell [] [Example.X]])
            Example.converter)).
Proof.
  apply (proj1 (proj2 cell_symbols_stay_named Example.converter
                  (proj1 cell_symbols_stay_named Example.definition))).
Defined.

(** ** Engine: the axioms of a rewrite step *)

Lemma add_axiom_axioms (axiom x : Pattern) (self : ProofExp.t) :
  x ∈ ProofExp._axioms (ProofExp.add_axiom axiom self)
  <-> x ∈ ProofExp._axioms self \/ x = axiom.
Proof.
  unfold ProofExp.add_axiom. simpl. case_bool_decide as Hin.
  - split; [auto | ]. intros [H | ->]; assumption.
  - rewrite elem_of_app, list_elem_of_singleton. reflexivity.
Qed.

Lemma add_axiom_NoDup (axiom : Pattern) (self : ProofExp.t) :
  NoDup (ProofExp._axioms self) ->
  NoDup (ProofExp._axioms (ProofExp.add_axiom axiom self)).
Proof.
  intros Hnodup. unfold ProofExp.add_axiom. simpl.
  case_bool_decide as Hin; [exact Hnodup | ].
  apply NoDup_app. split; [exact Hnodup | ]. split.
  - intros x Hx Hx'. apply list_elem_of_singleton in Hx'. subst x. auto.
  - apply NoDup_singleton.
Qed.

Lemma add_assumptions_axioms (assumptions : list Pattern) :
  forall (self : ProofExp.t) (x : Pattern),
    x ∈ ProofExp._axioms (ProofExp.add_assumptions assumptions self)
    <-> x ∈ ProofExp._axioms self \/ x ∈ assumptions.
Proof.
  unfold ProofExp.add_assumptions.
  induction assumptions as [ | a assumptions IH ]; intros self x; simpl.
  - split; [auto | ]. intros [H | H]; [exact H | inversion H].
  - rewrite IH, add_axiom_axioms, elem_of_cons. tauto.
Qed.

Lemma add_assumptions_NoDup (assumptions : list Pattern) :
  forall self : ProofExp.t,
    NoDup (ProofExp._axioms self) ->
    NoDup (ProofExp._axioms (ProofExp.add_assumptions assumptions self)).
Proof.
  unfold ProofExp.add_assumptions.
  induction assumptions as [ | a assumptions IH ]; intros self H; simpl.
  - exact H.
  - apply IH, add_axiom_NoDup, H.
Qed.

Lemma rewrite_event_axioms (rule : KRewritingRule) (substitution : Subst)
    (self after : ExecutionProofExp.t) (proof : ProofThunk) :
  ExecutionProofExp.rewrite_event rule substitution self = (Ok proof, after) ->
  ProofExp._axioms (ExecutionProofExp.base after)
  = ProofExp._axioms
      (ProofExp.add_axiom (rule_pattern rule)
         (ProofExp.add_assumptions
            (map pattern (map functional_axiom (subst_values substitution)))
            (ExecutionProofExp.base self))).
Proof.
  unfold ExecutionProofExp.rewrite_event, bind, lift, get, modify, ret, raise.
  destruct (kl.kore_rewrites_assert_matches _) as [[[sort lhs] rhs] | e];
    [ | discriminate].
  cbn [fst snd].
  destruct (pattern_eqb lhs (ExecutionProofExp.current_configuration self));
    [ | discriminate].
  unfold ExecutionProofExp.add_assumptions_for_rewrite_step.
  destruct (ExecutionProofExp.collect_functional_axioms _ _)
    as [func_axioms | e] eqn:Hcollect; [ | discriminate].
  destruct (collect_functional_axioms_returns _ _ _ Hcollect) as [-> _].
  cbn [ExecutionProofExp.base ExecutionProofExp.set_base].
  destruct (ProofExp.load_axiom _ _) as [loaded | e]; [ | discriminate].
  unfold SimplificationVisitor.update_configuration.
  cbn [ExecutionProofExp._simplification_visitor
       ExecutionProofExp.set_base ExecutionProofExp.set_curr_config].
  destruct (SimplificationVisitor._simplification_stack _); [ | discriminate].
  destruct (SimplificationVisitor._in_simplification _); [discriminate | ].
  intros [= _ <-]. reflexivity.
Qed.

(** X26.  The axioms a rewrite event asserts. After a rewrite event has
    returned, the asserted axioms are those asserted before, the pattern of
    the rule, and for every substituted pattern [p] the axiom of its unique
    definedness, and nothing else; no axiom is asserted twice if none was
    before. *)
Theorem rewrite_event_asserts_axioms (rule : KRewritingRule)
    (substitution : Subst) (self after : ExecutionProofExp.t)
    (proof : ProofThunk) :
  ExecutionProofExp.rewrite_event rule substitution self = (Ok proof, after) ->
  (forall axiom,
      axiom ∈ ProofExp._axioms (ExecutionProofExp.base after)
      <-> axiom ∈ ProofExp._axioms (ExecutionProofExp.base self)
          \/ axiom = rule_pattern rule
          \/ exists p,
               p ∈ subst_values substitution /\ axiom = functional p)
  /\ (NoDup (ProofExp._axioms (ExecutionProofExp.base self)) ->
      NoDup (ProofExp._axioms (ExecutionProofExp.base after))).
Proof.
  intros Hrun. rewrite (rewrite_event_axioms _ _ _ _ _ Hrun). split.
  - intros axiom. rewrite add_axiom_axioms, add_assumptions_axioms.
    rewrite map_map, list_elem_of_fmap. simpl. split.
    + intros [[H | (p & -> & Hp)] | H]; [auto | | auto].
      right. right. exists p. split; [exact Hp | reflexivity].
    + intros [H | [H | (p & Hp & ->)]]; [auto | auto | ].
      left. right. exists p. split; [reflexivity | exact Hp].
  - intros Hnodup. apply add_axiom_NoDup, add_assumptions_NoDup, Hnodup.
Qed.

Lemma rewrite_event_asserts_axioms_witness :
  let after :=
    snd (ExecutionProofExp.rewrite_event Example.rule [(0, Example.f_of_a)]
           Example.engine_f) in
  rule_pattern Example.rule ∈ ProofExp._axioms (ExecutionProofExp.base after)
  /\ functional Example.f_of_a
       ∈ ProofExp._axioms (ExecutionProofExp.base after).
Proof.
  cbv zeta.
  destruct (rewrite_event_asserts_axioms Example.rule [(0, Example.f_of_a)]
              Example.engine_f
              (snd (ExecutionProofExp.rewrite_event Example.rule
                      [(0, Example.f_of_a)] Example.engine_f))
              (DynamicInst (LoadAxiom (rule_pattern Example.rule))
                 [(0, Example.f_of_a)]))
    as [Haxioms _].
  - vm_compute. reflexivity.
  - split; apply Haxioms.
    + right. left. reflexivity.
    + right. right. exists Example.f_of_a. split; [left | reflexivity].
Defined.

(** ** Converter: substitutions *)

Lemma subst_set_fresh (delta : Subst) (n : nat) (p : Pattern) :
  n ∉ map fst delta -> subst_set delta n p = delta ++ [(n, p)].
Proof.
  induction delta as [ | [k v] delta IH ]; simpl; [reflexivity | ].
  intros Hfresh. destruct (Nat.eqb k n) eqn:Hk.
  - apply Nat.eqb_eq in Hk. subst k. exfalso. apply Hfresh. left.
  - rewrite IH; [reflexivity | ]. intros Hin. apply Hfresh. right. exact Hin.
Qed.

Lemma convert_substitutions_steps (items : list (string * kore.Pattern)) :
  forall (earlier : list string) (substitutions : Subst)
         (self self' : KoreConverter.t) (result_ : Subst),
    metavars_numbered self ->
    NoDup (earlier ++ map fst items) ->
    Forall2 (fun id key =>
               KoreConverter._metavars self !! id = Some (MetaVar key))
      earlier (map fst substitutions) ->
    convert_substitutions_loop items substitutions self = (Ok result_, self') ->
    exists keys values,
      convert_args (map snd items) self = (Ok values, self') /\
      length keys = length values /\
      result_ = substitutions ++ combine keys values /\
      Forall2 (fun id key =>
                 KoreConverter._metavars self' !! id = Some (MetaVar key))
        (earlier ++ map fst items) (map fst result_) /\
      metavars_numbered self'.
Proof.
  induction items as [ | [id kore_pattern] items IH ];
    intros earlier substitutions self self' result_ Hnumbered Hnodup Hkeys;
    cbn [convert_substitutions_loop map convert_args fst snd].
  - intros [= <- <-]. exists [], []. rewrite !app_nil_r.
    do 3 (split; [reflexivity | ]). split; assumption.
  - unfold bind at 1. unfold KoreConverter._lookup_metavar.
    destruct (KoreConverter._metavars self !! id) as [metavar | ] eqn:Hid;
      [ | discriminate].
    destruct (proj1 Hnumbered _ _ Hid) as (n & -> & _).
    unfold bind at 1.
    pose proof (convert_metavars_numbered kore_pattern false self Hnumbered)
      as Hnumbered1.
    pose proof (convert_extends kore_pattern false self) as Hgrow.
    unfold KoreConverter._convert_pattern.
    destruct (KoreConverter.convert false kore_pattern self)
      as [[converted | e] self1] eqn:Hconvert; [ | discriminate].
    cbn [snd] in Hnumbered1, Hgrow.
    destruct Hgrow as (_ & _ & _ & _ & _ & _ & Hmetavars & _).
    intros Hloop.
    assert (Hfresh : n ∉ map fst substitutions).
    { intros Hin.
      apply list_elem_of_lookup in Hin as [i Hi].
      destruct (Forall2_lookup_r _ _ _ _ _ Hkeys Hi) as (other & Hother & Hget).
      pose proof (proj2 Hnumbered _ _ _ Hget Hid) as Hsame. subst other.
      apply NoDup_app in Hnodup as (_ & Hdisjoint & _).
      apply (Hdisjoint id); [eapply list_elem_of_lookup_2; exact Hother | left]. }
    rewrite (subst_set_fresh _ _ _ Hfresh) in Hloop.
    destruct (IH (earlier ++ [id]) (substitutions ++ [(n, converted)])
                self1 self' result_ Hnumbered1) as
      (keys & values & Hargs & Hlen & Hresult & Hall & Hnumbered').
    + rewrite <- app_assoc. exact Hnodup.
    + rewrite map_app. apply Forall2_app.
      * eapply Forall2_impl; [exact Hkeys | ].
        intros other key Hget. cbv beta in *.
        eapply lookup_weaken; eassumption.
      * constructor; [ | constructor]. simpl.
        eapply lookup_weaken; eassumption.
    + exact Hloop.
    + exists (n :: keys), (converted :: values).
      unfold bind. rewrite Hconvert, Hargs. unfold ret.
      split; [reflexivity | ]. split; [simpl; congruence | ].
      split; [rewrite Hresult, <- app_assoc; reflexivity | ].
      split; [ | exact Hnumbered'].
      rewrite <- app_assoc in Hall. exact Hall.
Qed.

Lemma Forall2_keys_NoDup (self : KoreConverter.t) (ids : list string) :
  forall keys,
    metavars_numbered self ->
    Forall2 (fun id key =>
               KoreConverter._metavars self !! id = Some (MetaVar key))
      ids keys ->
    NoDup ids -> NoDup keys.
Proof.
  intros keys Hnumbered Hall. induction Hall as [ | id key ids keys Hget Hall IH ].
  - intros _. constructor.
  - intros Hnodup. apply NoDup_cons in Hnodup as [Hnew Hnodup].
    apply NoDup_cons. split; [ | exact (IH Hnodup)].
    intros Hin. apply Hnew.
    apply list_elem_of_lookup in Hin as [i Hi].
    destruct (Forall2_lookup_r _ _ _ _ _ Hall Hi) as (other & Hother & Hget').
    rewrite (proj2 Hnumbered _ _ _ Hget Hget').
    eapply list_elem_of_lookup_2. exact Hother.
Qed.

(** X27.  [convert_substitutions] on a substitution whose identifiers are
    distinct, in a converter whose metavariables are numbered (as they always
    are). It asserts that each identifier is a known metavariable when its
    turn comes: if the first one is not, it raises [AssertionError] and the
    converter is as it was. When it returns, the patterns have been converted
    from left to right like the arguments of an application; the result has
    one entry per item, in order, keyed by the number of the metavariable of
    the identifier, and no two items share a key. *)
Theorem convert_substitutions_entries (subst : list (string * kore.Pattern))
    (self : KoreConverter.t) :
  metavars_numbered self ->
  NoDup (map fst subst) ->
  (forall id kore_pattern rest,
      subst = (id, kore_pattern) :: rest ->
      KoreConverter._metavars self !! id = None ->
      convert_substitutions subst self = (Raise AssertionError, self))
  /\ (forall substitutions self',
        convert_substitutions subst self = (Ok substitutions, self') ->
        convert_args (map snd subst) self
          = (Ok (map snd substitutions), self') /\
        length substitutions = length subst /\
        Forall2 (fun id key =>
                   KoreConverter._metavars self' !! id = Some (MetaVar key))
          (map fst subst) (map fst substitutions) /\
        NoDup (map fst substitutions)).
Proof.
  intros Hnumbered Hnodup. split.
  - intros id kore_pattern rest -> Hid.
    unfold convert_substitutions. simpl. unfold bind at 1.
    unfold KoreConverter._lookup_metavar. rewrite Hid. reflexivity.
  - intros substitutions self' Hrun.
    destruct (convert_substitutions_steps subst [] [] self self' substitutions
                Hnumbered Hnodup (List.Forall2_nil _) Hrun)
      as (keys & values & Hargs & Hlen & -> & Hall & Hnumbered').
    simpl in *.
    assert (Hvalues : map snd (combine keys values) = values).
    { clear -Hlen. revert values Hlen.
      induction keys as [ | k keys IH ]; intros [ | v values] Hlen;
        simpl in *; try discriminate; [reflexivity | ].
      f_equal. apply IH. congruence. }
    rewrite Hvalues. split; [exact Hargs | ].
    split; [ | split; [exact Hall | ]].
    + apply Forall2_length in Hall. rewrite !length_map in Hall.
      symmetry. exact Hall.
    + exact (Forall2_keys_NoDup self' _ _ Hnumbered' Hall Hnodup).
Qed.

Lemma convert_substitutions_entries_witness :
  let self :=
    snd (KoreConverter._convert_pattern
           (kore.Rewrites Example.SortK Example.X Example.Y)
           Example.converter) in
  convert_args [kore.DV Example.SortK "1"; Example.X] self
  = (Ok [kl.KoreDv (Symbol "kore_sort_SortK") (Symbol "kore_1"); MetaVar 0],
     snd (convert_substitutions
            [("Y", kore.DV Example.SortK "1"); ("X", Example.X)] self)).
Proof.
  cbv zeta.
  pose (self := snd (KoreConverter._convert_pattern
                       (kore.Rewrites Example.SortK Example.X Example.Y)
                       Example.converter)).
  destruct (convert_substitutions_entries
              [("Y", kore.DV Example.SortK "1"); ("X", Example.X)] self)
    as [_ Hreturns].
  - apply convert_metavars_numbered, init_metavars_numbered.
  - simpl. apply NoDup_cons. split; [ | apply NoDup_singleton].
    intros H. apply list_elem_of_singleton in H. discriminate H.
  - destruct (Hreturns
                [(1, kl.KoreDv (Symbol "kore_sort_SortK") (Symbol "kore_1"));
                 (0, MetaVar 0)]
                (snd (convert_substitutions
                        [("Y", kore.DV Example.SortK "1"); ("X", Example.X)]
                        self)))
      as [Hargs _].
    + vm_compute. reflexivity.
    + exact Hargs.
Defined.

(** ** Engine: the configuration across simplifications *)

Lemma simplification_event_current (cls : SimplificationVisitor.Methods)
    (apply_esubst : Pattern -> nat -> Pattern -> Pattern) (ordinal : nat)
    (substitution : Subst) (loc : Location) (self : ExecutionProofExp.t) :
  let after :=
    snd (ExecutionProofExp.simplification_event cls apply_esubst ordinal
           substitution loc self) in
  ExecutionProofExp.current_configuration after
  = match fst (ExecutionProofExp.simplification_event cls apply_esubst ordinal
                 substitution loc self) with
    | Ok _ =>
        SimplificationVisitor.simplified_configuration
          (ExecutionProofExp._simplification_visitor after)
    | Raise _ => ExecutionProofExp.current_configuration self
    end.
Proof.
  cbv zeta. unfold ExecutionProofExp.simplification_event.
  destruct (SimplificationVisitor.with_visitor cls _ _) as [[info | e] visitor];
    reflexivity.
Qed.

(** X28.  The engine and its visitor agree on the current configuration when
    the engine is made and after every rewrite event that returns; and while
    they agree, a simplification event, whether it returns or raises and
    whatever the two static methods do, leaves the current configuration of
    the engine as it was, and they still agree. *)
Theorem simplification_event_keeps_current_configuration :
  (forall language_semantics init_config,
      in_sync (ExecutionProofExp.__init__ language_semantics init_config))
  /\ (forall rule substitution self proof after,
        ExecutionProofExp.rewrite_event rule substitution self
          = (Ok proof, after) ->
        in_sync after)
  /\ (forall cls apply_esubst ordinal substitution loc self,
        in_sync self ->
        let after :=
          snd (ExecutionProofExp.simplification_event cls apply_esubst ordinal
                 substitution loc self) in
        ExecutionProofExp.current_configuration after
          = ExecutionProofExp.current_configuration self
        /\ in_sync after).
Proof.
  split; [reflexivity | split].
  - intros rule substitution self proof after.
    unfold ExecutionProofExp.rewrite_event, bind, lift, get, modify, ret,
      raise.
    destruct (kl.kore_rewrites_assert_matches _) as [[[sort lhs] rhs] | e];
      [ | discriminate].
    cbn [fst snd].
    destruct (pattern_eqb lhs (ExecutionProofExp.current_configuration self));
      [ | discriminate].
    unfold ExecutionProofExp.add_assumptions_for_rewrite_step.
    destruct (ExecutionProofExp.collect_functional_axioms _ _)
      as [func_axioms | e]; [ | discriminate].
    destruct (ProofExp.load_axiom _ _) as [loaded | e]; [ | discriminate].
    unfold SimplificationVisitor.update_configuration.
    cbn [ExecutionProofExp._simplification_visitor
         ExecutionProofExp.set_base ExecutionProofExp.set_curr_config].
    destruct (SimplificationVisitor._simplification_stack _);
      [ | discriminate].
    destruct (SimplificationVisitor._in_simplification _); [discriminate | ].
    intros [= _ <-]. reflexivity.
  - intros cls apply_esubst ordinal substitution loc self Hsync after.
    pose proof (simplification_event_keeps_configuration cls apply_esubst
                  ordinal substitution loc self) as Hvisitor.
    pose proof (simplification_event_current cls apply_esubst ordinal
                  substitution loc self) as Hcurrent.
    cbv zeta in Hcurrent. fold after in Hvisitor, Hcurrent.
    unfold in_sync in *.
    destruct (fst (ExecutionProofExp.simplification_event cls apply_esubst
                     ordinal substitution loc self)); split; congruence.
Qed.
